(** * Columbus City Council vote extraction: vote assignment, date ranges,
      collection of meetings and agenda items, matter enrichment, full text
      scraping, text preservation and CSV output.

    Shallow embedding of [extract_columbus.py] (the parameterized workflow)
    and of the row-writing loop of [extract_q1_2023.py] (the hard-coded
    single-quarter variant).

    Conventions. A Python dict with string keys is a [gmap string _]; a
    function that can raise returns an [option], [None] standing for the
    exception; the network and the browser enter as the values they return;
    printing and sleeping are left out. Strings are sequences of bytes:
    slicing and ordering agree with Python's on ASCII text, and the byte
    order of UTF-8 is the code-point order [sorted] uses. A CSV file is
    the list of the records written to it; reading it back applies what
    the text layer and the parser of the [csv] module do to them: universal
    newlines, and [csv.Error] at a field over the size limit. *)

From Stdlib Require Import ZArith String Ascii List Lia.
From Stdlib Require Import DecimalString DecimalPos DecimalZ.
From stdpp Require Import base decidable option list gmap strings sorting.

Set Warnings "-clear-no-such-hyp".

Local Open Scope string_scope.
Local Open Scope Z_scope.

(** ** JSON scalars as the Legistar API returns them *)

(** The values the scripts move around are JSON scalars: [null], integers
    and strings. *)
Inductive pyval :=
  | PNone
  | PInt (z : Z)
  | PStr (s : string).

#[global] Instance pyval_eq_dec : EqDecision pyval.
Proof. solve_decision. Defined.

#[global] Instance pyval_inhabited : Inhabited pyval := populate PNone.

(** Python truthiness, as used by [if mid:], [if text:], [x or ''] *)
Definition truthy (v : pyval) : bool :=
  match v with
  | PNone => false
  | PInt z => negb (z =? 0)
  | PStr s => negb (String.eqb s "")
  end.

(** [x == 1] *)
Definition py_eq_one (v : pyval) : bool :=
  match v with
  | PInt 1 => true
  | _ => false
  end.

(** [x is not None] *)
Definition is_not_none (v : pyval) : bool :=
  match v with
  | PNone => false
  | _ => true
  end.

(** Decimal rendering of an integer, [str(n)] and [f"{n}"]. *)
Definition str_of_Z (z : Z) : string := NilZero.string_of_int (Z.to_int z).

(** [str(v)] *)
Definition py_str (v : pyval) : string :=
  match v with
  | PNone => "None"
  | PInt z => str_of_Z z
  | PStr s => s
  end.

(** ** Agenda items *)

(** An agenda item is the dict [item_data] built by [collect_event_items]:
    scalar entries, the entry ['attendance'] holding the meeting's attendance
    dict, and the entry ['item_votes'], which the third pass adds (the
    single-quarter script never sets it). *)
Record item := Item {
  fields : gmap string pyval;
  attendance : gmap string pyval;
  item_votes : option (gmap string pyval);
}.

(** [item.get(k)] on a scalar key: [None] when the key is missing *)
Definition item_get (it : item) (k : string) : pyval :=
  default PNone (fields it !! k).

(** [item.get(k, '')] *)
Definition item_get_str (it : item) (k : string) : pyval :=
  default (PStr "") (fields it !! k).

(** [item[k]]: raises [KeyError] when the key is missing *)
Definition item_idx (it : item) (k : string) : option pyval :=
  fields it !! k.

(** ** Vote assignment *)

Definition VOTE_MAP : gmap string pyval :=
  <["Affirmative" := PStr "Yes"]>
  (<["Negative" := PStr "No"]>
  (<["Abstained" := PStr "Abstain"]>
  (<["Absent@vote" := PStr "Absent"]>
  (<["Absent" := PStr "Absent"]>
  (<["Present" := PStr "Present"]> ∅))))).

(** [self.VOTE_MAP.get(v, v)] *)
Definition VOTE_MAP_get (v : pyval) : pyval :=
  match v with
  | PStr s => default v (VOTE_MAP !! s)
  | _ => v
  end.

(** [att in ('Absent', 'Absent@vote')] *)
Definition is_absent (att : pyval) : bool :=
  bool_decide (att = PStr "Absent") || bool_decide (att = PStr "Absent@vote").

(** [item['attendance'].get(member, '')] *)
Definition attendance_get (it : item) (member : string) : pyval :=
  default (PStr "") (attendance it !! member).

(** A [for member in members_list: votes[member] = f(member)] loop *)
Definition assign_each (f : string → pyval) (members_list : list string)
    (votes : gmap string pyval) : gmap string pyval :=
  foldl (λ vs member, <[member := f member]> vs) votes members_list.

Definition _assign_votes (it : item) (members_list : list string)
    : gmap string pyval :=
  let votes : gmap string pyval := ∅ in
  let item_votes := default ∅ (item_votes it) in
  if bool_decide (item_votes ≠ ∅) then
    assign_each (λ member,
      match item_votes !! member with
      | Some v => VOTE_MAP_get v
      | None =>
          let att := attendance_get it member in
          if is_absent att then PStr "Absent" else PStr ""
      end) members_list votes
  else if py_eq_one (item_get it "passed") then
    assign_each (λ member,
      let att := attendance_get it member in
      if is_absent att then PStr "Absent" else PStr "Yes") members_list votes
  else
    assign_each (λ _, PStr "") members_list votes.

(** ** Date-Range Resolver *)

Definition quarters : gmap Z (string * string) :=
  <[1 := ("01-01", "04-01")]>
  (<[2 := ("04-01", "07-01")]>
  (<[3 := ("07-01", "10-01")]>
  (<[4 := ("10-01", "01-01")]> ∅))).

(** [quarters[quarter]] raises [KeyError] outside 1..4: the result is [None]. *)
Definition get_quarter_dates (year quarter : Z) : option (string * string) :=
  q ← quarters !! quarter;
  let start := str_of_Z year ++ "-" ++ q.1 in
  let end_year := if quarter =? 4 then year + 1 else year in
  let end_ := str_of_Z end_year ++ "-" ++ q.2 in
  Some (start, end_).

(** Calendar dates and the ['YYYY-MM-DD'] literal the docstring of
    [get_quarter_dates] names, to read the returned strings as dates. *)
Record date := Date { d_year : Z; d_month : Z; d_day : Z }.

Definition two_digits (n : Z) : string :=
  if n <? 10 then "0" ++ str_of_Z n else str_of_Z n.

Definition date_literal (d : date) : string :=
  str_of_Z (d_year d) ++ "-" ++ two_digits (d_month d) ++ "-" ++ two_digits (d_day d).

(** [d1] is strictly earlier than [d2] *)
Definition date_lt (d1 d2 : date) : Prop :=
  d_year d1 < d_year d2
  ∨ (d_year d1 = d_year d2 ∧
       (d_month d1 < d_month d2
        ∨ (d_month d1 = d_month d2 ∧ d_day d1 < d_day d2))).

(** First month of a quarter: January, April, July, October *)
Definition quarter_month (q : Z) : Z := 3 * q - 2.

(** ** The workflow object *)

(** Matter detail and attachment objects as [/matters/{id}] and
    [/matters/{id}/attachments] return them; the entries read here are
    strings or [null] in the API. *)
Abbreviation json_obj := (gmap string (option string)).

Record matter_entry := MatterEntry {
  details : option json_obj;
  attachments : list json_obj;
}.

(** The part of [ColumbusExtractionWorkflow] the modelled methods read or
    write. *)
Record workflow := Workflow {
  year : Z;
  quarter : Z;
  skip_text : bool;
  votes_only : bool;
  output_dir : string;
  all_members : gset string;
  matter_cache : gmap Z matter_entry;
}.

Definition set_matter_cache (self : workflow) (c : gmap Z matter_entry) : workflow :=
  Workflow (year self) (quarter self) (skip_text self) (votes_only self)
    (output_dir self) (all_members self) c.

Definition set_all_members (self : workflow) (ms : gset string) : workflow :=
  Workflow (year self) (quarter self) (skip_text self) (votes_only self)
    (output_dir self) ms (matter_cache self).

(** [get_output_paths]: [output_dir / f"{prefix}-Votes.csv"] and so on *)
Definition output_prefix (year quarter : Z) : string :=
  "Columbus-OH-" ++ str_of_Z year ++ "-Q" ++ str_of_Z quarter.

(** The dict [output_paths], keys ['votes'], ['voted_items'], ['persons'] *)
Record output_paths := OutputPaths {
  path_votes : string;
  path_voted_items : string;
  path_persons : string;
}.

Definition get_output_paths (output_dir : string) (year quarter : Z) : output_paths :=
  let prefix := output_prefix year quarter in
  {| path_votes := output_dir ++ "/" ++ prefix ++ "-Votes.csv";
     path_voted_items := output_dir ++ "/" ++ prefix ++ "-Voted-Items.csv";
     path_persons := output_dir ++ "/" ++ prefix ++ "-Persons.csv" |}.

Definition self_output_paths (self : workflow) : output_paths :=
  get_output_paths (output_dir self) (year self) (quarter self).

(** ** Matter Enricher *)

(** The two matter endpoints, as one run sees them. [fetch_matter_details]
    is [None] when the request fails; [fetch_matter_attachments] is
    [_api_get(url) or []]. *)
Record matter_api := MatterApi {
  fetch_matter_details : Z → option json_obj;
  fetch_matter_attachments : Z → list json_obj;
}.

(** Requests issued, in order *)
Inductive api_call :=
  | GetMatter (mid : Z)
  | GetMatterAttachments (mid : Z).

#[global] Instance api_call_eq_dec : EqDecision api_call.
Proof. solve_decision. Defined.

(** [mid = item.get('matter_id')] followed by [if mid:]. Matter identifiers
    are the API's integer [EventItemMatterId] or [null]; the identifier 0
    fails the test like [null] does. *)
Definition matter_id_of (it : item) : option Z :=
  match item_get it "matter_id" with
  | PInt z => if truthy (PInt z) then Some z else None
  | _ => None
  end.

Definition unique_matter_ids (all_items : list item) : gset Z :=
  foldl (λ ids it,
    match matter_id_of it with
    | Some mid => ids ∪ {[mid]}
    | None => ids
    end) ∅ all_items.

(** [sorted(unique_matter_ids)] *)
Definition sorted_matter_ids (all_items : list item) : list Z :=
  merge_sort Z.le (elements (unique_matter_ids all_items)).

(** The fetch loop: two requests per identifier, the cache entry is
    overwritten. *)
Definition fetch_matters (api : matter_api) (mids : list Z)
    (cache : gmap Z matter_entry) (log : list api_call)
    : gmap Z matter_entry * list api_call :=
  foldl (λ '(cache, log) mid,
    let details := fetch_matter_details api mid in
    let attachments := fetch_matter_attachments api mid in
    (<[mid := MatterEntry details attachments]> cache,
     log ++ [GetMatter mid; GetMatterAttachments mid])%list)
    (cache, log) mids.

(** [details.get(k, '') or ''] *)
Definition details_get (d : json_obj) (k : string) : string :=
  match d !! k with
  | Some (Some s) => s
  | _ => ""
  end.

(** [s[:10] if s else ''] *)
Definition first10 (s : string) : string :=
  if String.eqb s "" then "" else String.substring 0 10 s.

(** [item[k] = v] *)
Definition item_set (k : string) (v : pyval) (it : item) : item :=
  Item (<[k := v]> (fields it)) (attendance it) (item_votes it).

Definition set_matter_details (d : json_obj) (it : item) : item :=
  let it := item_set "matter_title" (PStr (details_get d "MatterTitle")) it in
  let it := item_set "matter_type_name" (PStr (details_get d "MatterTypeName")) it in
  let it := item_set "matter_status_name" (PStr (details_get d "MatterStatusName")) it in
  let intro := details_get d "MatterIntroDate" in
  let it := item_set "matter_intro_date" (PStr (first10 intro)) it in
  let passed_d := details_get d "MatterPassedDate" in
  let it := item_set "matter_passed_date" (PStr (first10 passed_d)) it in
  let enact_d := details_get d "MatterEnactmentDate" in
  let it := item_set "matter_enactment_date" (PStr (first10 enact_d)) it in
  let it := item_set "matter_enactment_number" (PStr (details_get d "MatterEnactmentNumber")) it in
  let it := item_set "matter_requester" (PStr (details_get d "MatterRequester")) it in
  item_set "matter_body_name" (PStr (details_get d "MatterBodyName")) it.

(** The hyperlinks kept: [a.get('MatterAttachmentHyperlink', '')] for the
    attachments where it is truthy *)
Definition attachment_hyperlinks (atts : list json_obj) : list string :=
  omap (λ a : json_obj,
    match a !! "MatterAttachmentHyperlink" with
    | Some (Some s) => if String.eqb s "" then None else Some s
    | _ => None
    end) atts.

(** ['|'.join(links)] *)
Definition join_links (links : list string) : string := String.concat "|" links.

(** [if details: ...] with the cached details *)
Definition populate_details (e : matter_entry) (it : item) : item :=
  match details e with
  | Some d => if bool_decide (d ≠ ∅) then set_matter_details d it else it
  | None => it
  end.

(** [if attachments: ...] with the cached attachments *)
Definition populate_attachments (e : matter_entry) (it : item) : item :=
  let attachments := attachments e in
  if bool_decide (attachments ≠ []) then
    let links := attachment_hyperlinks attachments in
    item_set "attachment_links" (PStr (join_links links)) it
  else it.

(** The body of the loop that populates the matter fields *)
Definition populate_item (cache : gmap Z matter_entry) (it : item) : item :=
  match matter_id_of it with
  | Some mid =>
      match cache !! mid with
      | Some e => populate_attachments e (populate_details e it)
      | None => it
      end
  | None => it
  end.

(** [enrich_matter_data]: the new workflow state, the items as the method
    leaves them, and the requests it issued. *)
Definition enrich_matter_data (api : matter_api) (self : workflow)
    (all_items : list item) : workflow * list item * list api_call :=
  let '(cache, log) :=
    fetch_matters api (sorted_matter_ids all_items) (matter_cache self) [] in
  (set_matter_cache self cache, populate_item cache <$> all_items, log).

(** ** CSV files *)

(** A CSV file at the level of the [csv] module: the records written, each
    a list of cells, the header first. The file system maps a path to the
    file stored there. *)
Abbreviation csv_file := (list (list string)).
Abbreviation file_system := (gmap string csv_file).

(** What [csv.writer] writes for a value: [None] as the empty string,
    a string as it is, anything else through [str]. *)
Definition csv_cell (v : pyval) : string :=
  match v with
  | PNone => ""
  | PInt z => str_of_Z z
  | PStr s => s
  end.

(** [DictWriter.writerow(row)]: the cells in [fieldnames] order, a missing
    key written as [restval = '']. Every key of the rows built below is a
    field name, so [extrasaction='raise'] never fires. *)
Definition writerow (fieldnames : list string) (row : gmap string pyval) : list string :=
  (λ k, csv_cell (default (PStr "") (row !! k))) <$> fieldnames.

(** ** Reading a CSV file *)

Definition CR : ascii := "013".
Definition LF : ascii := "010".

(** The files are written with [newline=''] and opened for reading
    without it, so the reader receives the text with universal newlines:
    every '\r\n' and every other '\r' arrives as '\n'. [after_cr] tells
    that the character before was a '\r', whose '\n' is already out. This
    is what happens to a cell between [writerow] and the parser; the
    quoting of [csv.writer] is undone by the parser and leaves no other
    trace. *)
Fixpoint translate_newlines (after_cr : bool) (s : string) : string :=
  match s with
  | "" => ""
  | String c r =>
      if Ascii.eqb c CR then String LF (translate_newlines true r)
      else if Ascii.eqb c LF then
        if after_cr then translate_newlines false r
        else String LF (translate_newlines false r)
      else String c (translate_newlines false r)
  end.

Definition universal_newlines (s : string) : string := translate_newlines false s.

(** [len(s)]: the characters of a UTF-8 text are its bytes other than
    continuation bytes (0x80 to 0xBF). *)
Fixpoint py_len (s : string) : N :=
  match s with
  | "" => 0%N
  | String c r =>
      let b := N_of_ascii c in
      ((if (128 <=? b) && (b <=? 191) then 0 else 1) + py_len r)%N
  end.

(** [csv.field_size_limit()], which neither script changes *)
Definition field_size_limit : N := 131072%N.

(** No cell of the record, as the parser receives it, has more characters
    than the limit *)
Definition within_limit (record : list string) : bool :=
  forallb (λ cell, (py_len (universal_newlines cell) <=? field_size_limit)%N) record.

(** The parser on one record: the cells as read, or [None] when a cell is
    over the limit and the parser raises [csv.Error]. (This is the parser
    of CPython 3.11 and later; earlier ones also raise at a NUL
    character.) *)
Definition read_record (record : list string) : option (list string) :=
  if within_limit record then Some (universal_newlines <$> record) else None.

(** [csv.reader(f)]: the records the iteration yields before the file
    ends or the parser raises *)
Fixpoint csv_reader (f : csv_file) : list (list string) :=
  match f with
  | [] => []
  | record :: rest =>
      match read_record record with
      | Some cells => cells :: csv_reader rest
      | None => []
      end
  end%list.

(** [dict(zip(fieldnames, record))] *)
Definition record_dict (fieldnames record : list string) : gmap string string :=
  foldl (λ d '(k, v), <[k := v]> d) ∅ (zip fieldnames record).

(** [csv.DictReader(f)]: the dicts the iteration yields before the file
    ends or the parser raises, one per non-empty record after the header.
    The header is read with the first of them, by the same parser. *)
Definition dict_reader (f : csv_file) : list (gmap string string) :=
  match csv_reader f with
  | [] => []
  | fieldnames :: records =>
      record_dict fieldnames <$> filter (λ r, r ≠ []) records
  end%list.

(** ** CSV Writer *)

Definition item_fieldnames : list string :=
  [ "event_id"; "event_date"; "event_time"; "event_location";
    "event_item_id"; "agenda_number"; "agenda_sequence";
    "matter_file"; "matter_name"; "matter_title"; "matter_type"; "matter_type_name";
    "matter_status"; "matter_status_name";
    "matter_intro_date"; "matter_passed_date"; "matter_enactment_date";
    "matter_enactment_number";
    "matter_requester"; "matter_body_name";
    "title"; "action"; "action_text"; "passed"; "consent"; "tally"; "mover"; "seconder";
    "roll_call_flag"; "agenda_link"; "minutes_link"; "video_link"; "attachment_links";
    "Agenda_item_fulltext" ]%list.

Definition person_fields : list string :=
  [ "PersonId"; "PersonFullName"; "PersonFirstName"; "PersonLastName";
    "PersonEmail"; "PersonActiveFlag"; "PersonPhone"; "PersonWWW" ]%list.

(** [sorted(list(names))], in the code-point order of strings *)
Definition sorted_names (names : gset string) : list string :=
  merge_sort String.le (elements names).

(** [{k: item.get(k, '') for k in fieldnames if k not in members_list}] *)
Definition base_row (it : item) (fieldnames members_list : list string)
    : gmap string pyval :=
  foldl (λ row k,
    if bool_decide (k ∈ members_list) then row
    else <[k := item_get_str it k]> row) ∅ fieldnames.

(** [row.update(d)] *)
Definition dict_update (row d : gmap string pyval) : gmap string pyval := d ∪ row.

(** The row of one item: the comprehension, then
    [row.update(self._assign_votes(item, members_list))]. *)
Definition item_row (it : item) (fieldnames members_list : list string)
    : gmap string pyval :=
  let row := base_row it fieldnames members_list in
  dict_update row (_assign_votes it members_list).

(** [[i for i in all_items if i['passed'] is not None]] *)
Fixpoint voted_only (all_items : list item) : option (list item) :=
  match all_items with
  | [] => Some []
  | i :: rest =>
      p ← item_idx i "passed";
      rest' ← voted_only rest;
      Some (if is_not_none p then i :: rest' else rest')
  end%list.

(** The records of an item CSV: [writeheader()], then one [writerow] per item *)
Definition items_csv (fieldnames members_list : list string) (items : list item)
    : csv_file :=
  fieldnames :: ((λ it, writerow fieldnames (item_row it fieldnames members_list)) <$> items).

Abbreviation person := (gmap string pyval).

Definition persons_csv (persons_by_name : gmap string person) : csv_file :=
  person_fields ::
    omap (λ name,
      p ← persons_by_name !! name;
      Some (writerow person_fields
              (foldl (λ row k, <[k := default (PStr "") (p !! k)]> row) ∅ person_fields)))
      (sorted_names (dom persons_by_name)).

(** [write_output]; [None] when a lookup [i['passed']] raises. *)
Definition write_output (self : workflow) (all_items : list item)
    (persons_by_name : gmap string person) (fs : file_system) : option file_system :=
  let members_list := sorted_names (all_members self) in
  all_items ← (if votes_only self then voted_only all_items else Some all_items);
  let output_file := path_votes (self_output_paths self) in
  let fieldnames := (item_fieldnames ++ members_list)%list in
  let fs := <[output_file := items_csv fieldnames members_list all_items]> fs in
  fs ← (if negb (votes_only self) then
          voted_items ← voted_only all_items;
          let output_voted := path_voted_items (self_output_paths self) in
          Some (<[output_voted := items_csv fieldnames members_list voted_items]> fs)
        else Some fs);
  let output_persons := path_persons (self_output_paths self) in
  Some (<[output_persons := persons_csv persons_by_name]> fs).

(** ** Text preservation *)

(** [load_existing_text]: the text of the previous primary CSV, keyed by
    the [event_item_id] cell. A missing file gives the empty map. The loop
    runs inside [try]: when the reader raises, the handler prints a
    warning and the method returns [text_map] as the rows read before the
    error left it. *)
Definition load_existing_text (self : workflow) (fs : file_system) : gmap string string :=
  let csv_path := path_votes (self_output_paths self) in
  match fs !! csv_path with
  | Some f =>
      foldl (λ text_map row,
        let key := default "" (row !! "event_item_id") in
        let text := default "" (row !! "Agenda_item_fulltext") in
        if negb (String.eqb key "") && negb (String.eqb text "")
        then <[key := text]> text_map
        else text_map) ∅ (dict_reader f)
  | None => ∅
  end.

(** The loop of [run] over [all_items] in the skip-text branch *)
Definition preserve_text (text_map : gmap string string) (all_items : list item)
    : option (list item) :=
  mapM (λ it,
    eid ← item_idx it "event_item_id";
    let eid := py_str eid in
    match text_map !! eid with
    | Some text => Some (item_set "Agenda_item_fulltext" (PStr text) it)
    | None => Some it
    end) all_items.

(** ** The run *)

(** What [run] obtains from the network and the browser: the persons and
    meetings fetched, the members and items [collect_event_items] gathers,
    the matter endpoints, and the effect of [scrape_full_text] on the
    items. *)
Record environment := Environment {
  fetch_persons : gmap string person;
  fetch_meetings : list (gmap string pyval);
  collect_event_items : list (gmap string pyval) → gset string * list item;
  matters : matter_api;
  scrape_full_text : list item → list item;
}.

(** [run] up to Phase 2: the workflow state and the items handed to
    [write_output]; [Some None] is the early return on no meetings. *)
Definition run_items (env : environment) (self : workflow) (fs : file_system)
    : option (option (workflow * list item)) :=
  let meetings := fetch_meetings env in
  match meetings with
  | [] => Some None
  | _ =>
      let '(members, all_items) := collect_event_items env meetings in
      let self := set_all_members self (all_members self ∪ members) in
      let '(self, all_items, _) := enrich_matter_data (matters env) self all_items in
      all_items ←
        (if negb (skip_text self) then Some (scrape_full_text env all_items)
         else
           let text_map := load_existing_text self fs in
           if bool_decide (text_map ≠ ∅) then preserve_text text_map all_items
           else Some all_items);
      Some (Some (self, all_items))
  end.

Definition run (env : environment) (self : workflow) (fs : file_system)
    : option file_system :=
  r ← run_items env self fs;
  match r with
  | None => Some fs
  | Some (self, all_items) => write_output self all_items (fetch_persons env) fs
  end.

(** ** The single-quarter script *)

(** [x == 0] *)
Definition py_eq_zero (v : pyval) : bool :=
  match v with
  | PInt 0 => true
  | _ => false
  end.

(** The body of the row-writing loop of [extract_q1_2023.main] for one
    item, up to [writer.writerow(row)]. *)
Definition q1_row (it : item) (fieldnames members_list : list string)
    : option (gmap string pyval) :=
  let row := base_row it fieldnames members_list in
  passed ← item_idx it "passed";
  if py_eq_one passed then
    Some (foldl (λ row member,
      let attendance_status := attendance_get it member in
      if bool_decide (attendance_status = PStr "Present") then
        <[member := PStr "Yes"]> row
      else if is_absent attendance_status then
        <[member := PStr "Absent"]> row
      else
        <[member := PStr "Yes"]> row) row members_list)
  else if py_eq_zero passed then
    Some (foldl (λ row member, <[member := PStr ""]> row) row members_list)
  else
    Some (foldl (λ row member, <[member := PStr ""]> row) row members_list).

(** ** Objects and references *)

(** [_assign_votes] receives references: the item dict, whose entries
    ['attendance'] and ['item_votes'] refer to dicts shared with other
    items and with the workflow, and the members list. The module below
    runs the method on an object store, to say what it writes. *)
Module Store.

Definition loc := positive.

Inductive hval :=
  | HLit (v : pyval)
  | HRef (l : loc).

Inductive obj :=
  | ODict (d : gmap string hval)
  | OList (l : list hval).

(** The store and the accumulators of the workflow object *)
Record world := World {
  heap : gmap loc obj;
  self_of : workflow;
  attendance_by_meeting : gmap Z loc;
  meeting_links : gmap Z loc;
}.

Definition set_heap (w : world) (h : gmap loc obj) : world :=
  World h (self_of w) (attendance_by_meeting w) (meeting_links w).

(** Computations on the world; [None] is a raised exception. *)
Definition M (A : Type) : Type := world → option (A * world).

Definition ret {A} (a : A) : M A := λ w, Some (a, w).

Definition bind {A B} (m : M A) (k : A → M B) : M B :=
  λ w, match m w with
       | Some (a, w') => k a w'
       | None => None
       end.

Definition raise {A} : M A := λ _, None.

Declare Scope store_scope.
Delimit Scope store_scope with store.
Notation "x <- m ;; k" := (bind m (λ x, k))
  (at level 100, m at next level, right associativity) : store_scope.
Notation "m ;;; k" := (bind m (λ _, k))
  (at level 100, right associativity) : store_scope.
Local Open Scope store_scope.

(** [{}] *)
Definition new_dict : M loc :=
  λ w, let l := fresh (dom (heap w)) in
       Some (l, set_heap w (<[l := ODict ∅]> (heap w))).

(** Dereference as a dict / as a list *)
Definition get_dict (l : loc) : M (gmap string hval) :=
  λ w, match heap w !! l with
       | Some (ODict d) => Some (d, w)
       | _ => None
       end.

Definition get_list (l : loc) : M (list hval) :=
  λ w, match heap w !! l with
       | Some (OList xs) => Some (xs, w)
       | _ => None
       end.

(** [d[k] = v] *)
Definition dict_setitem (l : loc) (k : string) (v : hval) : M unit :=
  λ w, match heap w !! l with
       | Some (ODict d) => Some ((), set_heap w (<[l := ODict (<[k := v]> d)]> (heap w)))
       | _ => None
       end.

(** [d[k]] *)
Definition dict_getitem (l : loc) (k : string) : M hval :=
  d <- get_dict l;;
  match d !! k with
  | Some v => ret v
  | None => raise
  end.

(** [d.get(k, dflt)] *)
Definition dict_get (l : loc) (k : string) (dflt : hval) : M hval :=
  d <- get_dict l;;
  ret (default dflt (d !! k)).

Definition as_ref (v : hval) : M loc :=
  match v with
  | HRef l => ret l
  | HLit _ => raise
  end.

Definition as_lit (v : hval) : M pyval :=
  match v with
  | HLit v => ret v
  | HRef _ => raise
  end.

Definition as_str (v : hval) : M string :=
  match v with
  | HLit (PStr s) => ret s
  | _ => raise
  end.

Fixpoint for_each {A} (xs : list A) (body : A → M unit) : M unit :=
  match xs with
  | [] => ret ()
  | x :: xs => body x;;; for_each xs body
  end%list.

(** [item['attendance'].get(member, '')] *)
Definition attendance_get (item : loc) (member : string) : M pyval :=
  a <- dict_getitem item "attendance";;
  a <- as_ref a;;
  att <- dict_get a member (HLit (PStr ""));;
  as_lit att.

Definition _assign_votes (item members_list : loc) : M loc :=
  votes <- new_dict;;
  dflt <- new_dict;;
  item_votes <- dict_get item "item_votes" (HRef dflt);;
  item_votes <- as_ref item_votes;;
  iv <- get_dict item_votes;;
  members <- get_list members_list;;
  (if bool_decide (iv ≠ ∅) then
     for_each members (λ member,
       member <- as_str member;;
       iv <- get_dict item_votes;;
       match iv !! member with
       | Some v =>
           v <- as_lit v;;
           dict_setitem votes member (HLit (VOTE_MAP_get v))
       | None =>
           att <- attendance_get item member;;
           if is_absent att then dict_setitem votes member (HLit (PStr "Absent"))
           else dict_setitem votes member (HLit (PStr ""))
       end)
   else
     passed <- dict_get item "passed" (HLit PNone);;
     passed <- as_lit passed;;
     if py_eq_one passed then
       for_each members (λ member,
         member <- as_str member;;
         att <- attendance_get item member;;
         if is_absent att then dict_setitem votes member (HLit (PStr "Absent"))
         else dict_setitem votes member (HLit (PStr "Yes")))
     else
       for_each members (λ member,
         member <- as_str member;;
         dict_setitem votes member (HLit (PStr ""))));;;
  ret votes.

(** The item dict at [l] in store [h] holds the item [it]: its scalar
    entries, a reference to its attendance dict, and a reference to its
    per-item votes when the key is set. *)
Definition item_votes_at (h : gmap loc obj) (d : gmap string hval)
    (ivs : option (gmap string pyval)) : Prop :=
  match ivs with
  | Some iv => ∃ lv, d !! "item_votes" = Some (HRef lv)
                     ∧ h !! lv = Some (ODict (HLit <$> iv))
  | None => d !! "item_votes" = None
  end.

Definition holds_item (h : gmap loc obj) (l : loc) (it : item) : Prop :=
  ∃ d la,
    h !! l = Some (ODict d)
    ∧ d !! "passed" = HLit <$> (fields it !! "passed")
    ∧ d !! "attendance" = Some (HRef la)
    ∧ h !! la = Some (ODict (HLit <$> attendance it))
    ∧ item_votes_at h d (item_votes it).

Definition holds_members (h : gmap loc obj) (l : loc) (ms : list string) : Prop :=
  h !! l = Some (OList ((λ m, HLit (PStr m)) <$> ms)).

End Store.

(** ** Auxiliary definitions for the statements *)

(** The three branches of [_assign_votes] as one per-member function *)
Definition vote_of (it : item) (member : string) : pyval :=
  let item_votes := default ∅ (item_votes it) in
  if bool_decide (item_votes ≠ ∅) then
    match item_votes !! member with
    | Some v => VOTE_MAP_get v
    | None => if is_absent (attendance_get it member) then PStr "Absent" else PStr ""
    end
  else if py_eq_one (item_get it "passed") then
    if is_absent (attendance_get it member) then PStr "Absent" else PStr "Yes"
  else PStr "".

(** [item['attendance'] = att] on the model *)
Definition with_attendance (att : gmap string pyval) (it : item) : item :=
  Item (fields it) att (item_votes it).

(** An item whose [passed] flag is not [None] *)
Definition has_outcome (i : item) : Prop := item_get i "passed" ≠ PNone.

#[global] Instance has_outcome_dec i : Decision (has_outcome i).
Proof. unfold has_outcome. apply _. Defined.

(** The data rows of a CSV file: the records after the header *)
Definition data_rows (f : csv_file) : list (list string) := tail f.

(** The body of the loop of [load_existing_text] *)
Definition load_row (text_map : gmap string string) (row : gmap string string)
    : gmap string string :=
  let key := default "" (row !! "event_item_id") in
  let text := default "" (row !! "Agenda_item_fulltext") in
  if negb (String.eqb key "") && negb (String.eqb text "")
  then <[key := text]> text_map
  else text_map.

(** Every row for [key] that carries a text carries [text]. *)
Definition rows_agree (key text : string) (rows : list (gmap string string)) : Prop :=
  ∀ row t, row ∈ rows →
    row !! "event_item_id" = Some key →
    row !! "Agenda_item_fulltext" = Some t → t ≠ "" → t = text.

(** A skip-text run for 2023 Q1 over one collected item, and the file the
    previous run left *)
Definition example_workflow : workflow :=
  Workflow 2023 1 true false "out" ∅ ∅.

Definition example_environment : environment :=
  {| fetch_persons := ∅;
     fetch_meetings := [ {["EventId" := PInt 1]} ];
     collect_event_items := λ _,
       ({["A"]},
        [ Item {["event_item_id" := PInt 7; "passed" := PInt 1;
                 "Agenda_item_fulltext" := PStr ""]} ∅ (Some ∅) ]);
     matters := MatterApi (λ _, None) (λ _, []);
     scrape_full_text := λ items, items |}.

Definition example_previous_csv : csv_file :=
  [ ["event_item_id"; "Agenda_item_fulltext"]; ["7"; "WHEREAS, the council"] ]%list.

Definition example_file_system : file_system :=
  {[ path_votes (self_output_paths example_workflow) := example_previous_csv ]}.

(** Two collected items: one passed on a voice vote, one without outcome *)
Definition example_item : item :=
  Item {["event_item_id" := PInt 7; "passed" := PInt 1; "matter_id" := PInt 5]}
       {["A" := PStr "Present"]} (Some ∅).

Definition example_items : list item :=
  [ example_item;
    Item {["event_item_id" := PInt 8; "passed" := PNone; "matter_id" := PNone]}
         {["A" := PStr "Present"]} (Some ∅) ]%list.

(** The entry the fetch loop stores for an identifier *)
Definition fetched_entry (api : matter_api) (mid : Z) : matter_entry :=
  MatterEntry (fetch_matter_details api mid) (fetch_matter_attachments api mid).

(** The item keys the enricher writes *)
Definition matter_fields : list string :=
  [ "matter_title"; "matter_type_name"; "matter_status_name";
    "matter_intro_date"; "matter_passed_date"; "matter_enactment_date";
    "matter_enactment_number"; "matter_requester"; "matter_body_name";
    "attachment_links" ]%list.

(** Writing several entries of an item at once *)
Definition overlay (u : gmap string pyval) (it : item) : item :=
  Item (u ∪ fields it) (attendance it) (item_votes it).

(** How often a request occurs in a log *)
Definition requests (c : api_call) (log : list api_call) : nat :=
  length (filter (λ c', c' = c) log).

(** Two states of the matter endpoints: the title of matter 5 changes
    between two runs. *)
Definition example_api_first : matter_api :=
  MatterApi (λ _, Some {["MatterTitle" := Some "To amend the budget"]}) (λ _, []).

Definition example_api_second : matter_api :=
  MatterApi (λ _, Some {["MatterTitle" := Some "To amend the 2023 budget"]}) (λ _, []).

(** The three results of [enrich_matter_data] *)
Definition enriched_self (api : matter_api) (self : workflow) (all_items : list item)
    : workflow := (enrich_matter_data api self all_items).1.1.

Definition enriched_items (api : matter_api) (self : workflow) (all_items : list item)
    : list item := (enrich_matter_data api self all_items).1.2.

Definition enrich_requests (api : matter_api) (self : workflow) (all_items : list item)
    : list api_call := (enrich_matter_data api self all_items).2.

(** The state after a first enrichment of [example_items] *)
Definition example_enriched_self : workflow :=
  enriched_self example_api_first example_workflow example_items.

Definition example_enriched_items : list item :=
  enriched_items example_api_first example_workflow example_items.

(** A store with one item dict (at 1), the attendance dict it shares with
    the workflow (at 2) and the members list (at 3) *)
Definition example_world : Store.world :=
  Store.World
    {[ 1%positive := Store.ODict {[ "passed" := Store.HLit (PInt 1);
                                    "attendance" := Store.HRef 2%positive ]};
       2%positive := Store.ODict {[ "A" := Store.HLit (PStr "Absent") ]};
       3%positive := Store.OList [Store.HLit (PStr "A"); Store.HLit (PStr "B")] ]}
    example_workflow {[ 1 := 2%positive ]} ∅.

Definition example_stored_item : item :=
  Item {["passed" := PInt 1]} {["A" := PStr "Absent"]} None.

(** ** Auxiliary definitions for further statements *)

(** The items [write_output] writes to the primary file *)
Definition written_items (self : workflow) (all_items : list item) : list item :=
  if votes_only self then filter has_outcome all_items else all_items.

(** The cell [csv.writer] produces for the entry [k] of an item *)
Definition item_cell (it : item) (k : string) : string :=
  csv_cell (item_get_str it k).

(** An item that carries a scraped text *)
Definition example_item_with_text : item :=
  Item {["event_item_id" := PInt 7; "passed" := PInt 1;
         "Agenda_item_fulltext" := PStr "WHEREAS, the council"]}
       {["A" := PStr "Present"]} (Some ∅).

(** ** Meeting & Agenda Collector *)

#[global] Instance pyval_countable : Countable pyval.
Proof.
  refine (inj_countable'
    (λ v, match v with
          | PNone => inl ()
          | PInt z => inr (inl z)
          | PStr s => inr (inr s)
          end)
    (λ x, match x with
          | inl _ => PNone
          | inr (inl z) => PInt z
          | inr (inr s) => PStr s
          end) _).
  by intros [].
Defined.

(** [d.get(k) or ''] (and [d.get(k, '') or '']) on a JSON object *)
Definition dict_get_or_empty (d : gmap string pyval) (k : string) : pyval :=
  match d !! k with
  | Some v => if truthy v then v else PStr ""
  | None => PStr ""
  end.

(** The receiver of a [str] method: anything but a string raises
    [AttributeError] *)
Definition as_text (v : pyval) : option string :=
  match v with
  | PStr s => Some s
  | _ => None
  end.

(** [v[:10]]: raises [TypeError] unless [v] is a string *)
Definition py_slice10 (v : pyval) : option pyval :=
  match v with
  | PStr s => Some (PStr (String.substring 0 10 s))
  | _ => None
  end.

(** [s.upper()], as far as the test for the marker 'ROLL CALL' can see: the
    letters a-z are mapped to A-Z. *)
Definition upper_char (c : ascii) : ascii :=
  let n := nat_of_ascii c in
  if (97 <=? n)%nat && (n <=? 122)%nat then ascii_of_nat (n - 32) else c.

Fixpoint upper (s : string) : string :=
  match s with
  | "" => ""
  | String c s' => String (upper_char c) (upper s')
  end.

(** [p in s] *)
Fixpoint contains (p s : string) : bool :=
  String.prefix p s
  || match s with
     | "" => false
     | String _ s' => contains p s'
     end.

(** The one-byte white space of [str.strip]: tab to carriage return, the
    separators 0x1c to 0x1f, and the space *)
Definition ascii_space (n : N) : bool :=
  ((9 <=? n) && (n <=? 13) || (28 <=? n) && (n <=? 32))%N.

(** The white space of [str.strip] outside ASCII, in UTF-8: U+0085 and
    U+00A0 (two bytes); U+1680, U+2000 to U+200A, U+2028, U+2029, U+202F,
    U+205F and U+3000 (three bytes) *)
Definition space2 (a b : N) : bool :=
  ((a =? 194) && ((b =? 133) || (b =? 160)))%N.

Definition space3 (a b c : N) : bool :=
  ((a =? 225) && (b =? 154) && (c =? 128)
   || (a =? 226) && (b =? 128)
      && ((128 <=? c) && (c <=? 138) || (c =? 168) || (c =? 169) || (c =? 175))
   || (a =? 226) && (b =? 129) && (c =? 159)
   || (a =? 227) && (b =? 128) && (c =? 128))%N.

(** [not s.strip()]: the string consists of white space only *)
Fixpoint blank (s : string) : bool :=
  match s with
  | "" => true
  | String a r =>
      if ascii_space (N_of_ascii a) then blank r
      else
        match r with
        | "" => false
        | String b r2 =>
            if space2 (N_of_ascii a) (N_of_ascii b) then blank r2
            else
              match r2 with
              | "" => false
              | String c r3 =>
                  if space3 (N_of_ascii a) (N_of_ascii b) (N_of_ascii c)
                  then blank r3 else false
              end
        end
  end.

(** The dict [item_data] and its later states, as opposed to the JSON
    object [item] of the API *)
Abbreviation agenda_item := item.

Module Collector.

(** Entries of [/EventItems/{id}/RollCalls] and [/EventItems/{id}/Votes]:
    the person name is a string. [None] is a missing key in a roll call
    (the subscript raises [KeyError]); in a vote it is a missing or null
    name, and a missing value. *)
Record roll_call := RollCall {
  RollCallPersonName : option string;
  RollCallValueName : option pyval;
}.

Record vote := Vote {
  VotePersonName : option string;
  VoteValueName : option pyval;
}.

(** The three endpoints, as one run sees them ([_api_get(url) or []]) *)
Record api := Api {
  fetch_event_items : pyval → list (gmap string pyval);
  fetch_roll_calls : pyval → list roll_call;
  fetch_item_votes : pyval → list vote;
}.

Inductive request :=
  | GetEventItems (event_id : pyval)
  | GetRollCalls (event_item_id : pyval)
  | GetVotes (event_item_id : pyval).

(** The accumulators of the workflow object the collector writes, and the
    requests issued *)
Record state := State {
  all_members : gset string;
  attendance_by_meeting : gmap pyval (gmap string pyval);
  meeting_links : gmap pyval (gmap string pyval);
  requests : list request;
}.

(** The accumulators as [__init__] leaves them *)
Definition init : state := State ∅ ∅ ∅ [].

(** [self.meeting_links[event_id] = {...}] *)
Definition meeting_link_entry (meeting : gmap string pyval) : gmap string pyval :=
  <["agenda_link" := dict_get_or_empty meeting "EventAgendaFile"]>
  (<["minutes_link" := dict_get_or_empty meeting "EventMinutesFile"]>
  (<["video_link" := dict_get_or_empty meeting "EventVideoPath"]>
  (<["insite_url" := dict_get_or_empty meeting "EventInSiteURL"]>
  (<["event_location" := dict_get_or_empty meeting "EventLocation"]>
  (<["event_time" := dict_get_or_empty meeting "EventTime"]> ∅))))).

(** ['ROLL CALL' in (item.get('EventItemTitle') or '').upper()] *)
Definition is_roll_call (item : gmap string pyval) : option bool :=
  title ← as_text (dict_get_or_empty item "EventItemTitle");
  Some (contains "ROLL CALL" (upper title)).

(** The first pass up to [break]: the first item that is a roll call *)
Fixpoint find_roll_call (items : list (gmap string pyval))
    : option (option (gmap string pyval)) :=
  match items with
  | [] => Some None
  | item :: rest =>
      b ← is_roll_call item;
      if b : bool then Some (Some item) else find_roll_call rest
  end%list.

(** The loop over [roll_calls] *)
Fixpoint read_roll_calls (roll_calls : list roll_call) (members : gset string)
    (attendance : gmap string pyval) : option (gset string * gmap string pyval) :=
  match roll_calls with
  | [] => Some (members, attendance)
  | rc :: rest =>
      member_name ← RollCallPersonName rc;
      vote_value ← RollCallValueName rc;
      read_roll_calls rest (members ∪ {[member_name]})
        (<[member_name := vote_value]> attendance)
  end%list.

Definition first_pass (a : api) (st : state) (event_id : pyval)
    (items : list (gmap string pyval)) : option state :=
  found ← find_roll_call items;
  match found with
  | None => Some st
  | Some item =>
      id ← item !! "EventItemId";
      let roll_calls := fetch_roll_calls a id in
      '(members, attendance) ← read_roll_calls roll_calls (all_members st) ∅;
      Some (State members (<[event_id := attendance]> (attendance_by_meeting st))
              (meeting_links st) (requests st ++ [GetRollCalls id]))
  end.

(** [title.startswith('REGULAR MEETING NO.') or not title.strip()] *)
Definition is_header (title : string) : bool :=
  String.prefix "REGULAR MEETING NO." title || blank title.

(** The dict [item_data] *)
Definition item_data (event_id event_date : pyval) (links : gmap string pyval)
    (meeting_attendance : gmap string pyval) (item : gmap string pyval)
    (title : string) : option agenda_item :=
  event_item_id ← item !! "EventItemId";
  Some (Item
    (list_to_map
       [ ("event_id", event_id);
         ("event_date", event_date);
         ("event_time", links !!! "event_time");
         ("event_location", links !!! "event_location");
         ("event_item_id", event_item_id);
         ("agenda_number", default (PStr "") (item !! "EventItemAgendaNumber"));
         ("agenda_sequence", default (PStr "") (item !! "EventItemAgendaSequence"));
         ("matter_file", default (PStr "") (item !! "EventItemMatterFile"));
         ("matter_name", default (PStr "") (item !! "EventItemMatterName"));
         ("matter_type", default (PStr "") (item !! "EventItemMatterType"));
         ("matter_status", default (PStr "") (item !! "EventItemMatterStatus"));
         ("title", PStr title);
         ("action", default (PStr "") (item !! "EventItemActionName"));
         ("action_text", default (PStr "") (item !! "EventItemActionText"));
         ("passed", default PNone (item !! "EventItemPassedFlag"));
         ("consent", default (PStr "") (item !! "EventItemConsent"));
         ("tally", default (PStr "") (item !! "EventItemTally"));
         ("mover", default (PStr "") (item !! "EventItemMover"));
         ("seconder", default (PStr "") (item !! "EventItemSeconder"));
         ("roll_call_flag", default (PInt 0) (item !! "EventItemRollCallFlag"));
         ("matter_id", default PNone (item !! "EventItemMatterId"));
         ("matter_title", PStr "");
         ("matter_type_name", PStr "");
         ("matter_status_name", PStr "");
         ("matter_intro_date", PStr "");
         ("matter_passed_date", PStr "");
         ("matter_enactment_date", PStr "");
         ("matter_enactment_number", PStr "");
         ("matter_requester", PStr "");
         ("matter_body_name", PStr "");
         ("attachment_links", PStr "");
         ("agenda_link", links !!! "agenda_link");
         ("minutes_link", links !!! "minutes_link");
         ("video_link", links !!! "video_link");
         ("Agenda_item_fulltext", PStr "") ])
    meeting_attendance None).

(** The second pass over the items of one meeting *)
Fixpoint second_pass (event_id event_date : pyval) (links : gmap string pyval)
    (meeting_attendance : gmap string pyval) (items : list (gmap string pyval))
    : option (list agenda_item) :=
  match items with
  | [] => Some []
  | item :: rest =>
      title ← as_text (dict_get_or_empty item "EventItemTitle");
      if is_header title then
        second_pass event_id event_date links meeting_attendance rest
      else
        d ← item_data event_id event_date links meeting_attendance item title;
        rest' ← second_pass event_id event_date links meeting_attendance rest;
        Some (d :: rest')
  end%list.

(** The body of the loop over [meetings]: the new state and the items
    appended to [all_items] *)
Definition process_meeting (a : api) (st : state) (meeting : gmap string pyval)
    : option (state * list agenda_item) :=
  event_id ← meeting !! "EventId";
  event_date ← (meeting !! "EventDate") ≫= py_slice10;
  let links := meeting_link_entry meeting in
  let st := State (all_members st) (attendance_by_meeting st)
              (<[event_id := links]> (meeting_links st)) (requests st) in
  let items := fetch_event_items a event_id in
  let st := State (all_members st) (attendance_by_meeting st)
              (meeting_links st) (requests st ++ [GetEventItems event_id]) in
  st ← first_pass a st event_id items;
  let meeting_attendance := default ∅ (attendance_by_meeting st !! event_id) in
  new_items ← second_pass event_id event_date links meeting_attendance items;
  Some (st, new_items).

Fixpoint process_meetings (a : api) (st : state) (meetings : list (gmap string pyval))
    : option (state * list agenda_item) :=
  match meetings with
  | [] => Some (st, [])
  | meeting :: rest =>
      '(st, new_items) ← process_meeting a st meeting;
      '(st, more) ← process_meetings a st rest;
      Some (st, new_items ++ more)
  end%list.

(** The loop over [votes] of one item *)
Definition read_votes (votes : list vote) (members : gset string)
    : gset string * gmap string pyval :=
  foldl (λ '(members, item_votes) v,
    let name := default "" (VotePersonName v) in
    let value := default (PStr "") (VoteValueName v) in
    if negb (String.eqb name "")
    then (members ∪ {[name]}, <[name := value]> item_votes)
    else (members, item_votes)) (members, ∅) votes.

(** [item['item_votes'] = item_votes] *)
Definition set_item_votes (item_votes : gmap string pyval) (it : agenda_item) : agenda_item :=
  Item (fields it) (attendance it) (Some item_votes).

(** The third pass: the items with an outcome are queried for their votes,
    in order; the other items get the empty mapping. *)
Fixpoint third_pass (a : api) (st : state) (all_items : list agenda_item)
    : option (state * list agenda_item) :=
  match all_items with
  | [] => Some (st, [])
  | it :: rest =>
      passed ← item_idx it "passed";
      if is_not_none passed then
        id ← item_idx it "event_item_id";
        let '(members, item_votes) := read_votes (fetch_item_votes a id) (all_members st) in
        let st := State members (attendance_by_meeting st) (meeting_links st)
                    (requests st ++ [GetVotes id]) in
        '(st, rest') ← third_pass a st rest;
        Some (st, set_item_votes item_votes it :: rest')
      else
        '(st, rest') ← third_pass a st rest;
        Some (st, set_item_votes ∅ it :: rest')
  end%list.

Definition collect_event_items (a : api) (st : state) (meetings : list (gmap string pyval))
    : option (state * list agenda_item) :=
  '(st, all_items) ← process_meetings a st meetings;
  third_pass a st all_items.

End Collector.

(** An API item the second pass keeps: its title is a string that is
    neither blank nor a 'REGULAR MEETING NO.' header *)
Definition agenda_source (src : gmap string pyval) : bool :=
  match as_text (dict_get_or_empty src "EventItemTitle") with
  | Some title => negb (Collector.is_header title)
  | None => false
  end.

(** The API items the collector keeps, meeting by meeting *)
Definition agenda_sources (a : Collector.api) (meetings : list (gmap string pyval))
    : list (gmap string pyval) :=
  flat_map (λ meeting : gmap string pyval,
    filter (λ src, agenda_source src)
      (Collector.fetch_event_items a (meeting !!! "EventId"))) meetings.

(** The mapping the third pass builds from the votes of one item *)
Definition votes_dict (votes : list Collector.vote) : gmap string pyval :=
  (Collector.read_votes votes ∅).2.

(** The identifiers of the vote requests in a log, in order *)
Definition vote_requests (log : list Collector.request) : list pyval :=
  omap (λ r, match r with Collector.GetVotes id => Some id | _ => None end) log.

(** Every name in a stored attendance mapping is a registered member *)
Definition attendance_registered (st : Collector.state) : Prop :=
  ∀ event_id att,
    Collector.attendance_by_meeting st !! event_id = Some att →
    dom att ⊆ Collector.all_members st.

(** The scenario of one meeting: a roll call of three members, one absent;
    an item with recorded votes of two of them; an item passed without
    recorded votes; a header line; an item without title. *)
Definition example_api : Collector.api :=
  Collector.Api
    (λ _, [ {["EventItemId" := PInt 1; "EventItemTitle" := PStr "Roll Call"]};
            {["EventItemId" := PInt 2; "EventItemTitle" := PStr "Ord. B";
              "EventItemPassedFlag" := PInt 1]};
            {["EventItemId" := PInt 3; "EventItemTitle" := PStr "Ord. C";
              "EventItemPassedFlag" := PInt 1]};
            {["EventItemId" := PInt 4; "EventItemTitle" := PStr "REGULAR MEETING NO. 5"]};
            {["EventItemId" := PInt 5; "EventItemTitle" := PNone]} ])
    (λ _, [ Collector.RollCall (Some "A") (Some (PStr "Present"));
            Collector.RollCall (Some "B") (Some (PStr "Absent"));
            Collector.RollCall (Some "C") (Some (PStr "Present")) ])
    (λ id, if decide (id = PInt 2)
           then [ Collector.Vote (Some "A") (Some (PStr "Affirmative"));
                  Collector.Vote (Some "C") (Some (PStr "Negative")) ]
           else []).

Definition example_meetings : list (gmap string pyval) :=
  [ {["EventId" := PInt 100; "EventDate" := PStr "2023-01-09T00:00:00"]} ].

(** The attendance mapping the first pass builds from the roll calls of
    one item; [None] when an entry lacks a key *)
Definition roll_call_dict (roll_calls : list Collector.roll_call)
    : option (gmap string pyval) :=
  snd <$> Collector.read_roll_calls roll_calls ∅ ∅.

(** What a fresh workflow collects from the API; an exception leaves
    nothing to hand on *)
Definition collected (a : Collector.api) (meetings : list (gmap string pyval))
    : gset string * list item :=
  match Collector.collect_event_items a Collector.init meetings with
  | Some (st, items) => (Collector.all_members st, items)
  | None => (∅, [])
  end.

Definition example_collecting_environment : environment :=
  {| fetch_persons := ∅;
     fetch_meetings := example_meetings;
     collect_event_items := collected example_api;
     matters := MatterApi (λ _, None) (λ _, []);
     scrape_full_text := λ items, items |}.

(** ** Persons *)

Module Persons.

(** [fetch_persons] on the list the endpoint returns ([_api_get(url) or
    []]): the key is the value of ['PersonFullName'], whatever its type. *)
Definition fetch_persons (persons_raw : list person) : gmap pyval person :=
  foldl (λ persons_by_name p,
    let name := default (PStr "") (p !! "PersonFullName") in
    if truthy name then <[name := p]> persons_by_name else persons_by_name)
    ∅ persons_raw.

End Persons.

(** [p.get('PersonFullName', '')] *)
Definition person_name (p : person) : pyval :=
  default (PStr "") (p !! "PersonFullName").

(** ** Full text scraper *)

(** [s.replace(old, new)] for a non-empty [old]: the occurrences of [old]
    are replaced from left to right, without overlap. [skip] counts the
    characters of a matched occurrence that are still to be passed over. *)
Fixpoint replace_from (old new : string) (skip : nat) (s : string) : string :=
  match s with
  | "" => ""
  | String c s' =>
      match skip with
      | S k => replace_from old new k s'
      | O =>
          if String.prefix old (String c s')
          then new ++ replace_from old new (String.length old - 1) s'
          else String c (replace_from old new 0 s')
      end
  end.

Definition replace (old new s : string) : string := replace_from old new 0 s.

(** The URL [extract_full_text] navigates to *)
Definition full_text_url (legislation_url : string) : string :=
  if negb (contains "FullText=1" legislation_url) then
    let separator := if contains "?" legislation_url then "&" else "?" in
    let legislation_url :=
      if contains "Options=" legislation_url
      then replace "Options=" "Options=ID|Text|" legislation_url
      else legislation_url ++ separator ++ "Options=ID|Text|" in
    legislation_url ++ "&FullText=1"
  else legislation_url.

(** [s.lstrip()] *)
Fixpoint lstrip (s : string) : string :=
  match s with
  | "" => ""
  | String a r =>
      if ascii_space (N_of_ascii a) then lstrip r
      else
        match r with
        | "" => s
        | String b r2 =>
            if space2 (N_of_ascii a) (N_of_ascii b) then lstrip r2
            else
              match r2 with
              | "" => s
              | String c r3 =>
                  if space3 (N_of_ascii a) (N_of_ascii b) (N_of_ascii c)
                  then lstrip r3 else s
              end
        end
  end.

(** [lstrip] on the reversed bytes: the last byte of a character comes
    first *)
Fixpoint lstrip_rev (s : string) : string :=
  match s with
  | "" => ""
  | String c r =>
      if ascii_space (N_of_ascii c) then lstrip_rev r
      else
        match r with
        | "" => s
        | String b r2 =>
            if space2 (N_of_ascii b) (N_of_ascii c) then lstrip_rev r2
            else
              match r2 with
              | "" => s
              | String a r3 =>
                  if space3 (N_of_ascii a) (N_of_ascii b) (N_of_ascii c)
                  then lstrip_rev r3 else s
              end
        end
  end.

(** [s.rstrip()] and [s.strip()] *)
Definition rstrip (s : string) : string := String.rev (lstrip_rev (String.rev s)).

Definition strip (s : string) : string := lstrip (rstrip s).

Module Scraper.

(** The browser page, as the scraper reads it. [legislation_links url] are
    the pairs (trimmed link text, href) of the links to 'LegislationDetail'
    on the meeting page, [None] when the navigation or the query raises.
    [text_div url] is the inner text of the text element of the
    legislation page: [None] when the navigation raises, [Some None] when
    the page has no such element. *)
Record browser := Browser {
  legislation_links : string → option (list (string * string));
  text_div : string → option (option string);
}.

(** [scrape_legislation_urls]; a URL that is not a string makes
    [page.goto] raise, which is caught. *)
Definition scrape_legislation_urls (page : browser) (meeting_insite_url : pyval)
    : gmap string string :=
  match meeting_insite_url with
  | PStr url =>
      match legislation_links page url with
      | Some links =>
          foldl (λ file_to_url '(fileNumber, href),
            if negb (String.eqb fileNumber "")
            then <[fileNumber := href]> file_to_url else file_to_url) ∅ links
      | None => ∅
      end
  | _ => ∅
  end.

(** [extract_full_text]: the text, or [None] for Python's [None]; the
    function catches what the page raises. *)
Definition extract_full_text (page : browser) (legislation_url : string)
    : option string :=
  let legislation_url := full_text_url legislation_url in
  match text_div page legislation_url with
  | Some (Some inner_text) =>
      let text := strip inner_text in
      if negb (String.eqb text "") then Some text else None
  | Some None => None
  | None => None
  end.

(** [i['matter_file']] as the condition of the comprehension
    [items_with_matter] *)
Definition has_matter_file (it : item) : option bool :=
  truthy <$> item_idx it "matter_file".

(** [[i for i in all_items if i['matter_file']]] *)
Fixpoint items_with_matter (all_items : list item) : option (list item) :=
  match all_items with
  | [] => Some []
  | i :: rest =>
      b ← has_matter_file i;
      rest' ← items_with_matter rest;
      Some (if b : bool then i :: rest' else rest')
  end%list.

(** The first loop: the meeting page of every meeting that has an item
    with a matter file is scraped once. The items are those of
    [items_with_matter]. *)
Fixpoint meeting_urls (page : browser) (meeting_links : gmap pyval (gmap string pyval))
    (file_to_url_all : gmap string string) (processed_meetings : gset pyval)
    (with_matter : list item) : option (gmap string string) :=
  match with_matter with
  | [] => Some file_to_url_all
  | it :: rest =>
      event_id ← item_idx it "event_id";
      if decide (event_id ∈ processed_meetings) then
        meeting_urls page meeting_links file_to_url_all processed_meetings rest
      else
        links ← meeting_links !! event_id;
        insite_url ← links !! "insite_url";
        let file_to_url_all :=
          if truthy insite_url
          then scrape_legislation_urls page insite_url ∪ file_to_url_all
          else file_to_url_all in
        meeting_urls page meeting_links file_to_url_all
          (processed_meetings ∪ {[event_id]}) rest
  end%list.

(** [file_to_url_all.get(matter_file)]: the keys are strings *)
Definition url_of (file_to_url_all : gmap string string) (matter_file : pyval)
    : option string :=
  match matter_file with
  | PStr s => file_to_url_all !! s
  | _ => None
  end.

(** The body of the second loop, for an item of [items_with_matter] *)
Definition scrape_item (page : browser) (file_to_url_all : gmap string string)
    (it : item) : option item :=
  matter_file ← item_idx it "matter_file";
  match url_of file_to_url_all matter_file with
  | Some legislation_url =>
      if String.eqb legislation_url "" then Some it
      else
        match extract_full_text page legislation_url with
        | Some full_text =>
            if negb (String.eqb full_text "")
            then Some (item_set "Agenda_item_fulltext" (PStr full_text) it)
            else Some it
        | None => Some it
        end
  | None => Some it
  end.

(** [scrape_full_text]: the items as the method leaves them. The elements
    of [items_with_matter] are the objects of [all_items], so what the
    second loop writes shows in [all_items]. *)
Definition scrape_full_text (page : browser)
    (meeting_links : gmap pyval (gmap string pyval)) (all_items : list item)
    : option (list item) :=
  with_matter ← items_with_matter all_items;
  file_to_url_all ← meeting_urls page meeting_links ∅ ∅ with_matter;
  mapM (λ it,
    if bool_decide (has_matter_file it = Some true)
    then scrape_item page file_to_url_all it else Some it) all_items.

End Scraper.

(** ** The voted-items file of the single-quarter script *)

(** The body of the second row-writing loop of [extract_q1_2023.main] *)
Definition q1_voted_row (it : item) (fieldnames members_list : list string)
    : option (gmap string pyval) :=
  let row := base_row it fieldnames members_list in
  passed ← item_idx it "passed";
  if py_eq_one passed then
    Some (foldl (λ row member,
      let attendance_status := attendance_get it member in
      if bool_decide (attendance_status = PStr "Present") then
        <[member := PStr "Yes"]> row
      else if is_absent attendance_status then
        <[member := PStr "Absent"]> row
      else
        <[member := PStr "Yes"]> row) row members_list)
  else
    Some (foldl (λ row member, <[member := PStr ""]> row) row members_list).

(** The data rows of the two item files of the single-quarter script *)
Definition q1_rows (all_items : list item) (fieldnames members_list : list string)
    : option (list (gmap string pyval)) :=
  mapM (λ it, q1_row it fieldnames members_list) all_items.

Definition q1_voted_rows (all_items : list item) (fieldnames members_list : list string)
    : option (list (gmap string pyval)) :=
  voted_items ← voted_only all_items;
  mapM (λ it, q1_voted_row it fieldnames members_list) voted_items.

(** A meeting whose entry in [meeting_links] can be read by the scraper *)
Definition has_insite_url (meeting_links : gmap pyval (gmap string pyval))
    (event_id : pyval) : Prop :=
  ∃ links, meeting_links !! event_id = Some links ∧ is_Some (links !! "insite_url").

(** What [scrape_full_text] subscripts: every item has a ['matter_file']
    entry, and an item whose matter file is truthy has an ['event_id']
    whose meeting is in [meeting_links] *)
Definition scrapable (meeting_links : gmap pyval (gmap string pyval)) (it : item)
    : Prop :=
  ∃ matter_file,
    item_idx it "matter_file" = Some matter_file
    ∧ (truthy matter_file = true →
       ∃ event_id, item_idx it "event_id" = Some event_id
         ∧ has_insite_url meeting_links event_id).

(** A meeting page with one link, and the legislation page behind it *)
Definition example_browser : Scraper.browser :=
  Scraper.Browser
    (λ url, if String.eqb url "https://m/100"
            then Some [ ("0001-2023", "https://l/Detail.aspx?ID=1") ]%list
            else None)
    (λ url, if String.eqb url "https://l/Detail.aspx?ID=1&Options=ID|Text|&FullText=1"
            then Some (Some "  WHEREAS, the council ")
            else Some None).

Definition example_meeting_links : gmap pyval (gmap string pyval) :=
  {[ PInt 100 := {[ "insite_url" := PStr "https://m/100" ]} ]}.

(** Three items of that meeting: one with the linked matter file, one
    with a file the page does not link, one without matter file *)
Definition example_scrape_items : list item :=
  [ Item {["event_id" := PInt 100; "matter_file" := PStr "0001-2023";
           "passed" := PInt 1; "Agenda_item_fulltext" := PStr ""]} ∅ (Some ∅);
    Item {["event_id" := PInt 100; "matter_file" := PStr "0002-2023";
           "passed" := PInt 1; "Agenda_item_fulltext" := PStr "old"]} ∅ (Some ∅);
    Item {["matter_file" := PStr ""; "passed" := PNone;
           "Agenda_item_fulltext" := PStr ""]} ∅ (Some ∅) ]%list.

(** Every stored meeting entry has an ['insite_url'] *)
Definition links_readable (st : Collector.state) : Prop :=
  ∀ event_id links,
    Collector.meeting_links st !! event_id = Some links →
    is_Some (links !! "insite_url").

(** ** Carriage returns and long fields *)

(** [c in s] for a character *)
Fixpoint has_char (c : ascii) (s : string) : bool :=
  match s with
  | "" => false
  | String a r => Ascii.eqb a c || has_char c r
  end.

Definition has_carriage_return (s : string) : bool := has_char CR s.

(** A text of [n] characters 'x' *)
Definition long_text (n : N) : string := N.iter n (String "x") "".

(** The full texts of the items a run hands to [write_output] *)
Definition run_texts (env : environment) (self : workflow) (fs : file_system)
    : option (option (list (option pyval))) :=
  match run_items env self fs with
  | Some (Some (_, items)) =>
      Some (Some ((λ it, item_idx it "Agenda_item_fulltext") <$> items))
  | Some None => Some None
  | None => None
  end.

(** A previous file whose text for item 7 has a line break written as
    '\r\n', and one in which the row before that of item 7 has a text of
    131073 characters *)
Definition example_crlf_text : string :=
  "WHEREAS," ++ String CR (String LF "the council").

Definition example_crlf_csv : csv_file :=
  [ ["event_item_id"; "Agenda_item_fulltext"]; ["7"; example_crlf_text] ]%list.

Definition example_long_csv : csv_file :=
  [ ["event_item_id"; "Agenda_item_fulltext"];
    ["6"; long_text 131073];
    ["7"; "WHEREAS, the council"] ]%list.

Definition example_file_system_with (f : csv_file) : file_system :=
  {[ path_votes (self_output_paths example_workflow) := f ]}.

(** An item whose scraped text has a line break written as '\r\n' *)
Definition example_item_with_crlf : item :=
  Item {["event_item_id" := PInt 7; "passed" := PInt 1;
         "Agenda_item_fulltext" := PStr example_crlf_text]}
       {["A" := PStr "Present"]} (Some ∅).

(** * Properties *)

(** ** Vote assignment *)

Section assign_each.
Implicit Types (f : string → pyval) (ms : list string) (vs : gmap string pyval).

Lemma assign_each_snoc f ms m vs :
  assign_each f (ms ++ [m]) vs = <[m := f m]> (assign_each f ms vs).
Proof. unfold assign_each. by rewrite foldl_app. Qed.

Lemma assign_each_lookup f ms vs m :
  assign_each f ms vs !! m = if bool_decide (m ∈ ms) then Some (f m) else vs !! m.
Proof.
  induction ms as [|m' ms IH] using rev_ind.
  - by rewrite bool_decide_eq_false_2; [|apply not_elem_of_nil].
  - rewrite assign_each_snoc. destruct (decide (m' = m)) as [->|Hne].
    + rewrite lookup_insert_eq, bool_decide_eq_true_2; [done|].
      apply elem_of_app. right. apply list_elem_of_singleton. done.
    + rewrite lookup_insert_ne, IH by done.
      assert (m ∈ (ms ++ [m'])%list ↔ m ∈ ms) as Hiff.
      { rewrite elem_of_app, list_elem_of_singleton. naive_solver. }
      by rewrite (bool_decide_ext _ _ Hiff).
Qed.

Lemma assign_each_lookup_elem f ms vs m :
  m ∈ ms → assign_each f ms vs !! m = Some (f m).
Proof. intros. by rewrite assign_each_lookup, bool_decide_eq_true_2. Qed.

Lemma assign_each_dom f ms vs :
  dom (assign_each f ms vs) = list_to_set ms ∪ dom vs.
Proof.
  apply set_eq. intros m. rewrite elem_of_union, elem_of_list_to_set, !elem_of_dom.
  rewrite assign_each_lookup. case_bool_decide; [|naive_solver].
  split; [by left|by eexists].
Qed.

Lemma assign_each_ext f g ms vs :
  (∀ m, m ∈ ms → f m = g m) → assign_each f ms vs = assign_each g ms vs.
Proof.
  intros Hfg. apply map_eq. intros m. rewrite !assign_each_lookup.
  case_bool_decide; [|done]. by rewrite Hfg.
Qed.
End assign_each.

Lemma assign_votes_each it ms :
  _assign_votes it ms = assign_each (vote_of it) ms ∅.
Proof.
  unfold _assign_votes, vote_of.
  case_bool_decide; [done|]. by destruct (py_eq_one _).
Qed.

Lemma assign_votes_lookup it ms m :
  m ∈ ms → _assign_votes it ms !! m = Some (vote_of it m).
Proof. intros. rewrite assign_votes_each. by apply assign_each_lookup_elem. Qed.

Lemma assign_votes_lookup_None it ms m :
  m ∉ ms → _assign_votes it ms !! m = None.
Proof.
  intros. rewrite assign_votes_each, assign_each_lookup.
  by rewrite bool_decide_eq_false_2.
Qed.

Lemma assign_votes_recorded it members_list iv member v :
  item_votes it = Some iv →
  member ∈ members_list →
  iv !! member = Some v →
  _assign_votes it members_list !! member = Some (VOTE_MAP_get v).
Proof.
  intros Hiv Hin Hv. rewrite assign_votes_lookup by done.
  unfold vote_of. rewrite Hiv. cbn.
  rewrite bool_decide_eq_true_2, Hv; [done|].
  intros ->. by rewrite lookup_empty in Hv.
Qed.

(** C2: with no per-item votes, an item whose [passed] flag is 1 gives
    every listed member "Yes", except those the attendance mapping marks
    "Absent" or "Absent@vote", who get "Absent"; with any other flag (0,
    [None], missing) every listed member gets the empty value. *)
Theorem assign_votes_consent_or_blank it members_list :
  default ∅ (item_votes it) = ∅ →
  (item_get it "passed" = PInt 1 →
     ∀ member, member ∈ members_list →
       ((attendance it !! member = Some (PStr "Absent")
         ∨ attendance it !! member = Some (PStr "Absent@vote")) →
        _assign_votes it members_list !! member = Some (PStr "Absent"))
       ∧ (¬ (attendance it !! member = Some (PStr "Absent")
             ∨ attendance it !! member = Some (PStr "Absent@vote")) →
          _assign_votes it members_list !! member = Some (PStr "Yes")))
  ∧ (item_get it "passed" ≠ PInt 1 →
       ∀ member, member ∈ members_list →
         _assign_votes it members_list !! member = Some (PStr "")).
Proof.
  intros Hiv. split.
  - intros Hp member Hin. rewrite (assign_votes_lookup _ _ _ Hin).
    unfold vote_of. cbn. rewrite Hiv, bool_decide_eq_false_2 by naive_solver.
    rewrite Hp. cbn. unfold attendance_get, is_absent. split.
    + intros [-> | ->]; reflexivity.
    + intros Hna. destruct (attendance it !! member) as [a|] eqn:Ha; cbn.
      * rewrite !bool_decide_eq_false_2; [done| |]; intros ->; naive_solver.
      * reflexivity.
  - intros Hp member Hin. rewrite (assign_votes_lookup _ _ _ Hin).
    unfold vote_of. cbn. rewrite Hiv, bool_decide_eq_false_2 by naive_solver.
    destruct (item_get it "passed") as [|z|s]; try done.
    destruct z as [|p|p]; try done. destruct p; try done.
Qed.

Lemma assign_votes_consent_or_blank_witness :
  (_assign_votes
     (Item {["passed" := PInt 1]}
           {["A" := PStr "Absent@vote"; "B" := PStr "Present"]} None)
     ["A"; "B"; "C"]%list !! "A" = Some (PStr "Absent")
   ∧ _assign_votes
       (Item {["passed" := PInt 1]}
             {["A" := PStr "Absent@vote"; "B" := PStr "Present"]} None)
       ["A"; "B"; "C"]%list !! "C" = Some (PStr "Yes"))
  ∧ _assign_votes
      (Item {["passed" := PInt 0]} {["A" := PStr "Absent"]} (Some ∅))
      ["A"; "B"]%list !! "A" = Some (PStr "").
Proof.
  split; [split|].
  - apply (assign_votes_consent_or_blank
             (Item {["passed" := PInt 1]}
                   {["A" := PStr "Absent@vote"; "B" := PStr "Present"]} None)
             ["A"; "B"; "C"]%list); [reflexivity|reflexivity| |].
    + apply (bool_decide_unpack _). vm_compute. exact I.
    + right. vm_compute. reflexivity.
  - apply (assign_votes_consent_or_blank
             (Item {["passed" := PInt 1]}
                   {["A" := PStr "Absent@vote"; "B" := PStr "Present"]} None)
             ["A"; "B"; "C"]%list); [reflexivity|reflexivity| |].
    + apply (bool_decide_unpack _). vm_compute. exact I.
    + vm_compute. intros [H|H]; discriminate H.
  - apply (assign_votes_consent_or_blank
             (Item {["passed" := PInt 0]} {["A" := PStr "Absent"]} (Some ∅))
             ["A"; "B"]%list); [reflexivity| |].
    + vm_compute. discriminate.
    + apply (bool_decide_unpack _). vm_compute. exact I.
Defined.

(** C3: the keys of the mapping [_assign_votes] returns are exactly the
    members of the given list, whatever the per-item votes and the
    attendance mapping contain. *)
Theorem assign_votes_keys it members_list :
  dom (_assign_votes it members_list) = list_to_set members_list.
Proof.
  rewrite assign_votes_each, assign_each_dom, dom_empty_L. set_solver.
Qed.

Lemma VOTE_MAP_lookup_other s :
  s ∉ ["Affirmative"; "Negative"; "Abstained"; "Absent@vote"; "Absent"; "Present"]%list →
  VOTE_MAP !! s = None.
Proof.
  intros Hs. unfold VOTE_MAP.
  rewrite !lookup_insert_ne; [apply lookup_empty|..];
    intros <-; apply Hs; set_solver.
Qed.

(** The vocabulary, value by value *)
Lemma VOTE_MAP_get_table v :
  (v = PStr "Affirmative" → VOTE_MAP_get v = PStr "Yes")
  ∧ (v = PStr "Negative" → VOTE_MAP_get v = PStr "No")
  ∧ (v = PStr "Abstained" → VOTE_MAP_get v = PStr "Abstain")
  ∧ (v = PStr "Absent" → VOTE_MAP_get v = PStr "Absent")
  ∧ (v = PStr "Absent@vote" → VOTE_MAP_get v = PStr "Absent")
  ∧ (v = PStr "Present" → VOTE_MAP_get v = PStr "Present")
  ∧ (v ∉ [PStr "Affirmative"; PStr "Negative"; PStr "Abstained";
          PStr "Absent"; PStr "Absent@vote"; PStr "Present"]%list →
     VOTE_MAP_get v = v).
Proof.
  repeat split; try (intros ->; vm_compute; reflexivity).
  intros Hno. destruct v as [|z|s]; try done. cbn.
  rewrite VOTE_MAP_lookup_other; [done|].
  intros Hs. apply Hno. set_unfold. naive_solver.
Qed.

(** C1: with a non-empty per-item vote mapping, a listed member who is a key
    of that mapping gets the vocabulary translation of the recorded value:
    "Yes" for "Affirmative", "No" for "Negative", "Abstain" for "Abstained",
    "Absent" for "Absent" and "Absent@vote", "Present" for "Present", and
    any other value as it is. The attendance mapping of the meeting has no
    part in it: the result is the same whatever attendance the item
    carries. *)
Theorem assign_votes_recorded_vote_wins it members_list iv member v :
  item_votes it = Some iv →
  iv ≠ ∅ →
  member ∈ members_list →
  iv !! member = Some v →
  ∃ r,
    _assign_votes it members_list !! member = Some r
    ∧ (∀ att, _assign_votes (with_attendance att it) members_list !! member = Some r)
    ∧ (v = PStr "Affirmative" → r = PStr "Yes")
    ∧ (v = PStr "Negative" → r = PStr "No")
    ∧ (v = PStr "Abstained" → r = PStr "Abstain")
    ∧ (v = PStr "Absent" → r = PStr "Absent")
    ∧ (v = PStr "Absent@vote" → r = PStr "Absent")
    ∧ (v = PStr "Present" → r = PStr "Present")
    ∧ (v ∉ [PStr "Affirmative"; PStr "Negative"; PStr "Abstained";
            PStr "Absent"; PStr "Absent@vote"; PStr "Present"]%list → r = v).
Proof.
  intros Hiv Hne Hin Hv. exists (VOTE_MAP_get v).
  split; [by apply (assign_votes_recorded it members_list iv)|].
  split; [intros att; by apply (assign_votes_recorded _ members_list iv)|].
  apply VOTE_MAP_get_table.
Qed.

(** The recorded "Affirmative" of a member the roll call marks absent is
    written as "Yes", and so it is under every other attendance. *)
Lemma assign_votes_recorded_vote_wins_witness :
  _assign_votes
    (Item {["passed" := PInt 1]} {["A" := PStr "Absent"]}
          (Some {["A" := PStr "Affirmative"]}))
    ["A"; "B"]%list !! "A" = Some (PStr "Yes")
  ∧ ∀ att,
      _assign_votes
        (with_attendance att
           (Item {["passed" := PInt 1]} {["A" := PStr "Absent"]}
                 (Some {["A" := PStr "Affirmative"]})))
        ["A"; "B"]%list !! "A" = Some (PStr "Yes").
Proof.
  destruct (assign_votes_recorded_vote_wins
              (Item {["passed" := PInt 1]} {["A" := PStr "Absent"]}
                    (Some {["A" := PStr "Affirmative"]}))
              ["A"; "B"]%list {["A" := PStr "Affirmative"]} "A" (PStr "Affirmative"))
    as (r & Hr & Hatt & Hyes & _).
  - reflexivity.
  - apply (bool_decide_unpack _). vm_compute. exact I.
  - apply (bool_decide_unpack _). vm_compute. exact I.
  - vm_compute. reflexivity.
  - rewrite <- (Hyes eq_refl). split; [exact Hr|exact Hatt].
Defined.

(** C5: the value written for a recorded per-item vote is "Yes" for
    "Affirmative", "No" for "Negative", "Abstain" for "Abstained", "Absent"
    for "Absent" and for "Absent@vote", "Present" for "Present", and the
    recorded value itself for anything else. *)
Theorem assign_votes_translation it members_list iv member v :
  item_votes it = Some iv →
  iv !! member = Some v →
  member ∈ members_list →
  ∃ r, _assign_votes it members_list !! member = Some r
    ∧ (v = PStr "Affirmative" → r = PStr "Yes")
    ∧ (v = PStr "Negative" → r = PStr "No")
    ∧ (v = PStr "Abstained" → r = PStr "Abstain")
    ∧ (v = PStr "Absent" → r = PStr "Absent")
    ∧ (v = PStr "Absent@vote" → r = PStr "Absent")
    ∧ (v = PStr "Present" → r = PStr "Present")
    ∧ (v ∉ [PStr "Affirmative"; PStr "Negative"; PStr "Abstained";
            PStr "Absent"; PStr "Absent@vote"; PStr "Present"]%list → r = v).
Proof.
  intros Hiv Hv Hin. exists (VOTE_MAP_get v). split.
  - by apply (assign_votes_recorded it members_list iv).
  - repeat split; try (intros ->; vm_compute; reflexivity).
    intros Hno. destruct v as [|z|s]; try done. cbn.
    rewrite VOTE_MAP_lookup_other; [done|].
    intros Hs. apply Hno. set_unfold. naive_solver.
Qed.

(** An unrecognised status is written as it is. *)
Lemma assign_votes_translation_witness :
  ∃ r, _assign_votes
         (Item {["passed" := PInt 1]} ∅ (Some {["A" := PStr "Recused"]}))
         ["A"]%list !! "A" = Some r
    ∧ (PStr "Recused" = PStr "Affirmative" → r = PStr "Yes")
    ∧ (PStr "Recused" = PStr "Negative" → r = PStr "No")
    ∧ (PStr "Recused" = PStr "Abstained" → r = PStr "Abstain")
    ∧ (PStr "Recused" = PStr "Absent" → r = PStr "Absent")
    ∧ (PStr "Recused" = PStr "Absent@vote" → r = PStr "Absent")
    ∧ (PStr "Recused" = PStr "Present" → r = PStr "Present")
    ∧ (PStr "Recused" ∉ [PStr "Affirmative"; PStr "Negative"; PStr "Abstained";
            PStr "Absent"; PStr "Absent@vote"; PStr "Present"]%list
       → r = PStr "Recused").
Proof.
  apply (assign_votes_translation _ _ {["A" := PStr "Recused"]}).
  - reflexivity.
  - vm_compute. reflexivity.
  - apply (bool_decide_unpack _). vm_compute. exact I.
Defined.

(** One meeting, three members, one of them absent: an item with recorded
    votes for two members, and an item passed without recorded votes. *)
Example assign_votes_meeting :
  let att : gmap string pyval :=
    {["A" := PStr "Present"; "B" := PStr "Absent"; "C" := PStr "Present"]} in
  _assign_votes
    (Item {["passed" := PInt 1]} att
          (Some {["A" := PStr "Affirmative"; "C" := PStr "Negative"]}))
    ["A"; "B"; "C"]%list
  = {["A" := PStr "Yes"; "B" := PStr "Absent"; "C" := PStr "No"]}
  ∧ _assign_votes (Item {["passed" := PInt 1]} att (Some ∅)) ["A"; "B"; "C"]%list
    = {["A" := PStr "Yes"; "B" := PStr "Absent"; "C" := PStr "Yes"]}
  ∧ _assign_votes (Item {["passed" := PNone]} att (Some ∅)) ["A"; "B"; "C"]%list
    = {["A" := PStr ""; "B" := PStr ""; "C" := PStr ""]}.
Proof. repeat split; vm_compute; reflexivity. Qed.

(** ** Date-Range Resolver *)

Example get_quarter_dates_2023_1 :
  get_quarter_dates 2023 1 = Some ("2023-01-01", "2023-04-01").
Proof. vm_compute. reflexivity. Qed.

Example get_quarter_dates_2024_4 :
  get_quarter_dates 2024 4 = Some ("2024-10-01", "2025-01-01").
Proof. vm_compute. reflexivity. Qed.

Example get_quarter_dates_bad_quarter : get_quarter_dates 2024 5 = None.
Proof. vm_compute. reflexivity. Qed.

Example str_of_Z_examples :
  str_of_Z 0 = "0" ∧ str_of_Z (-12) = "-12" ∧ str_of_Z 2023 = "2023".
Proof. repeat split; vm_compute; reflexivity. Qed.

Lemma str_of_Z_inj z1 z2 : str_of_Z z1 = str_of_Z z2 → z1 = z2.
Proof.
  unfold str_of_Z. intros H.
  assert (NilZero.int_of_string (NilZero.string_of_int (Z.to_int z1))
          = NilZero.int_of_string (NilZero.string_of_int (Z.to_int z2))) as H'
    by (by rewrite H).
  assert (∀ z, NilZero.int_of_string (NilZero.string_of_int (Z.to_int z))
               = Some (Z.to_int z)) as Hisi.
  { intros z. apply NilZero.isi.
    - destruct z; cbn; [discriminate| |discriminate].
      intros [=Hp]. by destruct (DecimalPos.Unsigned.to_uint_nonnil p).
    - destruct z; cbn; [discriminate|discriminate|].
      intros [=Hp]. by destruct (DecimalPos.Unsigned.to_uint_nonnil p). }
  rewrite !Hisi in H'. injection H' as H'. by apply DecimalZ.to_int_inj.
Qed.

Lemma string_app_cons a (s t : string) : String a s ++ t = String a (s ++ t).
Proof. reflexivity. Qed.

Lemma string_app_empty (t : string) : "" ++ t = t.
Proof. reflexivity. Qed.

Lemma string_length_app (s t : string) :
  String.length (s ++ t) = (String.length s + String.length t)%nat.
Proof.
  induction s as [|a s IH]; [done|].
  rewrite string_app_cons. cbn [String.length]. by rewrite IH.
Qed.

Lemma string_app_inj_suffix (s1 s2 t1 t2 : string) :
  String.length t1 = String.length t2 →
  s1 ++ t1 = s2 ++ t2 → s1 = s2 ∧ t1 = t2.
Proof.
  intros Hlen. revert s2.
  induction s1 as [|a s1 IH]; intros [|b s2] Heq;
    rewrite ?string_app_cons, ?string_app_empty in Heq.
  - done.
  - subst t1. cbn [String.length] in Hlen. rewrite string_length_app in Hlen. lia.
  - subst t2. cbn [String.length] in Hlen. rewrite string_length_app in Hlen. lia.
  - injection Heq as -> Heq. destruct (IH _ Heq) as [-> ->]. done.
Qed.

Lemma below_100 (P : Z → Prop) :
  Forall P (Z.of_nat <$> seq 0 100) → ∀ n, 0 ≤ n < 100 → P n.
Proof.
  intros HP n Hn. rewrite Forall_forall in HP. apply HP.
  apply list_elem_of_fmap. exists (Z.to_nat n). split; [lia|].
  apply elem_of_seq. lia.
Qed.

Lemma two_digits_length n : 0 ≤ n < 100 → String.length (two_digits n) = 2%nat.
Proof.
  revert n. apply below_100. apply (bool_decide_unpack _). vm_compute. exact I.
Qed.

Lemma two_digits_inj n m :
  0 ≤ n < 100 → 0 ≤ m < 100 → two_digits n = two_digits m → n = m.
Proof.
  intros Hn Hm.
  assert (Forall (λ n, Forall (λ m, two_digits n = two_digits m → n = m)
                   (Z.of_nat <$> seq 0 100)) (Z.of_nat <$> seq 0 100)) as Hall.
  { apply (bool_decide_unpack _). vm_compute. exact I. }
  apply (below_100 _ (below_100 _ Hall n Hn) m Hm).
Qed.

(** A date whose month and day have two digits is determined by its
    literal. *)
Lemma date_literal_inj d1 d2 :
  0 ≤ d_month d1 < 100 → 0 ≤ d_day d1 < 100 →
  0 ≤ d_month d2 < 100 → 0 ≤ d_day d2 < 100 →
  date_literal d1 = date_literal d2 → d1 = d2.
Proof.
  destruct d1 as [y1 m1 a1], d2 as [y2 m2 a2]. unfold date_literal. cbn.
  intros Hm1 Ha1 Hm2 Ha2 Heq.
  apply string_app_inj_suffix in Heq as [Hy Heq].
  2:{ rewrite !string_length_app, !two_digits_length by done. done. }
  apply str_of_Z_inj in Hy as ->.
  apply (inj (String.append "-")) in Heq.
  apply string_app_inj_suffix in Heq as [Hm Heq].
  2:{ rewrite !string_length_app, !two_digits_length by done. done. }
  apply two_digits_inj in Hm as ->; [|done..].
  apply (inj (String.append "-")) in Heq.
  apply two_digits_inj in Heq as ->; done.
Qed.

Lemma get_quarter_dates_literals y q :
  1 ≤ q ≤ 4 →
  get_quarter_dates y q
  = Some (date_literal (Date y (quarter_month q) 1),
          date_literal (if q =? 4 then Date (y + 1) 1 1
                        else Date y (quarter_month (q + 1)) 1)).
Proof.
  intros Hq.
  assert (q = 1 ∨ q = 2 ∨ q = 3 ∨ q = 4) as [-> | [-> | [-> | ->]]] by lia;
    reflexivity.
Qed.

(** C4: for a quarter in 1..4, [get_quarter_dates] returns the literals of
    two dates: the start is the 1st of January, April, July or October of
    the year, the end is strictly later and is the 1st of the month three
    months on (1 January of the next year for quarter 4); the end of a
    quarter is the start of the quarter after it, and the end of quarter 4
    is the start of quarter 1 of the next year. *)
Theorem get_quarter_dates_interval y q :
  1 ≤ q ≤ 4 →
  ∃ start_date end_date,
    get_quarter_dates y q = Some (date_literal start_date, date_literal end_date)
    ∧ start_date = Date y (quarter_month q) 1
    ∧ d_month start_date ∈ [1; 4; 7; 10]%list
    ∧ end_date = (if q =? 4 then Date (y + 1) 1 1 else Date y (quarter_month q + 3) 1)
    ∧ date_lt start_date end_date
    ∧ (q < 4 → fst <$> get_quarter_dates y (q + 1) = Some (date_literal end_date))
    ∧ (q = 4 → fst <$> get_quarter_dates (y + 1) 1 = Some (date_literal end_date)).
Proof.
  intros Hq.
  exists (Date y (quarter_month q) 1),
         (if q =? 4 then Date (y + 1) 1 1 else Date y (quarter_month q + 3) 1).
  split; [|split; [done|split; [|split; [done|split; [|split]]]]].
  - rewrite get_quarter_dates_literals by done.
    replace (quarter_month (q + 1)) with (quarter_month q + 3)
      by (unfold quarter_month; lia). done.
  - unfold quarter_month. cbn.
    assert (q = 1 ∨ q = 2 ∨ q = 3 ∨ q = 4) as [-> | [-> | [-> | ->]]] by lia;
      set_solver.
  - unfold date_lt, quarter_month.
    destruct (Z.eqb_spec q 4) as [->|Hne]; cbn; lia.
  - intros Hlt. rewrite get_quarter_dates_literals by lia. cbn.
    rewrite (proj2 (Z.eqb_neq q 4)) by lia.
    unfold quarter_month. do 3 f_equal. lia.
  - intros ->. rewrite get_quarter_dates_literals by lia. done.
Qed.

Lemma get_quarter_dates_interval_witness :
  ∃ start_date end_date,
    get_quarter_dates 2024 4 = Some (date_literal start_date, date_literal end_date)
    ∧ start_date = Date 2024 (quarter_month 4) 1
    ∧ d_month start_date ∈ [1; 4; 7; 10]%list
    ∧ end_date = (if 4 =? 4 then Date (2024 + 1) 1 1
                  else Date 2024 (quarter_month 4 + 3) 1)
    ∧ date_lt start_date end_date
    ∧ (4 < 4 → fst <$> get_quarter_dates 2024 (4 + 1) = Some (date_literal end_date))
    ∧ (4 = 4 → fst <$> get_quarter_dates (2024 + 1) 1 = Some (date_literal end_date)).
Proof. apply (get_quarter_dates_interval 2024 4). lia. Defined.

(** The literals themselves, compared as strings, do not follow the dates
    when the year gains a digit. *)
Example get_quarter_dates_9999_4 :
  get_quarter_dates 9999 4 = Some ("9999-10-01", "10000-01-01")
  ∧ String.ltb "9999-10-01" "10000-01-01" = false.
Proof. repeat split; vm_compute; reflexivity. Qed.

(** ** The two entry points *)

Lemma assign_each_union f ms (row : gmap string pyval) :
  assign_each f ms row = dict_update row (assign_each f ms ∅).
Proof.
  apply map_eq. intros k. unfold dict_update.
  rewrite lookup_union, !assign_each_lookup. case_bool_decide.
  - by destruct (row !! k).
  - rewrite lookup_empty. by destruct (row !! k).
Qed.

Lemma q1_loop_passed it ms (row : gmap string pyval) :
  foldl (λ row member,
      let attendance_status := attendance_get it member in
      if bool_decide (attendance_status = PStr "Present") then
        <[member := PStr "Yes"]> row
      else if is_absent attendance_status then
        <[member := PStr "Absent"]> row
      else
        <[member := PStr "Yes"]> row) row ms
  = assign_each (λ member,
      if is_absent (attendance_get it member) then PStr "Absent" else PStr "Yes")
      ms row.
Proof.
  unfold assign_each. revert row.
  induction ms as [|m ms IH]; intros row; [done|]. cbn. rewrite <- IH. f_equal.
  case_bool_decide as Hp; [|by destruct (is_absent _)].
  rewrite Hp. done.
Qed.

(** C6: on an item without per-item votes, the row the single-quarter
    script builds is the row of the parameterized workflow, and the value
    it writes for each listed member is the one [_assign_votes] computes,
    whatever the attendance mapping holds. *)
Theorem q1_row_matches_assign_votes it fieldnames members_list :
  default ∅ (item_votes it) = ∅ →
  is_Some (item_idx it "passed") →
  q1_row it fieldnames members_list = Some (item_row it fieldnames members_list)
  ∧ ∀ member, member ∈ members_list →
      item_row it fieldnames members_list !! member
      = _assign_votes it members_list !! member.
Proof.
  intros Hiv [p Hp]. split.
  - unfold q1_row, item_row. rewrite Hp. cbn.
    assert (item_get it "passed" = p) as Hget.
    { unfold item_get. unfold item_idx in Hp. by rewrite Hp. }
    rewrite (assign_votes_each it), (assign_each_ext (vote_of it)
      (λ member, if py_eq_one p
                 then (if is_absent (attendance_get it member)
                       then PStr "Absent" else PStr "Yes")
                 else PStr "")).
    2:{ intros m _. unfold vote_of. rewrite Hiv, Hget.
        by rewrite bool_decide_eq_false_2 by naive_solver. }
    destruct (py_eq_one p).
    + by rewrite q1_loop_passed, assign_each_union.
    + fold (assign_each (λ _, PStr "") members_list
              (base_row it fieldnames members_list)).
      rewrite assign_each_union. by destruct (py_eq_zero p).
  - intros member Hin. unfold item_row, dict_update.
    rewrite lookup_union, (assign_votes_lookup _ _ _ Hin).
    by destruct (base_row _ _ _ !! member).
Qed.

(** A member the roll call does not list, and one with an unknown status *)
Lemma q1_row_matches_assign_votes_witness :
  q1_row (Item {["passed" := PInt 1; "title" := PStr "Ord. 1"]}
               {["A" := PStr "Excused"; "B" := PStr "Absent"]} None)
         (item_fieldnames ++ ["A"; "B"; "C"]) ["A"; "B"; "C"]%list
  = Some (item_row (Item {["passed" := PInt 1; "title" := PStr "Ord. 1"]}
                         {["A" := PStr "Excused"; "B" := PStr "Absent"]} None)
                   (item_fieldnames ++ ["A"; "B"; "C"]) ["A"; "B"; "C"]%list)
  ∧ ∀ member, member ∈ ["A"; "B"; "C"]%list →
      item_row (Item {["passed" := PInt 1; "title" := PStr "Ord. 1"]}
                     {["A" := PStr "Excused"; "B" := PStr "Absent"]} None)
               (item_fieldnames ++ ["A"; "B"; "C"]) ["A"; "B"; "C"]%list !! member
      = _assign_votes (Item {["passed" := PInt 1; "title" := PStr "Ord. 1"]}
                            {["A" := PStr "Excused"; "B" := PStr "Absent"]} None)
                      ["A"; "B"; "C"]%list !! member.
Proof.
  apply q1_row_matches_assign_votes.
  - reflexivity.
  - exists (PInt 1). vm_compute. reflexivity.
Defined.

Example q1_row_example :
  q1_row (Item {["passed" := PInt 1]}
               {["A" := PStr "Excused"; "B" := PStr "Absent"]} None)
         ["passed"; "A"; "B"; "C"]%list ["A"; "B"; "C"]%list
  = Some {["passed" := PInt 1; "A" := PStr "Yes"; "B" := PStr "Absent";
           "C" := PStr "Yes"]}.
Proof. vm_compute. reflexivity. Qed.

(** ** CSV Writer *)

Lemma voted_only_filter all_items :
  Forall (λ i, is_Some (item_idx i "passed")) all_items →
  voted_only all_items = Some (filter has_outcome all_items).
Proof.
  induction 1 as [|i rest [p Hp] _ IH]; [done|].
  cbn [voted_only]. rewrite Hp, IH. cbn [mbind option_bind].
  rewrite filter_cons.
  assert (has_outcome i ↔ p ≠ PNone) as Hiff.
  { unfold has_outcome, item_get. unfold item_idx in Hp. by rewrite Hp. }
  destruct (decide (has_outcome i)) as [Hy|Hn]; destruct p; cbn; naive_solver.
Qed.

Lemma output_paths_distinct dir y q :
  let paths := get_output_paths dir y q in
  path_votes paths ≠ path_voted_items paths
  ∧ path_votes paths ≠ path_persons paths
  ∧ path_voted_items paths ≠ path_persons paths.
Proof.
  cbn. repeat split; intros Heq;
    do 3 apply (inj (String.append _)) in Heq; discriminate Heq.
Qed.

Lemma data_rows_items_csv fieldnames ms items :
  length (data_rows (items_csv fieldnames ms items)) = length items.
Proof. unfold items_csv, data_rows. cbn. by rewrite length_fmap. Qed.

(** C9: in votes-only mode the primary file holds one row per collected
    item whose [passed] flag is not [None], and the voted-items file is not
    written; otherwise the primary file holds one row per collected item
    and the voted-items file one row per item whose flag is not [None]. *)
Theorem write_output_item_files self all_items persons_by_name fs :
  Forall (λ i, is_Some (item_idx i "passed")) all_items →
  let paths := self_output_paths self in
  let members_list := sorted_names (all_members self) in
  let fieldnames := (item_fieldnames ++ members_list)%list in
  let voted := filter has_outcome all_items in
  ∃ fs', write_output self all_items persons_by_name fs = Some fs'
    ∧ if votes_only self then
        fs' !! path_votes paths = Some (items_csv fieldnames members_list voted)
        ∧ length (data_rows (items_csv fieldnames members_list voted)) = length voted
        ∧ fs' !! path_voted_items paths = fs !! path_voted_items paths
      else
        fs' !! path_votes paths = Some (items_csv fieldnames members_list all_items)
        ∧ length (data_rows (items_csv fieldnames members_list all_items))
          = length all_items
        ∧ fs' !! path_voted_items paths = Some (items_csv fieldnames members_list voted).
Proof.
  intros Hall paths members_list fieldnames voted.
  destruct (output_paths_distinct (output_dir self) (year self) (quarter self))
    as (Hvv & Hvp & Hvip).
  fold (self_output_paths self) in Hvv, Hvp, Hvip. fold paths in Hvv, Hvp, Hvip.
  unfold write_output. fold paths members_list fieldnames.
  destruct (votes_only self); cbn [negb mbind option_bind].
  - rewrite (voted_only_filter _ Hall). fold voted. cbn [mbind option_bind].
    eexists. split; [done|]. split; [|split].
    + by rewrite lookup_insert_ne, lookup_insert_eq.
    + apply data_rows_items_csv.
    + by rewrite lookup_insert_ne, lookup_insert_ne.
  - rewrite (voted_only_filter _ Hall). fold voted. cbn [mbind option_bind].
    eexists. split; [done|]. split; [|split].
    + by rewrite lookup_insert_ne, lookup_insert_ne, lookup_insert_eq.
    + apply data_rows_items_csv.
    + by rewrite lookup_insert_ne, lookup_insert_eq.
Qed.

Lemma write_output_item_files_witness :
  let self := example_workflow in
  let all_items := example_items in
  let paths := self_output_paths self in
  let members_list := sorted_names (all_members self) in
  let fieldnames := (item_fieldnames ++ members_list)%list in
  let voted := filter has_outcome all_items in
  ∃ fs', write_output self all_items ∅ ∅ = Some fs'
    ∧ if votes_only self then
        fs' !! path_votes paths = Some (items_csv fieldnames members_list voted)
        ∧ length (data_rows (items_csv fieldnames members_list voted)) = length voted
        ∧ fs' !! path_voted_items paths = (∅ : file_system) !! path_voted_items paths
      else
        fs' !! path_votes paths = Some (items_csv fieldnames members_list all_items)
        ∧ length (data_rows (items_csv fieldnames members_list all_items))
          = length all_items
        ∧ fs' !! path_voted_items paths = Some (items_csv fieldnames members_list voted).
Proof.
  apply (write_output_item_files example_workflow example_items ∅ ∅).
  repeat constructor; eexists; vm_compute; reflexivity.
Defined.

Example write_output_votes_only_example :
  (fs' ← write_output (Workflow 2023 1 true true "out" {["A"]} ∅) example_items ∅ ∅;
   Some (length <$> (data_rows <$> fs' !! "out/Columbus-OH-2023-Q1-Votes.csv"),
         fs' !! "out/Columbus-OH-2023-Q1-Voted-Items.csv"))
  = Some (Some 1%nat, None).
Proof. vm_compute. reflexivity. Qed.

(** ** Matter Enricher *)

Lemma item_set_idx_ne k k' v it :
  k ≠ k' → item_idx (item_set k v it) k' = item_idx it k'.
Proof. intros. unfold item_idx, item_set. cbn. by rewrite lookup_insert_ne. Qed.

Lemma item_set_idx_eq k v it : item_idx (item_set k v it) k = Some v.
Proof. unfold item_idx, item_set. cbn. by rewrite lookup_insert_eq. Qed.

Lemma fetch_matters_spec api mids cache log :
  fetch_matters api mids cache log
  = (foldl (λ c mid, <[mid := fetched_entry api mid]> c) cache mids,
     (log ++ flat_map (λ mid, [GetMatter mid; GetMatterAttachments mid]) mids)%list).
Proof.
  unfold fetch_matters. revert cache log.
  induction mids as [|mid mids IH]; intros cache log; cbn.
  - by rewrite app_nil_r.
  - rewrite IH. f_equal. by rewrite <- app_assoc.
Qed.

Lemma fetched_cache_lookup api mids (cache : gmap Z matter_entry) mid :
  foldl (λ c mid, <[mid := fetched_entry api mid]> c) cache mids !! mid
  = if bool_decide (mid ∈ mids) then Some (fetched_entry api mid) else cache !! mid.
Proof.
  revert cache. induction mids as [|m mids IH]; intros cache; cbn.
  - by rewrite bool_decide_eq_false_2 by apply not_elem_of_nil.
  - rewrite IH. destruct (decide (mid ∈ mids)) as [Hin|Hnin].
    + rewrite !bool_decide_eq_true_2; [done|set_solver|done].
    + rewrite (bool_decide_eq_false_2 _ Hnin). destruct (decide (m = mid)) as [->|Hne].
      * rewrite lookup_insert_eq, bool_decide_eq_true_2; [done|set_solver].
      * rewrite lookup_insert_ne, bool_decide_eq_false_2; [done|set_solver|done].
Qed.

Lemma requests_app c log1 log2 :
  requests c (log1 ++ log2) = (requests c log1 + requests c log2)%nat.
Proof. unfold requests. by rewrite filter_app, length_app. Qed.

Lemma requests_fetch_loop mid mids :
  NoDup mids →
  requests (GetMatter mid)
    (flat_map (λ mid, [GetMatter mid; GetMatterAttachments mid]) mids)
  = (if bool_decide (mid ∈ mids) then 1 else 0)%nat
  ∧ requests (GetMatterAttachments mid)
      (flat_map (λ mid, [GetMatter mid; GetMatterAttachments mid]) mids)
    = (if bool_decide (mid ∈ mids) then 1 else 0)%nat.
Proof.
  induction 1 as [|m mids Hnin Hnd [IH1 IH2]]; [done|].
  cbn [flat_map].
  rewrite !(requests_app _ [_; _]), IH1, IH2.
  unfold requests. rewrite !filter_cons, !filter_nil.
  destruct (decide (m = mid)) as [->|Hne].
  - rewrite (bool_decide_eq_false_2 _ Hnin), bool_decide_eq_true_2 by set_solver.
    split; repeat case_decide; simplify_eq; done.
  - assert (mid ∈ m :: mids ↔ mid ∈ mids) as Hiff by set_solver.
    rewrite (bool_decide_ext _ _ Hiff).
    split; repeat case_decide; simplify_eq; done.
Qed.

Lemma unique_matter_ids_elem all_items mid :
  mid ∈ unique_matter_ids all_items
  ↔ ∃ it, it ∈ all_items ∧ matter_id_of it = Some mid.
Proof.
  unfold unique_matter_ids.
  induction all_items as [|it items IH] using rev_ind.
  - cbn. set_solver.
  - rewrite foldl_app. cbn. destruct (matter_id_of it) as [m|] eqn:Hm.
    + rewrite elem_of_union, IH, elem_of_singleton. split.
      * intros [(it' & Hin & Hid) | ->]; [exists it'|exists it]; set_solver.
      * intros (it' & Hin & Hid). apply elem_of_app in Hin as [Hin|Hin].
        -- left. by exists it'.
        -- apply list_elem_of_singleton in Hin as ->. right. congruence.
    + rewrite IH. split.
      * intros (it' & Hin & Hid). exists it'. set_solver.
      * intros (it' & Hin & Hid). apply elem_of_app in Hin as [Hin|Hin].
        -- by exists it'.
        -- apply list_elem_of_singleton in Hin as ->. congruence.
Qed.

Lemma sorted_matter_ids_elem all_items mid :
  mid ∈ sorted_matter_ids all_items ↔ mid ∈ unique_matter_ids all_items.
Proof.
  unfold sorted_matter_ids. rewrite merge_sort_Permutation. apply elem_of_elements.
Qed.

Lemma sorted_matter_ids_NoDup all_items : NoDup (sorted_matter_ids all_items).
Proof.
  unfold sorted_matter_ids. rewrite merge_sort_Permutation. apply NoDup_elements.
Qed.

Lemma matter_id_of_truthy it mid :
  matter_id_of it = Some mid ↔ item_get it "matter_id" = PInt mid ∧ mid ≠ 0.
Proof.
  unfold matter_id_of. destruct (item_get it "matter_id") as [|z|s]; cbn.
  - naive_solver.
  - destruct (Z.eqb_spec z 0); cbn; naive_solver.
  - naive_solver.
Qed.

Lemma enrich_matter_data_unfold api self all_items :
  enrich_matter_data api self all_items
  = (set_matter_cache self
       (foldl (λ c mid, <[mid := fetched_entry api mid]> c) (matter_cache self)
          (sorted_matter_ids all_items)),
     populate_item
       (foldl (λ c mid, <[mid := fetched_entry api mid]> c) (matter_cache self)
          (sorted_matter_ids all_items)) <$> all_items,
     flat_map (λ mid, [GetMatter mid; GetMatterAttachments mid])
       (sorted_matter_ids all_items)).
Proof. unfold enrich_matter_data. by rewrite fetch_matters_spec. Qed.

Lemma item_set_overlay k v it : item_set k v it = overlay {[k := v]} it.
Proof. unfold item_set, overlay. by rewrite insert_union_singleton_l. Qed.

Lemma overlay_overlay u v it : overlay u (overlay v it) = overlay (u ∪ v) it.
Proof. unfold overlay. cbn. by rewrite (assoc_L (∪)). Qed.

Lemma overlay_empty it : overlay ∅ it = it.
Proof. unfold overlay. rewrite (left_id_L ∅ (∪)). by destruct it. Qed.

Lemma overlay_twice u it : overlay u (overlay u it) = overlay u it.
Proof. by rewrite overlay_overlay, (idemp_L (∪)). Qed.

Lemma populate_entry_overlay e :
  ∃ u, ∀ it, populate_attachments e (populate_details e it) = overlay u it.
Proof.
  unfold populate_attachments, populate_details.
  destruct (details e) as [d|]; repeat case_bool_decide;
    eexists; intros it; unfold set_matter_details;
    rewrite ?item_set_overlay, ?overlay_overlay; try reflexivity;
    by rewrite overlay_empty.
Qed.

Lemma populate_entry_twice e it :
  populate_attachments e (populate_details e
    (populate_attachments e (populate_details e it)))
  = populate_attachments e (populate_details e it).
Proof.
  destruct (populate_entry_overlay e) as [u Hu]. by rewrite !Hu, overlay_twice.
Qed.

Lemma populate_item_other cache it k :
  k ∉ matter_fields → item_idx (populate_item cache it) k = item_idx it k.
Proof.
  intros Hk. unfold populate_item.
  destruct (matter_id_of it) as [mid|]; [|done].
  destruct (cache !! mid) as [e|]; [|done].
  destruct (populate_entry_overlay e) as [u Hu].
  unfold populate_attachments, populate_details.
  assert (∀ k' v it', k' ∈ matter_fields →
            item_idx (item_set k' v it') k = item_idx it' k) as Hset.
  { intros k' v it' Hk'. apply item_set_idx_ne. intros ->. done. }
  case_bool_decide; rewrite ?Hset by (by apply (bool_decide_unpack _));
    (destruct (details e) as [d|]; [|done]); (case_bool_decide; [|done]);
    unfold set_matter_details; by rewrite !Hset by (by apply (bool_decide_unpack _)).
Qed.

Lemma populate_item_matter_id cache it :
  matter_id_of (populate_item cache it) = matter_id_of it.
Proof.
  unfold matter_id_of, item_get.
  pose proof (populate_item_other cache it "matter_id") as H.
  unfold item_idx in H. rewrite H; [done|].
  by apply (bool_decide_unpack _).
Qed.

Lemma populate_item_event_item_id cache it :
  item_idx (populate_item cache it) "event_item_id" = item_idx it "event_item_id".
Proof. apply populate_item_other. by apply (bool_decide_unpack _). Qed.

Example enrich_example :
  (enriched_items example_api_first example_workflow example_items
     !! 0%nat ≫= λ it, item_idx it "matter_title")
  = Some (PStr "To amend the budget")
  ∧ enrich_requests example_api_first example_workflow example_items
    = [GetMatter 5; GetMatterAttachments 5]%list.
Proof. repeat split; vm_compute; reflexivity. Qed.

(** C7, as the code has it: one call issues the detail request and the
    attachment request exactly once for every identifier that some item
    carries as a non-null, non-zero [matter_id], and for no other, and
    stores what both returned in the cache. The cache is not consulted
    before fetching; an item referencing an identifier [M] is left as it is
    by a further call when it was populated from the cache entry of [M] and
    the endpoints return for [M] what that entry holds. *)
Theorem enrich_matter_data_fetch_once api self all_items :
  (∀ mid,
     (mid ∈ unique_matter_ids all_items
      ↔ ∃ it, it ∈ all_items ∧ item_get it "matter_id" = PInt mid ∧ mid ≠ 0)
     ∧ requests (GetMatter mid) (enrich_requests api self all_items)
       = (if bool_decide (mid ∈ unique_matter_ids all_items) then 1 else 0)%nat
     ∧ requests (GetMatterAttachments mid) (enrich_requests api self all_items)
       = (if bool_decide (mid ∈ unique_matter_ids all_items) then 1 else 0)%nat
     ∧ (mid ∈ unique_matter_ids all_items →
        matter_cache (enriched_self api self all_items) !! mid
        = Some (fetched_entry api mid)))
  ∧ (∀ mid e i it0 it,
       matter_cache self !! mid = Some e →
       fetched_entry api mid = e →
       matter_id_of it0 = Some mid →
       it = populate_item (matter_cache self) it0 →
       all_items !! i = Some it →
       enriched_items api self all_items !! i = Some it).
Proof.
  unfold enrich_requests, enriched_self, enriched_items.
  rewrite enrich_matter_data_unfold. cbn [fst snd matter_cache set_matter_cache].
  split.
  - intros mid. split; [|split; [|split]].
    + rewrite unique_matter_ids_elem.
      split; intros (it & Hin & Hid); exists it; (split; [done|]);
        by apply matter_id_of_truthy.
    + rewrite (proj1 (requests_fetch_loop mid _ (sorted_matter_ids_NoDup all_items))).
      apply (f_equal (λ b : bool, if b then _ else _)).
      apply bool_decide_ext, sorted_matter_ids_elem.
    + rewrite (proj2 (requests_fetch_loop mid _ (sorted_matter_ids_NoDup all_items))).
      apply (f_equal (λ b : bool, if b then _ else _)).
      apply bool_decide_ext, sorted_matter_ids_elem.
    + intros Hin. rewrite fetched_cache_lookup, bool_decide_eq_true_2; [done|].
      by apply sorted_matter_ids_elem.
  - intros mid e i it0 it Hc He Hid Hit Hi.
    rewrite list_lookup_fmap, Hi. cbn. f_equal.
    assert (matter_id_of it = Some mid) as Hid'.
    { by rewrite Hit, populate_item_matter_id. }
    unfold populate_item at 1. rewrite Hid'.
    rewrite fetched_cache_lookup, bool_decide_eq_true_2.
    2:{ apply sorted_matter_ids_elem, unique_matter_ids_elem. exists it.
        split; [|done]. by apply list_elem_of_lookup_2 in Hi. }
    rewrite He, Hit. unfold populate_item. rewrite Hid, Hc.
    apply populate_entry_twice.
Qed.

(** A second call with the same endpoint responses re-issues the requests
    and leaves the enriched item as it is. *)
Lemma enrich_matter_data_fetch_once_witness :
  enriched_items example_api_first example_enriched_self example_enriched_items !! 0%nat
  = Some (populate_item (matter_cache example_enriched_self) example_item).
Proof.
  apply (proj2 (enrich_matter_data_fetch_once example_api_first
                  example_enriched_self example_enriched_items)
           5 (fetched_entry example_api_first 5) 0%nat example_item).
  - vm_compute. reflexivity.
  - reflexivity.
  - vm_compute. reflexivity.
  - reflexivity.
  - vm_compute. reflexivity.
Defined.

(** C7 as stated fails: after a first run has populated the cache for
    matter 5 and written its title, a second run on the same items fetches
    matter 5 again and overwrites the title with what the endpoint now
    returns; and an item whose [matter_id] is 0, which is not null, is never
    fetched. *)
Lemma enrich_matter_data_rerun_overwrites :
  is_Some (matter_cache example_enriched_self !! 5)
  ∧ (example_enriched_items !! 0%nat ≫= λ it, item_idx it "matter_title")
    = Some (PStr "To amend the budget")
  ∧ enrich_requests example_api_second example_enriched_self example_enriched_items
    = [GetMatter 5; GetMatterAttachments 5]%list
  ∧ (enriched_items example_api_second example_enriched_self example_enriched_items
       !! 0%nat ≫= λ it, item_idx it "matter_title")
    = Some (PStr "To amend the 2023 budget")
  ∧ enrich_requests example_api_first example_workflow
      [Item {["matter_id" := PInt 0]} ∅ (Some ∅)] = [].
Proof.
  split; [|split; [|split; [|split]]].
  - eexists. vm_compute. reflexivity.
  - vm_compute. reflexivity.
  - vm_compute. reflexivity.
  - vm_compute. reflexivity.
  - vm_compute. reflexivity.
Qed.

(** ** Text preservation *)

Lemma load_existing_text_fold self fs f :
  fs !! path_votes (self_output_paths self) = Some f →
  load_existing_text self fs = foldl load_row ∅ (dict_reader f).
Proof. intros Hf. unfold load_existing_text. by rewrite Hf. Qed.

Section load_rows.
Variables (key text : string).
Hypothesis key_nonempty : key ≠ "".
Hypothesis text_nonempty : text ≠ "".

Abbreviation rows_agree := (rows_agree key text).

Lemma load_row_keeps row text_map :
  rows_agree [row] →
  text_map !! key = Some text → load_row text_map row !! key = Some text.
Proof.
  intros Hag Htm. unfold load_row.
  destruct (row !! "event_item_id") as [k|] eqn:Hk; cbn; [|done].
  destruct (String.eqb_spec k "") as [->|Hkne]; cbn; [done|].
  destruct (row !! "Agenda_item_fulltext") as [t|] eqn:Ht; cbn; [|done].
  destruct (String.eqb_spec t "") as [->|Htne]; cbn; [done|].
  destruct (decide (k = key)) as [->|Hne].
  - rewrite lookup_insert_eq. f_equal. apply (Hag row); [set_solver|done..].
  - by rewrite lookup_insert_ne.
Qed.

Lemma load_rows_keep rows text_map :
  rows_agree rows →
  text_map !! key = Some text → foldl load_row text_map rows !! key = Some text.
Proof.
  revert text_map. induction rows as [|row rows IH]; intros text_map Hag Htm; [done|].
  cbn. apply IH.
  - intros r t Hr. apply Hag. set_solver.
  - apply load_row_keeps; [|done]. intros r t Hr. apply Hag. set_solver.
Qed.

Lemma load_rows_found rows text_map row :
  rows_agree rows →
  row ∈ rows →
  row !! "event_item_id" = Some key →
  row !! "Agenda_item_fulltext" = Some text →
  foldl load_row text_map rows !! key = Some text.
Proof.
  revert text_map. induction rows as [|r rows IH]; intros text_map Hag Hin Hk Ht.
  { by apply elem_of_nil in Hin. }
  apply elem_of_cons in Hin as [<- | Hin]; cbn.
  - apply load_rows_keep; [intros r t Hr; apply Hag; set_solver|].
    unfold load_row. rewrite Hk, Ht. cbn.
    destruct (String.eqb_spec key ""); [done|].
    destruct (String.eqb_spec text ""); [done|]. cbn.
    apply lookup_insert_eq.
  - apply IH; [|done..]. intros r' t Hr. apply Hag. set_solver.
Qed.
End load_rows.

(** When the file has several rows for one identifier, the last one with
    a text is kept. *)
Example load_existing_text_last_row :
  load_existing_text example_workflow
    {[ path_votes (self_output_paths example_workflow) :=
         [ ["event_item_id"; "Agenda_item_fulltext"];
           ["7"; "first"]; ["7"; "second"]; ["7"; ""] ]%list ]}
  = {["7" := "second"]}.
Proof. vm_compute. reflexivity. Qed.

Lemma str_of_Z_nonempty z : str_of_Z z ≠ "".
Proof.
  unfold str_of_Z. destruct (Z.to_int z) as [d|d]; cbn; [|done].
  by destruct d.
Qed.

Lemma preserve_text_spec text_map all_items :
  Forall (λ it, is_Some (item_idx it "event_item_id")) all_items →
  ∃ items', preserve_text text_map all_items = Some items'
    ∧ Forall2 (λ it it',
        item_idx it' "event_item_id" = item_idx it "event_item_id"
        ∧ ∀ eid text, item_idx it "event_item_id" = Some eid →
            text_map !! py_str eid = Some text →
            item_idx it' "Agenda_item_fulltext" = Some (PStr text)) all_items items'.
Proof.
  intros Hall. unfold preserve_text.
  induction Hall as [|it rest [eid Heid] _ (items' & Hrest & Hf2)].
  { exists []. split; [done|constructor]. }
  cbn [mapM]. rewrite Heid. cbn [mbind option_bind].
  destruct (text_map !! py_str eid) as [text|] eqn:Htm; cbn [mbind option_bind];
    rewrite Hrest; cbn; eexists; (split; [done|]); constructor; try done.
  - split; [by rewrite item_set_idx_ne|].
    intros eid' text' Heid' Htm'. rewrite item_set_idx_eq. naive_solver.
  - split; [done|]. intros eid' text' Heid' Htm'. naive_solver.
Qed.

Lemma translate_newlines_id s :
  has_carriage_return s = false → translate_newlines false s = s.
Proof.
  unfold has_carriage_return. induction s as [|c r IH]; [done|].
  cbn [has_char translate_newlines]. intros [Hc Hr]%orb_false_iff.
  rewrite Hc. destruct (Ascii.eqb_spec c LF) as [->|_]; by rewrite IH.
Qed.

Lemma universal_newlines_id s :
  has_carriage_return s = false → universal_newlines s = s.
Proof. apply translate_newlines_id. Qed.

Lemma translate_newlines_LF b s :
  has_carriage_return s = true → has_char LF (translate_newlines b s) = true.
Proof.
  unfold has_carriage_return. revert b. induction s as [|c r IH]; intros b; [done|].
  cbn [has_char translate_newlines].
  destruct (Ascii.eqb c CR) eqn:Hc; [done|]. cbn [orb]. intros Hr.
  destruct (Ascii.eqb c LF) eqn:Hl.
  - destruct b; [by apply IH|]. cbn [has_char]. rewrite (IH _ Hr). apply orb_true_r.
  - cbn [has_char]. rewrite (IH _ Hr). apply orb_true_r.
Qed.

Example universal_newlines_examples :
  universal_newlines (String CR (String LF "a")) = String LF "a"
  ∧ universal_newlines (String CR "a") = String LF "a"
  ∧ universal_newlines (String CR (String CR (String LF ""))) = String LF (String LF "")
  ∧ universal_newlines (String LF (String CR "")) = String LF (String LF "").
Proof. repeat split; reflexivity. Qed.

(** The limit is on the characters the parser receives: a '\r\n' counts
    once, a character of several bytes counts once. *)
Example within_limit_examples :
  within_limit [long_text 131072] = true
  ∧ within_limit [long_text 131073] = false
  ∧ within_limit [long_text 131071 ++ String CR (String LF "")] = true
  ∧ within_limit [long_text 131072 ++ String CR (String LF "")] = false
  ∧ within_limit [long_text 131071 ++ String "195" (String "169" "")] = true.
Proof. repeat apply conj; vm_compute; reflexivity. Qed.

(** A field over the limit in the header leaves nothing to read; in a
    record it ends the reading there. *)
Example dict_reader_examples :
  dict_reader [ ["event_item_id"; long_text 131073]; ["7"; "a"] ] = []
  ∧ dict_reader example_long_csv = []
  ∧ dict_reader [ ["event_item_id"; "Agenda_item_fulltext"]; ["5"; "a"]; [];
                  ["6"; long_text 131073]; ["7"; "b"] ]
    = [ {["event_item_id" := "5"; "Agenda_item_fulltext" := "a"]} ].
Proof. repeat apply conj; vm_compute; reflexivity. Qed.

(** A column name without line breaks is read as itself, and nothing else
    is read as it. *)
Lemma universal_newlines_key h k :
  has_char CR k = false → has_char LF k = false →
  universal_newlines h = k ↔ h = k.
Proof.
  intros Hcr Hlf. split.
  - intros Hh. destruct (has_carriage_return h) eqn:Hhc.
    + apply (translate_newlines_LF false) in Hhc.
      unfold universal_newlines in Hh. rewrite Hh in Hhc. congruence.
    + by rewrite universal_newlines_id in Hh.
  - intros ->. by apply universal_newlines_id.
Qed.

Lemma universal_newlines_nonempty s : s ≠ "" → universal_newlines s ≠ "".
Proof.
  destruct s as [|c r]; [done|]. intros _. unfold universal_newlines.
  cbn [translate_newlines].
  destruct (Ascii.eqb c CR); [done|]. by destruct (Ascii.eqb c LF).
Qed.

Lemma record_dict_read_acc k l (d d' : gmap string string) :
  has_char CR k = false → has_char LF k = false →
  d' !! k = universal_newlines <$> d !! k →
  foldl (λ d '(k, v), <[k := v]> d) d'
    (prod_map universal_newlines universal_newlines <$> l) !! k
  = universal_newlines
      <$> foldl (λ d '(k, v), <[k := v]> d) d l !! k.
Proof.
  intros Hcr Hlf. revert d d'. induction l as [|[h v] l IH]; intros d d' Hd; [done|].
  cbn [fmap list_fmap foldl prod_map fst snd]. apply IH.
  destruct (decide (h = k)) as [->|Hne].
  - rewrite (proj2 (universal_newlines_key k k Hcr Hlf) eq_refl).
    by rewrite !lookup_insert_eq.
  - rewrite !lookup_insert_ne; [done|done|].
    intros Hh. by apply (universal_newlines_key h k Hcr Hlf) in Hh.
Qed.

Lemma zip_fmap_both {A B} (g : A → B) (l1 l2 : list A) :
  zip (g <$> l1) (g <$> l2) = prod_map g g <$> zip l1 l2.
Proof.
  revert l2. induction l1 as [|x l1 IH]; intros [|y l2]; cbn; [done..|].
  by rewrite IH.
Qed.

(** Reading keeps the columns: under a column name without line breaks the
    record read holds the cell written there, with universal newlines. *)
Lemma record_dict_read fieldnames record k :
  has_char CR k = false → has_char LF k = false →
  record_dict (universal_newlines <$> fieldnames) (universal_newlines <$> record) !! k
  = universal_newlines <$> record_dict fieldnames record !! k.
Proof.
  intros Hcr Hlf. unfold record_dict. rewrite zip_fmap_both.
  apply record_dict_read_acc; [done..|]. by rewrite !lookup_empty.
Qed.

Lemma csv_reader_lookup f i record :
  f !! i = Some record →
  forallb within_limit (take (S i) f) = true →
  csv_reader f !! i = Some (universal_newlines <$> record).
Proof.
  revert i. induction f as [|r f IH]; intros i Hi Hlim; [done|].
  cbn [take forallb] in Hlim. apply andb_true_iff in Hlim as [Hr Hlim].
  cbn [csv_reader]. unfold read_record. rewrite Hr.
  destruct i as [|i]; cbn in Hi |- *.
  - by injection Hi as ->.
  - by apply IH.
Qed.

Lemma csv_reader_elem f cells :
  cells ∈ csv_reader f →
  ∃ record, record ∈ f ∧ cells = universal_newlines <$> record.
Proof.
  induction f as [|r f IH]; cbn [csv_reader]; [by intros ?%elem_of_nil|].
  unfold read_record. destruct (within_limit r); [|by intros ?%elem_of_nil].
  intros [->|Hin]%elem_of_cons.
  - exists r. split; [apply list_elem_of_here|done].
  - destruct (IH Hin) as (record & Hr & ->). exists record.
    split; [by apply list_elem_of_further|done].
Qed.

(** A record that is read gives a row of [DictReader]. *)
Lemma dict_reader_row fieldnames records i record :
  records !! i = Some record →
  record ≠ [] →
  forallb within_limit (fieldnames :: take (S i) records) = true →
  record_dict (universal_newlines <$> fieldnames) (universal_newlines <$> record)
  ∈ dict_reader (fieldnames :: records).
Proof.
  intros Hi Hne Hlim. cbn [forallb] in Hlim.
  apply andb_true_iff in Hlim as [Hh Hlim].
  unfold dict_reader. cbn [csv_reader]. unfold read_record. rewrite Hh.
  apply list_elem_of_fmap. exists (universal_newlines <$> record). split; [done|].
  apply list_elem_of_filter. split; [by destruct record|].
  eapply list_elem_of_lookup_2. by apply csv_reader_lookup.
Qed.

(** Every row of [DictReader] comes from a record of the file. *)
Lemma dict_reader_elem fieldnames records row :
  row ∈ dict_reader (fieldnames :: records) →
  ∃ record, record ∈ records
    ∧ row = record_dict (universal_newlines <$> fieldnames)
              (universal_newlines <$> record).
Proof.
  unfold dict_reader. cbn [csv_reader]. unfold read_record.
  destruct (within_limit fieldnames); [|by intros ?%elem_of_nil].
  intros (cells & -> & [_ Hin]%list_elem_of_filter)%list_elem_of_fmap.
  apply csv_reader_elem in Hin as (record & Hr & ->). by exists record.
Qed.

Lemma record_dict_nonempty fieldnames record k v :
  record_dict fieldnames record !! k = Some v → record ≠ [].
Proof.
  intros H ->. unfold record_dict in H. rewrite zip_with_nil_r in H.
  cbn in H. by rewrite lookup_empty in H.
Qed.

(** C8, as amended: in a skip-text run, when the previous primary CSV can
    be read up to and including a record for identifier [X] (no field of
    more than 131072 characters in the header or in a record up to there)
    and that record holds the non-empty text [T], neither [str(X)] nor [T]
    containing a carriage return, and no row read for [X] holds another
    text, every collected item whose [event_item_id] is [X] carries [T] as
    its full text when the items are handed to [write_output]. *)
Theorem run_preserves_existing_text env self fs fieldnames records i record X T :
  skip_text self = true →
  fetch_meetings env ≠ [] →
  fs !! path_votes (self_output_paths self) = Some (fieldnames :: records) →
  records !! i = Some record →
  forallb within_limit (fieldnames :: take (S i) records) = true →
  record_dict fieldnames record !! "event_item_id" = Some (py_str X) →
  record_dict fieldnames record !! "Agenda_item_fulltext" = Some T →
  py_str X ≠ "" →
  has_carriage_return (py_str X) = false →
  T ≠ "" →
  has_carriage_return T = false →
  rows_agree (py_str X) T (dict_reader (fieldnames :: records)) →
  Forall (λ it, is_Some (item_idx it "event_item_id"))
         (collect_event_items env (fetch_meetings env)).2 →
  ∃ self' items',
    run_items env self fs = Some (Some (self', items'))
    ∧ Forall2 (λ it it', item_idx it' "event_item_id" = item_idx it "event_item_id")
        (collect_event_items env (fetch_meetings env)).2 items'
    ∧ ∀ it', it' ∈ items' →
        item_idx it' "event_item_id" = Some X →
        item_idx it' "Agenda_item_fulltext" = Some (PStr T).
Proof.
  intros Hskip Hmeet Hf Hi Hlim Hkey Htext HX HXcr HT HTcr Hag Hids.
  assert (load_existing_text self fs !! py_str X = Some T) as Hload.
  { rewrite (load_existing_text_fold _ _ _ Hf).
    apply (load_rows_found (py_str X) T HX HT _ _
             (record_dict (universal_newlines <$> fieldnames)
                (universal_newlines <$> record))); [done|..].
    - apply (dict_reader_row _ _ i); [done| |done].
      by eapply record_dict_nonempty.
    - rewrite record_dict_read by reflexivity. rewrite Hkey. cbn.
      by rewrite universal_newlines_id.
    - rewrite record_dict_read by reflexivity. rewrite Htext. cbn.
      by rewrite universal_newlines_id. }
  unfold run_items.
  destruct (fetch_meetings env) as [|m ms] eqn:Hms; [done|].
  destruct (collect_event_items env (m :: ms)) as [members all_items] eqn:Hcol.
  cbn [snd] in Hids. cbn [snd].
  unfold enrich_matter_data.
  destruct (fetch_matters _ _ _ _) as [cache log].
  change (skip_text (set_matter_cache _ _)) with (skip_text self).
  rewrite Hskip. cbn [negb].
  change (load_existing_text (set_matter_cache _ _) fs)
    with (load_existing_text self fs).
  rewrite bool_decide_eq_true_2.
  2:{ intros Hempty. by rewrite Hempty, lookup_empty in Hload. }
  destruct (preserve_text_spec (load_existing_text self fs)
              (populate_item cache <$> all_items)) as (items' & Hpres & Hf2).
  { apply Forall_fmap. eapply Forall_impl; [exact Hids|].
    intros it His. cbn. by rewrite populate_item_event_item_id. }
  rewrite Hpres. cbn [mbind option_bind].
  eexists _, items'. split; [done|]. split.
  - apply Forall2_fmap_l in Hf2. eapply Forall2_impl; [exact Hf2|].
    intros it it' [Hid _]. cbn in Hid. by rewrite Hid, populate_item_event_item_id.
  - intros it' Hin Hid'.
    apply list_elem_of_lookup in Hin as [i' Hi'].
    destruct (Forall2_lookup_r _ _ _ _ _ Hf2 Hi') as (it & _ & Hid & Htxt).
    apply (Htxt X); [|done]. by rewrite <- Hid.
Qed.

(** The text the previous run left for item 7 is put back. *)
Lemma run_preserves_existing_text_witness :
  ∃ self' items',
    run_items example_environment example_workflow example_file_system
    = Some (Some (self', items'))
    ∧ Forall2 (λ it it', item_idx it' "event_item_id" = item_idx it "event_item_id")
        (collect_event_items example_environment
           (fetch_meetings example_environment)).2 items'
    ∧ ∀ it', it' ∈ items' →
        item_idx it' "event_item_id" = Some (PInt 7) →
        item_idx it' "Agenda_item_fulltext" = Some (PStr "WHEREAS, the council").
Proof.
  apply (run_preserves_existing_text example_environment example_workflow
           example_file_system ["event_item_id"; "Agenda_item_fulltext"]%list
           [ ["7"; "WHEREAS, the council"] ]%list 0%nat
           ["7"; "WHEREAS, the council"]%list (PInt 7) "WHEREAS, the council").
  - reflexivity.
  - discriminate.
  - vm_compute. reflexivity.
  - reflexivity.
  - vm_compute. reflexivity.
  - vm_compute. reflexivity.
  - vm_compute. reflexivity.
  - discriminate.
  - vm_compute. reflexivity.
  - discriminate.
  - vm_compute. reflexivity.
  - intros row t Hrow Hk Ht _.
    assert (dict_reader [ ["event_item_id"; "Agenda_item_fulltext"];
                          ["7"; "WHEREAS, the council"] ]%list
            = [ {["event_item_id" := "7";
                  "Agenda_item_fulltext" := "WHEREAS, the council"]} ]%list) as Hd
      by (vm_compute; reflexivity).
    rewrite Hd in Hrow. apply list_elem_of_singleton in Hrow. subst row.
    vm_compute in Ht. congruence.
  - repeat constructor. eexists. vm_compute. reflexivity.
Defined.

(** C8 as stated fails. A text that the previous run wrote with a line
    break '\r\n' comes back with '\n': the item gets another text than the
    file holds. And when a record has a field of more than 131072
    characters, the reader raises there, the handler returns what was
    loaded so far, and the text of every later record is not put back:
    item 7 keeps its empty text. *)
Lemma run_alters_or_loses_existing_text :
  (example_crlf_csv !! 1%nat = Some ["7"; example_crlf_text]%list
   ∧ run_texts example_environment example_workflow
       (example_file_system_with example_crlf_csv)
     = Some (Some [Some (PStr ("WHEREAS," ++ String LF "the council"))]%list)
   ∧ "WHEREAS," ++ String LF "the council" ≠ example_crlf_text)
  ∧ (example_long_csv !! 2%nat = Some ["7"; "WHEREAS, the council"]%list
     ∧ run_texts example_environment example_workflow
         (example_file_system_with example_long_csv)
       = Some (Some [Some (PStr "")]%list)).
Proof.
  split; [split; [|split]|split].
  - reflexivity.
  - vm_compute. reflexivity.
  - vm_compute. discriminate.
  - reflexivity.
  - vm_compute. reflexivity.
Qed.

(** ** Objects and references *)

(** In this section the names of [Store] are in scope: [_assign_votes] is
    the method on the object store, [pure_assign_votes] the function on
    mappings defined first. *)
Section store.
Local Abbreviation pure_assign_votes := _assign_votes.
Local Abbreviation pure_attendance_get := attendance_get.
Import Store.

Lemma bind_Some {A B} (m : M A) (k : A → M B) w a w1 :
  m w = Some (a, w1) → bind m k w = k a w1.
Proof. intros H. unfold bind. by rewrite H. Qed.

Lemma get_dict_Some w l d :
  heap w !! l = Some (ODict d) → get_dict l w = Some (d, w).
Proof. intros H. unfold get_dict. by rewrite H. Qed.

Lemma get_list_Some w l xs :
  heap w !! l = Some (OList xs) → get_list l w = Some (xs, w).
Proof. intros H. unfold get_list. by rewrite H. Qed.

Lemma dict_get_Some w l d k dflt :
  heap w !! l = Some (ODict d) →
  dict_get l k dflt w = Some (default dflt (d !! k), w).
Proof. intros H. unfold dict_get. by rewrite (bind_Some _ _ _ _ _ (get_dict_Some _ _ _ H)). Qed.

Lemma dict_getitem_Some w l d k v :
  heap w !! l = Some (ODict d) → d !! k = Some v →
  dict_getitem l k w = Some (v, w).
Proof.
  intros H Hk. unfold dict_getitem.
  by rewrite (bind_Some _ _ _ _ _ (get_dict_Some _ _ _ H)), Hk.
Qed.

Lemma dict_setitem_Some w l d k v :
  heap w !! l = Some (ODict d) →
  dict_setitem l k v w
  = Some ((), set_heap w (<[l := ODict (<[k := v]> d)]> (heap w))).
Proof. intros H. unfold dict_setitem. by rewrite H. Qed.

Lemma attendance_get_Some w item d la (att : gmap string pyval) member :
  heap w !! item = Some (ODict d) →
  d !! "attendance" = Some (HRef la) →
  heap w !! la = Some (ODict (HLit <$> att)) →
  Store.attendance_get item member w
  = Some (default (PStr "") (att !! member), w).
Proof.
  intros Hitem Hatt Hla. unfold Store.attendance_get.
  rewrite (bind_Some _ _ _ _ _ (dict_getitem_Some _ _ _ _ _ Hitem Hatt)).
  cbn [as_ref]. unfold bind at 1. cbn [ret].
  rewrite (bind_Some _ _ _ _ _ (dict_get_Some _ _ _ member _ Hla)).
  rewrite lookup_fmap. by destruct (att !! member).
Qed.

(** A loop whose body stores one entry of the dict at [votes] *)
Lemma for_each_assign w H0 votes (f : string → pyval) (body : hval → M unit) ms vs :
  (∀ m vs,
     body (HLit (PStr m)) (set_heap w (<[votes := ODict vs]> H0))
     = Some ((), set_heap w (<[votes := ODict (<[m := HLit (f m)]> vs)]> H0))) →
  for_each ((λ m, HLit (PStr m)) <$> ms) body
    (set_heap w (<[votes := ODict (HLit <$> vs)]> H0))
  = Some ((), set_heap w (<[votes := ODict (HLit <$> assign_each f ms vs)]> H0)).
Proof.
  intros Hbody. revert vs. induction ms as [|m ms IH]; intros vs; [done|].
  cbn [fmap list_fmap for_each].
  rewrite (bind_Some _ _ _ _ _ (Hbody m _)).
  rewrite <- (fmap_insert HLit). apply IH.
Qed.

Lemma for_each_assign_empty w H0 votes (f : string → pyval) (body : hval → M unit) ms :
  (∀ m vs,
     body (HLit (PStr m)) (set_heap w (<[votes := ODict vs]> H0))
     = Some ((), set_heap w (<[votes := ODict (<[m := HLit (f m)]> vs)]> H0))) →
  for_each ((λ m, HLit (PStr m)) <$> ms) body (set_heap w (<[votes := ODict ∅]> H0))
  = Some ((), set_heap w (<[votes := ODict (HLit <$> assign_each f ms ∅)]> H0)).
Proof.
  intros Hbody. rewrite <- (for_each_assign _ _ _ _ _ _ _ Hbody).
  by rewrite fmap_empty.
Qed.

(** The world [_assign_votes] leaves: the new dict at [votes], the
    discarded default [{}] at [dflt], everything else as before. *)
Lemma assign_votes_run w item members_list it ms :
  holds_item (heap w) item it →
  holds_members (heap w) members_list ms →
  let votes := fresh (dom (heap w)) in
  let dflt := fresh (dom (<[votes := ODict ∅]> (heap w))) in
  _assign_votes item members_list w
  = Some (votes,
          set_heap w (<[votes := ODict (HLit <$> pure_assign_votes it ms)]>
                        (<[dflt := ODict ∅]> (heap w)))).
Proof.
  intros (d & la & Hitem & Hpassed & Hatt & Hla & Hiv) Hms votes dflt.
  assert (heap w !! votes = None) as Hvotes.
  { apply not_elem_of_dom, is_fresh. }
  assert (votes ≠ dflt) as Hvd.
  { intros Heq. pose proof (is_fresh (dom (<[votes := ODict ∅]> (heap w)))) as Hf.
    fold dflt in Hf. rewrite <- Heq in Hf. apply Hf. set_solver. }
  assert (heap w !! dflt = None) as Hdflt.
  { pose proof (is_fresh (dom (<[votes := ODict ∅]> (heap w)))) as Hf.
    fold dflt in Hf. apply not_elem_of_dom. set_solver. }
  set (H0 := <[dflt := ODict ∅]> (heap w)).
  assert (∀ l o, heap w !! l = Some o →
            ∀ vs, heap (set_heap w (<[votes := ODict vs]> H0)) !! l = Some o)
    as Hold.
  { intros l o Hl vs. unfold H0. cbn.
    rewrite !lookup_insert_ne; [done|congruence..]. }
  unfold _assign_votes.
  rewrite (bind_Some new_dict _ w votes (set_heap w (<[votes := ODict ∅]> (heap w))))
    by done.
  rewrite (bind_Some new_dict _ _ dflt (set_heap w (<[votes := ODict ∅]> H0))).
  2:{ unfold new_dict, H0. cbn. fold votes dflt. do 2 f_equal.
      unfold set_heap. cbn. f_equal. by apply insert_insert_ne. }
  rewrite (bind_Some _ _ _ _ _ (dict_get_Some _ _ _ _ _ (Hold _ _ Hitem ∅))).
  (* the dict of per-item votes *)
  set (iv := default ∅ (item_votes it)).
  assert (∃ liv, default (HRef dflt) (d !! "item_votes") = HRef liv
                 ∧ ∀ vs, heap (set_heap w (<[votes := ODict vs]> H0)) !! liv
                         = Some (ODict (HLit <$> iv)))
    as (liv & -> & Hliv).
  { unfold iv. unfold item_votes_at in Hiv. destruct (item_votes it) as [iv'|].
    - destruct Hiv as (lv & -> & Hlv). exists lv. split; [done|].
      intros vs. by apply Hold.
    - rewrite Hiv. exists dflt. cbn.
      split; [done|]. intros vs. unfold H0. cbn.
      rewrite lookup_insert_ne, lookup_insert_eq by done.
      by rewrite fmap_empty. }
  cbn [as_ref]. unfold bind at 1. cbn [ret].
  rewrite (bind_Some _ _ _ _ _ (get_dict_Some _ _ _ (Hliv ∅))).
  rewrite (bind_Some _ _ _ _ _ (get_list_Some _ _ _ (Hold _ _ Hms ∅))).
  assert (heap (set_heap w (<[votes := ODict ∅]> H0)) !! votes
          = Some (ODict ∅)) as Hv0 by apply lookup_insert_eq.
  assert (∀ vs k v,
    dict_setitem votes k v (set_heap w (<[votes := ODict vs]> H0))
    = Some ((), set_heap w (<[votes := ODict (<[k := v]> vs)]> H0))) as Hset.
  { intros vs k v. erewrite dict_setitem_Some; [|apply lookup_insert_eq].
    cbn. by rewrite insert_insert_eq. }
  assert (∀ vs member,
    Store.attendance_get item member (set_heap w (<[votes := ODict vs]> H0))
    = Some (pure_attendance_get it member, set_heap w (<[votes := ODict vs]> H0)))
    as Hattget.
  { intros vs member.
    apply (attendance_get_Some _ item d la); [by apply Hold|done|by apply Hold]. }
  rewrite assign_votes_each. unfold vote_of. fold iv.
  assert (bool_decide (HLit <$> iv ≠ (∅ : gmap string hval)) = bool_decide (iv ≠ ∅))
    as ->.
  { apply bool_decide_ext. by rewrite fmap_empty_iff. }
  destruct (bool_decide (iv ≠ ∅)) eqn:Hne.
  - erewrite bind_Some; [reflexivity|].
    apply for_each_assign_empty. intros m vs. cbn [as_str]. unfold bind at 1. cbn [ret].
    rewrite (bind_Some _ _ _ _ _ (get_dict_Some _ _ _ (Hliv vs))).
    rewrite lookup_fmap. destruct (iv !! m) as [v|]; cbn [fmap option_fmap option_map].
    + cbn [as_lit]. unfold bind at 1. cbn [ret]. apply Hset.
    + rewrite (bind_Some _ _ _ _ _ (Hattget vs m)).
      destruct (is_absent _); apply Hset.
  - erewrite bind_Some; [reflexivity|].
    rewrite (bind_Some _ _ _ _ _ (dict_get_Some _ _ _ _ _ (Hold _ _ Hitem _))).
    rewrite Hpassed.
    assert (default (HLit PNone) (HLit <$> fields it !! "passed")
            = HLit (item_get it "passed")) as ->.
    { unfold item_get. by destruct (fields it !! "passed"). }
    cbn [as_lit]. unfold bind at 1. cbn [ret].
    destruct (py_eq_one (item_get it "passed")).
    + apply for_each_assign_empty. intros m vs. cbn [as_str]. unfold bind at 1. cbn [ret].
      rewrite (bind_Some _ _ _ _ _ (Hattget vs m)).
      destruct (is_absent _); apply Hset.
    + apply for_each_assign_empty. intros m vs. cbn [as_str]. unfold bind at 1. cbn [ret].
      apply Hset.
Qed.

Lemma holds_item_mono h h' l it :
  (∀ l o, h !! l = Some o → h' !! l = Some o) →
  holds_item h l it → holds_item h' l it.
Proof.
  intros Hsub (d & la & Hl & Hp & Ha & Hla & Hiv).
  exists d, la. repeat split; auto.
  unfold item_votes_at in *. destruct (item_votes it); [|done].
  destruct Hiv as (lv & Hd & Hlv). eauto.
Qed.

Lemma assign_votes_call w item members_list it ms :
  holds_item (heap w) item it →
  holds_members (heap w) members_list ms →
  ∃ votes w',
    _assign_votes item members_list w = Some (votes, w')
    ∧ heap w !! votes = None
    ∧ heap w' !! votes = Some (ODict (HLit <$> pure_assign_votes it ms))
    ∧ (∀ l o, heap w !! l = Some o → heap w' !! l = Some o)
    ∧ self_of w' = self_of w
    ∧ attendance_by_meeting w' = attendance_by_meeting w
    ∧ meeting_links w' = meeting_links w.
Proof.
  intros Hit Hms. eexists _, _. split; [by apply assign_votes_run|].
  set (votes := fresh (dom (heap w))).
  set (dflt := fresh (dom (<[votes := ODict ∅]> (heap w)))).
  assert (heap w !! votes = None) as Hvotes by apply not_elem_of_dom, is_fresh.
  assert (heap w !! dflt = None) as Hdflt.
  { pose proof (is_fresh (dom (<[votes := ODict ∅]> (heap w)))) as Hf.
    fold dflt in Hf. apply not_elem_of_dom. set_solver. }
  cbn. split; [done|]. split; [apply lookup_insert_eq|]. split; [|done].
  intros l o Hl. rewrite !lookup_insert_ne; [done|congruence..].
Qed.

(** C10: [_assign_votes] returns a dict that did not exist before the
    call and holds the votes computed from the item; every object that
    existed before the call (the item dict, its per-item votes and
    attendance dicts, the members list) is as it was, and so are the
    accumulators of the workflow; a second call on the same item and
    members list returns another new dict with the same contents, and
    leaves the first one as it was. *)
Theorem assign_votes_frame w item members_list it ms :
  holds_item (heap w) item it →
  holds_members (heap w) members_list ms →
  ∃ votes w',
    _assign_votes item members_list w = Some (votes, w')
    ∧ heap w !! votes = None
    ∧ heap w' !! votes = Some (ODict (HLit <$> pure_assign_votes it ms))
    ∧ (∀ l o, heap w !! l = Some o → heap w' !! l = Some o)
    ∧ holds_item (heap w') item it
    ∧ holds_members (heap w') members_list ms
    ∧ self_of w' = self_of w
    ∧ attendance_by_meeting w' = attendance_by_meeting w
    ∧ meeting_links w' = meeting_links w
    ∧ ∃ votes2 w'',
        _assign_votes item members_list w' = Some (votes2, w'')
        ∧ votes2 ≠ votes
        ∧ heap w'' !! votes2 = Some (ODict (HLit <$> pure_assign_votes it ms))
        ∧ heap w'' !! votes = Some (ODict (HLit <$> pure_assign_votes it ms)).
Proof.
  intros Hit Hms.
  destruct (assign_votes_call w item members_list it ms Hit Hms)
    as (votes & w' & Hrun & Hfresh & Hres & Hframe & Hself & Hatt & Hlinks).
  assert (holds_item (heap w') item it) as Hit' by by eapply holds_item_mono.
  assert (holds_members (heap w') members_list ms) as Hms' by by apply Hframe.
  destruct (assign_votes_call w' item members_list it ms Hit' Hms')
    as (votes2 & w'' & Hrun2 & Hfresh2 & Hres2 & Hframe2 & _).
  exists votes, w'. repeat (split; [done|]).
  exists votes2, w''. repeat (split; [try done|]); [congruence|by apply Hframe2].
Qed.
End store.

Lemma assign_votes_frame_witness :
  ∃ votes w',
    Store._assign_votes 1%positive 3%positive example_world = Some (votes, w')
    ∧ Store.heap example_world !! votes = None
    ∧ Store.heap w' !! votes
      = Some (Store.ODict (Store.HLit <$>
                _assign_votes example_stored_item ["A"; "B"]%list))
    ∧ Store.heap w' !! 1%positive = Store.heap example_world !! 1%positive
    ∧ Store.self_of w' = example_workflow.
Proof.
  destruct (assign_votes_frame example_world 1%positive 3%positive
              example_stored_item ["A"; "B"]%list)
    as (votes & w' & Hrun & Hfresh & Hres & Hframe & _ & _ & Hself & _).
  - exists {[ "passed" := Store.HLit (PInt 1);
              "attendance" := Store.HRef 2%positive ]}, 2%positive.
    repeat split; vm_compute; reflexivity.
  - vm_compute. reflexivity.
  - exists votes, w'. repeat (split; [done|]). split; [|done].
    apply Hframe. vm_compute. reflexivity.
Defined.

(** * Further properties *)

(** ** Vote assignment: members without a recorded vote *)

(** X1: when an item has recorded votes but none for a listed member, the
    member gets "Absent" if the roll call marks them "Absent" or
    "Absent@vote", and the empty value otherwise (also when the roll call
    does not list them). *)
Theorem assign_votes_unlisted_member it members_list iv member :
  item_votes it = Some iv →
  iv ≠ ∅ →
  member ∈ members_list →
  iv !! member = None →
  ((attendance it !! member = Some (PStr "Absent")
    ∨ attendance it !! member = Some (PStr "Absent@vote")) →
   _assign_votes it members_list !! member = Some (PStr "Absent"))
  ∧ (¬ (attendance it !! member = Some (PStr "Absent")
        ∨ attendance it !! member = Some (PStr "Absent@vote")) →
     _assign_votes it members_list !! member = Some (PStr "")).
Proof.
  intros Hiv Hne Hin Hnone. rewrite (assign_votes_lookup _ _ _ Hin).
  unfold vote_of. rewrite Hiv. cbn. rewrite bool_decide_eq_true_2, Hnone by done.
  unfold attendance_get, is_absent. split.
  - intros [-> | ->]; reflexivity.
  - intros Hna. destruct (attendance it !! member) as [a|] eqn:Ha; cbn; [|done].
    rewrite !bool_decide_eq_false_2; [done| |]; intros ->; naive_solver.
Qed.

Lemma assign_votes_unlisted_member_witness :
  _assign_votes
    (Item {["passed" := PInt 1]} {["B" := PStr "Absent"]}
          (Some {["A" := PStr "Affirmative"]}))
    ["A"; "B"; "C"]%list !! "B" = Some (PStr "Absent")
  ∧ _assign_votes
      (Item {["passed" := PInt 1]} {["B" := PStr "Absent"]}
            (Some {["A" := PStr "Affirmative"]}))
      ["A"; "B"; "C"]%list !! "C" = Some (PStr "").
Proof.
  split.
  - apply (assign_votes_unlisted_member _ _ {["A" := PStr "Affirmative"]});
      [reflexivity| | |vm_compute; reflexivity|left; vm_compute; reflexivity];
      apply (bool_decide_unpack _); vm_compute; exact I.
  - apply (assign_votes_unlisted_member _ _ {["A" := PStr "Affirmative"]});
      [reflexivity| | |vm_compute; reflexivity|];
      [apply (bool_decide_unpack _); vm_compute; exact I..|].
    vm_compute. intros [H|H]; discriminate H.
Defined.

(** ** Matter Enricher: what a call leaves alone *)

Lemma assign_votes_depends it1 it2 ms :
  item_get it1 "passed" = item_get it2 "passed" →
  attendance it1 = attendance it2 →
  item_votes it1 = item_votes it2 →
  _assign_votes it1 ms = _assign_votes it2 ms.
Proof.
  intros Hp Ha Hv. unfold _assign_votes, attendance_get. by rewrite Hp, Ha, Hv.
Qed.

Lemma populate_item_dicts cache it :
  attendance (populate_item cache it) = attendance it
  ∧ item_votes (populate_item cache it) = item_votes it.
Proof.
  unfold populate_item.
  destruct (matter_id_of it) as [mid|]; [|done].
  destruct (cache !! mid) as [e|]; [|done].
  destruct (populate_entry_overlay e) as [u ->]. done.
Qed.

Lemma enriched_items_lookup api self all_items i :
  enriched_items api self all_items !! i
  = populate_item (matter_cache (enriched_self api self all_items))
      <$> all_items !! i.
Proof.
  unfold enriched_items, enriched_self. rewrite enrich_matter_data_unfold. cbn.
  by rewrite list_lookup_fmap.
Qed.

Lemma enriched_cache_lookup api self all_items mid :
  matter_cache (enriched_self api self all_items) !! mid
  = if bool_decide (mid ∈ unique_matter_ids all_items)
    then Some (fetched_entry api mid) else matter_cache self !! mid.
Proof.
  unfold enriched_self. rewrite enrich_matter_data_unfold. cbn.
  rewrite fetched_cache_lookup.
  assert (mid ∈ sorted_matter_ids all_items ↔ mid ∈ unique_matter_ids all_items)
    as Hiff by apply sorted_matter_ids_elem.
  by rewrite (bool_decide_ext _ _ Hiff).
Qed.

(** X2: enrichment keeps the number and order of the items and writes
    only the ten matter fields: every other entry of an item, its
    attendance and its per-item votes are as before, and so are the votes
    [_assign_votes] computes for it. *)
Theorem enrich_matter_data_frame api self all_items i it :
  all_items !! i = Some it →
  length (enriched_items api self all_items) = length all_items
  ∧ ∃ it', enriched_items api self all_items !! i = Some it'
      ∧ (∀ k, k ∉ matter_fields → item_idx it' k = item_idx it k)
      ∧ attendance it' = attendance it
      ∧ item_votes it' = item_votes it
      ∧ ∀ members_list, _assign_votes it' members_list = _assign_votes it members_list.
Proof.
  intros Hi. split.
  - unfold enriched_items. rewrite enrich_matter_data_unfold. cbn.
    apply length_fmap.
  - rewrite enriched_items_lookup, Hi. cbn.
    eexists. split; [done|].
    destruct (populate_item_dicts
                (matter_cache (enriched_self api self all_items)) it) as [Ha Hv].
    split; [|split; [done|split; [done|]]].
    + intros k Hk. by apply populate_item_other.
    + intros ms. apply assign_votes_depends; [|done..].
      unfold item_get.
      pose proof (populate_item_other
        (matter_cache (enriched_self api self all_items)) it "passed") as Hp.
      unfold item_idx in Hp. rewrite Hp; [done|]. by apply (bool_decide_unpack _).
Qed.

Lemma enrich_matter_data_frame_witness :
  length (enriched_items example_api_first example_workflow example_items)
  = length example_items
  ∧ ∃ it', enriched_items example_api_first example_workflow example_items !! 0%nat
           = Some it'
      ∧ (∀ k, k ∉ matter_fields → item_idx it' k = item_idx example_item k)
      ∧ attendance it' = attendance example_item
      ∧ item_votes it' = item_votes example_item
      ∧ ∀ members_list,
          _assign_votes it' members_list = _assign_votes example_item members_list.
Proof. apply enrich_matter_data_frame. reflexivity. Defined.

(** X3: an item without a usable matter identifier, and an item whose
    matter could not be fetched (no detail, or an empty detail object, and
    no attachments), come out of enrichment exactly as they went in. *)
Theorem enrich_matter_data_failed_fetch api self all_items i it :
  all_items !! i = Some it →
  (matter_id_of it = None
   ∨ ∃ mid, matter_id_of it = Some mid
       ∧ (fetch_matter_details api mid = None ∨ fetch_matter_details api mid = Some ∅)
       ∧ fetch_matter_attachments api mid = []) →
  enriched_items api self all_items !! i = Some it.
Proof.
  intros Hi Hcase. rewrite enriched_items_lookup, Hi. cbn. f_equal.
  unfold populate_item. destruct Hcase as [-> | (mid & Hid & Hd & Ha)]; [done|].
  rewrite Hid, enriched_cache_lookup, bool_decide_eq_true_2.
  2:{ apply unique_matter_ids_elem. exists it. split; [|done].
      by apply list_elem_of_lookup_2 in Hi. }
  unfold populate_attachments, populate_details, fetched_entry. cbn.
  rewrite Ha. rewrite bool_decide_eq_false_2 by naive_solver.
  destruct Hd as [-> | ->]; [done|].
  by rewrite bool_decide_eq_false_2 by naive_solver.
Qed.

Lemma enrich_matter_data_failed_fetch_witness :
  enriched_items (MatterApi (λ _, None) (λ _, [])) example_workflow example_items
    !! 0%nat = Some example_item.
Proof.
  apply enrich_matter_data_failed_fetch; [reflexivity|].
  right. exists 5. split; [vm_compute; reflexivity|]. split; [by left|done].
Defined.

Lemma substring_0_length n s : (String.length (String.substring 0 n s) ≤ n)%nat.
Proof.
  revert s. induction n as [|n IH]; intros [|a s]; cbn; try lia.
  specialize (IH s). lia.
Qed.

Lemma substring_0_prefix n s : String.prefix (String.substring 0 n s) s = true.
Proof.
  revert s. induction n as [|n IH]; intros [|a s]; cbn; try done.
  destruct (ascii_dec a a); [apply IH|done].
Qed.

Lemma first10_short s :
  (String.length (first10 s) ≤ 10)%nat ∧ String.prefix (first10 s) s = true.
Proof.
  unfold first10. destruct (String.eqb_spec s "") as [->|_].
  - split; [cbn; lia|done].
  - split; [apply substring_0_length|apply substring_0_prefix].
Qed.

(** X4: an item that references a matter whose detail was fetched carries,
    after enrichment, the title, type, status, enactment number, requester
    and body name of that detail (the empty string for a missing or null
    entry); each of the three dates is a prefix of at most ten characters
    of the fetched value, and the whole value when that has at most ten
    characters. *)
Theorem enrich_matter_data_backfill api self all_items i it mid d :
  all_items !! i = Some it →
  matter_id_of it = Some mid →
  fetch_matter_details api mid = Some d →
  d ≠ ∅ →
  ∃ it', enriched_items api self all_items !! i = Some it'
    ∧ item_idx it' "matter_title" = Some (PStr (details_get d "MatterTitle"))
    ∧ item_idx it' "matter_type_name" = Some (PStr (details_get d "MatterTypeName"))
    ∧ item_idx it' "matter_status_name" = Some (PStr (details_get d "MatterStatusName"))
    ∧ item_idx it' "matter_enactment_number"
      = Some (PStr (details_get d "MatterEnactmentNumber"))
    ∧ item_idx it' "matter_requester" = Some (PStr (details_get d "MatterRequester"))
    ∧ item_idx it' "matter_body_name" = Some (PStr (details_get d "MatterBodyName"))
    ∧ (∀ k dk, (k, dk) ∈ [("matter_intro_date", "MatterIntroDate");
                          ("matter_passed_date", "MatterPassedDate");
                          ("matter_enactment_date", "MatterEnactmentDate")]%list →
         ∃ t, item_idx it' k = Some (PStr t)
           ∧ (String.length t ≤ 10)%nat
           ∧ String.prefix t (details_get d dk) = true
           ∧ (String.length (details_get d dk) ≤ 10 → t = details_get d dk)%nat).
Proof.
  intros Hi Hid Hd Hne. rewrite enriched_items_lookup, Hi. cbn.
  eexists. split; [done|].
  unfold populate_item.
  rewrite Hid, enriched_cache_lookup, bool_decide_eq_true_2.
  2:{ apply unique_matter_ids_elem. exists it. split; [|done].
      by apply list_elem_of_lookup_2 in Hi. }
  unfold populate_attachments, populate_details, fetched_entry. cbn [details attachments].
  rewrite Hd, (bool_decide_eq_true_2 _ Hne). unfold set_matter_details.
  assert (∀ s, (String.length s ≤ 10)%nat → first10 s = s) as Hshort.
  { intros s Hs. unfold first10. destruct (String.eqb_spec s "") as [->|_]; [done|].
    clear -Hs. revert Hs. generalize 10%nat. intros n. revert n.
    induction s as [|a s IH]; intros [|n] Hs; cbn in *; try done; try lia.
    f_equal. apply IH. lia. }
  assert (∀ s, ∃ t, Some (PStr (first10 s)) = Some (PStr t)
            ∧ (String.length t ≤ 10)%nat
            ∧ String.prefix t s = true
            ∧ (String.length s ≤ 10 → t = s)%nat) as Hdate.
  { intros s. exists (first10 s). split; [done|].
    split; [apply first10_short|split; [apply first10_short|apply Hshort]]. }
  case_bool_decide;
    (repeat split;
     [rewrite ?item_set_idx_ne by done; apply item_set_idx_eq ..|]);
    intros k dk Hk;
    repeat (apply elem_of_cons in Hk as [Hk|Hk]; [injection Hk as -> ->|]);
    try (by apply elem_of_nil in Hk);
    rewrite ?item_set_idx_ne by done; rewrite item_set_idx_eq; apply Hdate.
Qed.

Lemma enrich_matter_data_backfill_witness :
  ∃ it', enriched_items example_api_first example_workflow example_items !! 0%nat
         = Some it'
    ∧ item_idx it' "matter_title" = Some (PStr "To amend the budget").
Proof.
  destruct (enrich_matter_data_backfill example_api_first example_workflow
              example_items 0%nat example_item 5
              {["MatterTitle" := Some "To amend the budget"]})
    as (it' & Hit' & Htitle & _).
  - reflexivity.
  - vm_compute. reflexivity.
  - reflexivity.
  - apply (bool_decide_unpack _). vm_compute. exact I.
  - exists it'. split; [done|]. rewrite Htitle. vm_compute. reflexivity.
Defined.

(** X5: enrichment changes nothing of the workflow but the matter cache,
    and in the cache only the entries of the identifiers the items
    reference: every other entry stays, and no entry is removed. *)
Theorem enrich_matter_data_cache api self all_items mid :
  mid ∉ unique_matter_ids all_items →
  matter_cache (enriched_self api self all_items) !! mid = matter_cache self !! mid
  ∧ dom (matter_cache self) ⊆ dom (matter_cache (enriched_self api self all_items))
  ∧ set_matter_cache (enriched_self api self all_items) (matter_cache self) = self.
Proof.
  intros Hmid. split; [|split].
  - by rewrite enriched_cache_lookup, bool_decide_eq_false_2.
  - intros m. rewrite !elem_of_dom, enriched_cache_lookup.
    case_bool_decide; [by eexists|done].
  - unfold enriched_self. rewrite enrich_matter_data_unfold. cbn. by destruct self.
Qed.

Lemma enrich_matter_data_cache_witness :
  matter_cache (enriched_self example_api_first example_workflow example_items) !! 6
  = matter_cache example_workflow !! 6
  ∧ dom (matter_cache example_workflow)
    ⊆ dom (matter_cache (enriched_self example_api_first example_workflow example_items))
  ∧ set_matter_cache (enriched_self example_api_first example_workflow example_items)
      (matter_cache example_workflow) = example_workflow.
Proof.
  apply enrich_matter_data_cache.
  apply (bool_decide_unpack _). vm_compute. exact I.
Defined.

(** ** Date-Range Resolver and output paths *)

(** X6: [get_quarter_dates] returns a pair exactly for the quarters 1 to 4;
    for any other quarter number the lookup [quarters[quarter]] raises. *)
Theorem get_quarter_dates_defined y q :
  is_Some (get_quarter_dates y q) ↔ 1 ≤ q ≤ 4.
Proof.
  split.
  - intros [r Hr]. unfold get_quarter_dates in Hr.
    destruct (quarters !! q) as [p|] eqn:Hq; [|done].
    destruct (decide (1 ≤ q ≤ 4)) as [|Hout]; [done|].
    unfold quarters in Hq.
    rewrite !lookup_insert_ne, lookup_empty in Hq by lia. done.
  - intros Hq. rewrite get_quarter_dates_literals by done. by eexists.
Qed.

Lemma str_of_uint_no_Q d :
  Forall (λ c, c ≠ "Q"%char) (list_ascii_of_string (NilEmpty.string_of_uint d)).
Proof. induction d; cbn; constructor; done. Qed.

Lemma str_of_Z_no_Q z :
  Forall (λ c, c ≠ "Q"%char) (list_ascii_of_string (str_of_Z z)).
Proof.
  unfold str_of_Z. destruct (Z.to_int z) as [d|d]; cbn.
  - destruct d; try apply (str_of_uint_no_Q (_ _)). cbn. by repeat constructor.
  - constructor; [done|].
    destruct d; try apply (str_of_uint_no_Q (_ _)). cbn. by repeat constructor.
Qed.

Lemma split_at_Q (s1 s2 t1 t2 : string) :
  Forall (λ c, c ≠ "Q"%char) (list_ascii_of_string s1) →
  Forall (λ c, c ≠ "Q"%char) (list_ascii_of_string s2) →
  s1 ++ "-Q" ++ t1 = s2 ++ "-Q" ++ t2 → s1 = s2 ∧ t1 = t2.
Proof.
  revert s2. induction s1 as [|a s1 IH]; intros [|b s2] H1 H2 Heq;
    rewrite ?string_app_cons, ?string_app_empty in Heq.
  - split; [done|]. by apply (inj (String.append "-Q")) in Heq.
  - injection Heq as <- Heq. destruct s2 as [|c s2];
      rewrite ?string_app_cons, ?string_app_empty in Heq; [discriminate|].
    injection Heq as <- _. cbn in H2. inversion H2 as [|? ? _ H2']. by inversion H2'.
  - injection Heq as -> Heq. destruct s1 as [|c s1];
      rewrite ?string_app_cons, ?string_app_empty in Heq; [discriminate|].
    injection Heq as -> _. cbn in H1. inversion H1 as [|? ? _ H1']. by inversion H1'.
  - injection Heq as -> Heq. cbn in H1, H2.
    inversion H1; inversion H2; subst.
    destruct (IH s2) as [-> ->]; done.
Qed.

Lemma output_prefix_inj y q y' q' :
  output_prefix y q = output_prefix y' q' → y = y' ∧ q = q'.
Proof.
  unfold output_prefix. intros Heq.
  apply (inj (String.append "Columbus-OH-")) in Heq.
  apply split_at_Q in Heq as [Hy Hq]; try apply str_of_Z_no_Q.
  split; by apply str_of_Z_inj.
Qed.

Lemma string_app_assoc (s t u : string) : (s ++ t) ++ u = s ++ t ++ u.
Proof.
  induction s as [|a s IH]; [done|].
  rewrite !string_app_cons. by rewrite IH.
Qed.

Lemma output_paths_kinds dir y q y' q' :
  let p := get_output_paths dir y q in
  let p' := get_output_paths dir y' q' in
  path_votes p ≠ path_voted_items p'
  ∧ path_votes p ≠ path_persons p'
  ∧ path_voted_items p ≠ path_persons p'.
Proof.
  cbn.
  assert (∀ (a b mid suf1 suf2 : string),
            String.length suf1 = String.length suf2 → suf1 ≠ suf2 →
            dir ++ "/" ++ a ++ suf1 = dir ++ "/" ++ (b ++ mid) ++ suf2 → False)
    as Hdiff.
  { intros a b mid suf1 suf2 Hlen Hne Heq. do 2 apply (inj (String.append _)) in Heq.
    by apply string_app_inj_suffix in Heq as [_ ?]. }
  assert (∀ (b mid suf : string), b ++ mid ++ suf = (b ++ mid) ++ suf) as Hassoc.
  { intros. by rewrite string_app_assoc. }
  split; [|split].
  - intros Heq. rewrite (Hassoc _ "-Voted" "-Items.csv") in Heq.
    by apply Hdiff in Heq.
  - intros Heq. rewrite (Hassoc _ "-P" "ersons.csv") in Heq.
    by apply Hdiff in Heq.
  - intros Heq. rewrite (Hassoc _ "-Voted-" "Items.csv") in Heq.
    symmetry in Heq. rewrite (Hassoc _ "-Pe" "rsons.csv") in Heq.
    do 2 apply (inj (String.append _)) in Heq.
    apply string_app_inj_suffix in Heq as [_ ?]; done.
Qed.

(** X7: two runs into the same directory for different quarters (another
    year or another quarter number) share no output file: each of the
    three files of one run differs from each of the three files of the
    other. *)
Theorem get_output_paths_disjoint dir y q y' q' :
  y ≠ y' ∨ q ≠ q' →
  let p := get_output_paths dir y q in
  let p' := get_output_paths dir y' q' in
  Forall (λ f, Forall (λ f', f ≠ f')
                 [path_votes p'; path_voted_items p'; path_persons p'])
    [path_votes p; path_voted_items p; path_persons p].
Proof.
  intros Hne p p'.
  assert (∀ (a b suf : string), dir ++ "/" ++ a ++ suf = dir ++ "/" ++ b ++ suf → a = b)
    as Hsame.
  { intros a b suf Heq. do 2 apply (inj (String.append _)) in Heq.
    by apply string_app_inj_suffix in Heq as [-> _]. }
  destruct (output_paths_kinds dir y q y' q') as (H1 & H2 & H3).
  destruct (output_paths_kinds dir y' q' y q) as (H1' & H2' & H3').
  fold p p' in H1, H2, H3, H1', H2', H3'.
  repeat constructor; try done; try (by apply not_eq_sym);
    intros [? ?]%Hsame%output_prefix_inj; naive_solver.
Qed.

Lemma get_output_paths_disjoint_witness :
  Forall (λ f, Forall (λ f', f ≠ f')
                 [path_votes (get_output_paths "out" 2023 2);
                  path_voted_items (get_output_paths "out" 2023 2);
                  path_persons (get_output_paths "out" 2023 2)])
    [path_votes (get_output_paths "out" 2023 1);
     path_voted_items (get_output_paths "out" 2023 1);
     path_persons (get_output_paths "out" 2023 1)].
Proof. apply (get_output_paths_disjoint "out" 2023 1 2023 2). right. lia. Defined.

(** ** CSV Writer: shape and contents of the files *)

Lemma voted_only_is_Some l :
  is_Some (voted_only l) ↔ Forall (λ i, is_Some (item_idx i "passed")) l.
Proof.
  split.
  - induction l as [|i rest IH]; [constructor|].
    cbn [voted_only]. intros [r Hr].
    destruct (item_idx i "passed") as [p|] eqn:Hp; [|done].
    cbn [mbind option_bind] in Hr.
    destruct (voted_only rest) as [rest'|] eqn:Hrest; [|done].
    constructor; [by eexists|]. apply IH. by eexists.
  - intros H. rewrite (voted_only_filter _ H). by eexists.
Qed.

(** The items [write_output] writes to the primary file *)
Lemma write_output_eq self all_items persons_by_name fs :
  Forall (λ i, is_Some (item_idx i "passed")) all_items →
  let paths := self_output_paths self in
  let members_list := sorted_names (all_members self) in
  let fieldnames := (item_fieldnames ++ members_list)%list in
  write_output self all_items persons_by_name fs
  = Some (<[path_persons paths := persons_csv persons_by_name]>
            (if votes_only self then
               <[path_votes paths :=
                   items_csv fieldnames members_list (filter has_outcome all_items)]> fs
             else
               <[path_voted_items paths :=
                   items_csv fieldnames members_list (filter has_outcome all_items)]>
                 (<[path_votes paths := items_csv fieldnames members_list all_items]> fs))).
Proof.
  intros Hall paths members_list fieldnames. unfold write_output.
  fold paths members_list fieldnames.
  destruct (votes_only self); cbn [negb mbind option_bind];
    by rewrite (voted_only_filter _ Hall).
Qed.

Lemma write_output_Some_passed self all_items persons_by_name fs fs' :
  write_output self all_items persons_by_name fs = Some fs' →
  Forall (λ i, is_Some (item_idx i "passed")) all_items.
Proof.
  intros Hw. apply voted_only_is_Some. unfold write_output in Hw.
  destruct (votes_only self); cbn [negb mbind option_bind] in Hw;
    (destruct (voted_only all_items); [by eexists|done]).
Qed.

(** X8: [write_output] completes exactly when every item has a ['passed']
    entry; an item without one makes the lookup [i['passed']] raise. *)
Theorem write_output_defined self all_items persons_by_name fs :
  is_Some (write_output self all_items persons_by_name fs)
  ↔ Forall (λ i, is_Some (item_idx i "passed")) all_items.
Proof.
  split.
  - intros [fs' Hw]. by eapply write_output_Some_passed.
  - intros Hall. rewrite (write_output_eq _ _ _ _ Hall). by eexists.
Qed.

Lemma sorted_names_spec (names : gset string) :
  StronglySorted String.le (sorted_names names)
  ∧ NoDup (sorted_names names)
  ∧ (∀ m, m ∈ sorted_names names ↔ m ∈ names)
  ∧ length (sorted_names names) = size names.
Proof.
  unfold sorted_names. split; [|split; [|split]].
  - apply StronglySorted_merge_sort; apply _.
  - rewrite merge_sort_Permutation. apply NoDup_elements.
  - intros m. rewrite merge_sort_Permutation. apply elem_of_elements.
  - rewrite merge_sort_Permutation. done.
Qed.

Lemma writerow_length fieldnames row : length (writerow fieldnames row) = length fieldnames.
Proof. unfold writerow. apply length_fmap. Qed.

Lemma items_csv_shape fieldnames ms items :
  Forall (λ r, length r = length fieldnames) (items_csv fieldnames ms items).
Proof.
  unfold items_csv. constructor; [done|].
  apply Forall_fmap, Forall_forall. intros it _. apply writerow_length.
Qed.

(** X9: the primary file starts with the header: the 34 item columns
    followed by one column per member of the registry, in ascending order
    and without repetition; every record of the file, header included, has
    exactly 34 + (number of members) cells. *)
Theorem write_output_header self all_items persons_by_name fs fs' :
  write_output self all_items persons_by_name fs = Some fs' →
  ∃ members_list rows,
    fs' !! path_votes (self_output_paths self)
    = Some ((item_fieldnames ++ members_list)%list :: rows)
    ∧ StronglySorted String.le members_list
    ∧ NoDup members_list
    ∧ (∀ m, m ∈ members_list ↔ m ∈ all_members self)
    ∧ Forall (λ r, length r = (34 + size (all_members self))%nat)
        ((item_fieldnames ++ members_list)%list :: rows).
Proof.
  intros Hw.
  assert (Forall (λ i, is_Some (item_idx i "passed")) all_items) as Hall.
  { by eapply write_output_Some_passed. }
  rewrite (write_output_eq _ _ _ _ Hall) in Hw. injection Hw as <-.
  destruct (output_paths_distinct (output_dir self) (year self) (quarter self))
    as (Hvv & Hvp & Hvip).
  destruct (sorted_names_spec (all_members self)) as (Hs & Hnd & Hin & Hlen).
  exists (sorted_names (all_members self)).
  assert (∀ items,
    Forall (λ r, length r = (34 + size (all_members self))%nat)
      (items_csv (item_fieldnames ++ sorted_names (all_members self))
         (sorted_names (all_members self)) items)) as Hshape.
  { intros items. eapply Forall_impl; [apply items_csv_shape|].
    intros r ->. rewrite length_app, Hlen. done. }
  destruct (votes_only self).
  - eexists. rewrite lookup_insert_ne, lookup_insert_eq by done.
    split; [reflexivity|]. repeat (split; [done|]). apply Hshape.
  - eexists. rewrite lookup_insert_ne, lookup_insert_ne, lookup_insert_eq by done.
    split; [reflexivity|]. repeat (split; [done|]). apply Hshape.
Qed.

(** X10: [write_output] writes the persons file in every mode and leaves
    every path other than its three output paths as it was. *)
Theorem write_output_frame self all_items persons_by_name fs fs' :
  write_output self all_items persons_by_name fs = Some fs' →
  fs' !! path_persons (self_output_paths self) = Some (persons_csv persons_by_name)
  ∧ ∀ path,
      path ∉ [path_votes (self_output_paths self);
              path_voted_items (self_output_paths self);
              path_persons (self_output_paths self)] →
      fs' !! path = fs !! path.
Proof.
  intros Hw.
  assert (Forall (λ i, is_Some (item_idx i "passed")) all_items) as Hall.
  { by eapply write_output_Some_passed. }
  rewrite (write_output_eq _ _ _ _ Hall) in Hw. injection Hw as <-.
  split; [apply lookup_insert_eq|].
  intros path Hpath.
  assert (path ≠ path_votes (self_output_paths self)
          ∧ path ≠ path_voted_items (self_output_paths self)
          ∧ path ≠ path_persons (self_output_paths self)) as (H1 & H2 & H3).
  { repeat split; intros ->; apply Hpath; set_solver. }
  destruct (votes_only self).
  - by rewrite !lookup_insert_ne.
  - by rewrite !lookup_insert_ne.
Qed.

(** X11: without votes-only mode the voted-items file has the header of the
    primary file, and its rows are rows of the primary file in the same
    order (the rows of the items whose [passed] flag is not [None]). *)
Theorem write_output_voted_sublist self all_items persons_by_name fs fs' :
  votes_only self = false →
  write_output self all_items persons_by_name fs = Some fs' →
  ∃ header rows rows_voted,
    fs' !! path_votes (self_output_paths self) = Some (header :: rows)
    ∧ fs' !! path_voted_items (self_output_paths self) = Some (header :: rows_voted)
    ∧ sublist rows_voted rows
    ∧ length rows_voted = length (filter has_outcome all_items).
Proof.
  intros Hvo Hw.
  assert (Forall (λ i, is_Some (item_idx i "passed")) all_items) as Hall.
  { by eapply write_output_Some_passed. }
  rewrite (write_output_eq _ _ _ _ Hall), Hvo in Hw. injection Hw as <-.
  destruct (output_paths_distinct (output_dir self) (year self) (quarter self))
    as (Hvv & Hvp & Hvip).
  eexists _, _, _.
  rewrite lookup_insert_ne, lookup_insert_ne, lookup_insert_eq by done.
  rewrite lookup_insert_ne, lookup_insert_eq by done.
  split; [reflexivity|]. split; [reflexivity|]. split.
  - apply fmap_sublist, sublist_filter.
  - by rewrite length_fmap.
Qed.

Lemma example_write_output_Some :
  is_Some (write_output example_workflow example_items ∅ ∅).
Proof.
  rewrite write_output_eq; [by eexists|].
  repeat constructor; eexists; vm_compute; reflexivity.
Qed.

Lemma write_output_header_witness :
  ∃ fs' members_list rows,
    write_output example_workflow example_items ∅ ∅ = Some fs'
    ∧ fs' !! path_votes (self_output_paths example_workflow)
      = Some ((item_fieldnames ++ members_list)%list :: rows)
    ∧ Forall (λ r, length r = (34 + size (all_members example_workflow))%nat)
        ((item_fieldnames ++ members_list)%list :: rows).
Proof.
  destruct example_write_output_Some as [fs' Hw].
  destruct (write_output_header _ _ _ _ _ Hw) as (ms & rows & Hf & _ & _ & _ & Hshape).
  by exists fs', ms, rows.
Defined.

Lemma write_output_frame_witness :
  ∃ fs', write_output example_workflow example_items ∅ ∅ = Some fs'
    ∧ fs' !! path_persons (self_output_paths example_workflow) = Some (persons_csv ∅)
    ∧ fs' !! "notes.txt" = (∅ : file_system) !! "notes.txt".
Proof.
  destruct example_write_output_Some as [fs' Hw].
  destruct (write_output_frame _ _ _ _ _ Hw) as [Hp Hother].
  exists fs'. split; [done|]. split; [done|]. apply Hother.
  apply (bool_decide_unpack _). vm_compute. exact I.
Defined.

Lemma write_output_voted_sublist_witness :
  ∃ fs' header rows rows_voted,
    write_output example_workflow example_items ∅ ∅ = Some fs'
    ∧ fs' !! path_votes (self_output_paths example_workflow) = Some (header :: rows)
    ∧ fs' !! path_voted_items (self_output_paths example_workflow)
      = Some (header :: rows_voted)
    ∧ sublist rows_voted rows
    ∧ length rows_voted = length (filter has_outcome example_items).
Proof.
  destruct example_write_output_Some as [fs' Hw].
  destruct (write_output_voted_sublist example_workflow _ _ _ _ eq_refl Hw)
    as (header & rows & rows_voted & H).
  by exists fs', header, rows, rows_voted.
Defined.

Lemma writerow_lookup fieldnames row i k :
  fieldnames !! i = Some k →
  writerow fieldnames row !! i = Some (csv_cell (default (PStr "") (row !! k))).
Proof. intros Hk. unfold writerow. by rewrite list_lookup_fmap, Hk. Qed.

Lemma base_row_assign_each it fieldnames ms :
  base_row it fieldnames ms
  = assign_each (item_get_str it) (filter (λ k, k ∉ ms) fieldnames) ∅.
Proof.
  unfold base_row, assign_each. generalize (∅ : gmap string pyval).
  induction fieldnames as [|k ks IH]; intros acc; [done|].
  cbn [foldl]. rewrite filter_cons. case_bool_decide; destruct (decide (k ∉ ms));
    try done; cbn [foldl]; apply IH.
Qed.

Lemma item_row_lookup it fieldnames ms k :
  k ∈ fieldnames →
  item_row it fieldnames ms !! k
  = Some (if bool_decide (k ∈ ms) then vote_of it k else item_get_str it k).
Proof.
  intros Hk. unfold item_row, dict_update.
  rewrite lookup_union, base_row_assign_each, assign_each_lookup, lookup_empty.
  destruct (decide (k ∈ ms)) as [Hm|Hm].
  - rewrite (assign_votes_lookup _ _ _ Hm), (bool_decide_eq_true_2 _ Hm).
    by destruct (bool_decide _).
  - rewrite (assign_votes_lookup_None _ _ _ Hm), (bool_decide_eq_false_2 _ Hm).
    rewrite bool_decide_eq_true_2; [done|]. by apply list_elem_of_filter.
Qed.

Lemma items_csv_cell fieldnames ms items j it i k :
  items !! j = Some it →
  fieldnames !! i = Some k →
  items_csv fieldnames ms items !! S j ≫= (λ row, row !! i)
  = Some (csv_cell (if bool_decide (k ∈ ms) then vote_of it k else item_get_str it k)).
Proof.
  intros Hj Hi. unfold items_csv.
  assert (∀ (h : list string) (l : csv_file), (h :: l) !! S j = l !! j) as -> by done.
  rewrite list_lookup_fmap, Hj. cbn.
  rewrite (writerow_lookup _ _ _ _ Hi), item_row_lookup; [done|].
  by eapply list_elem_of_lookup_2.
Qed.

Lemma write_output_primary self all_items persons_by_name fs fs' :
  write_output self all_items persons_by_name fs = Some fs' →
  fs' !! path_votes (self_output_paths self)
  = Some (items_csv (item_fieldnames ++ sorted_names (all_members self))
            (sorted_names (all_members self)) (written_items self all_items)).
Proof.
  intros Hw.
  pose proof (write_output_Some_passed _ _ _ _ _ Hw) as Hall.
  rewrite (write_output_eq _ _ _ _ Hall) in Hw. injection Hw as <-.
  destruct (output_paths_distinct (output_dir self) (year self) (quarter self))
    as (Hvv & Hvp & Hvip).
  unfold written_items. destruct (votes_only self).
  - by rewrite lookup_insert_ne, lookup_insert_eq.
  - by rewrite lookup_insert_ne, lookup_insert_ne, lookup_insert_eq.
Qed.

(** X12: in the row of an item in the primary file, the cell under the
    column of a registered member is the vote [_assign_votes] assigns to
    that member, and the cell under any other column is the item's entry
    of that name (the empty string when the item has none). *)
Theorem write_output_cells self all_items persons_by_name fs fs' j it i k :
  write_output self all_items persons_by_name fs = Some fs' →
  written_items self all_items !! j = Some it →
  (item_fieldnames ++ sorted_names (all_members self))%list !! i = Some k →
  ∃ f row cell,
    fs' !! path_votes (self_output_paths self) = Some f
    ∧ f !! S j = Some row
    ∧ row !! i = Some cell
    ∧ (k ∈ all_members self →
       ∃ v, _assign_votes it (sorted_names (all_members self)) !! k = Some v
            ∧ cell = csv_cell v)
    ∧ (k ∉ all_members self → cell = item_cell it k).
Proof.
  intros Hw Hj Hi.
  pose proof (items_csv_cell _ (sorted_names (all_members self)) _ _ _ _ _ Hj Hi)
    as Hcell.
  destruct (items_csv _ _ _ !! S j) as [row|] eqn:Hrow; [|done]. cbn in Hcell.
  eexists _, row, _. split; [by eapply write_output_primary|].
  split; [done|]. split; [done|].
  destruct (sorted_names_spec (all_members self)) as (_ & _ & Hin & _).
  split.
  - intros Hk%Hin. rewrite (bool_decide_eq_true_2 _ Hk).
    exists (vote_of it k). split; [by apply assign_votes_lookup|done].
  - intros Hk. rewrite bool_decide_eq_false_2; [done|]. by rewrite Hin.
Qed.

Lemma write_output_cells_witness :
  ∃ fs' f row cell,
    write_output example_workflow example_items ∅ ∅ = Some fs'
    ∧ fs' !! path_votes (self_output_paths example_workflow) = Some f
    ∧ f !! 1%nat = Some row
    ∧ row !! 4%nat = Some cell
    ∧ cell = item_cell example_item "event_item_id".
Proof.
  destruct example_write_output_Some as [fs' Hw].
  destruct (write_output_cells _ _ _ _ _ 0%nat example_item 4%nat "event_item_id" Hw)
    as (f & row & cell & Hf & Hrow & Hcell & _ & Hfield).
  - reflexivity.
  - reflexivity.
  - exists fs', f, row, cell. repeat (split; [done|]). apply Hfield.
    apply (bool_decide_unpack _). vm_compute. exact I.
Defined.

(** ** Text preservation across two runs *)

Lemma zip_dict_lookup (g : string → string) fieldnames (d : gmap string string) k :
  foldl (λ d '(k, v), <[k := v]> d) d (zip fieldnames (g <$> fieldnames)) !! k
  = if bool_decide (k ∈ fieldnames) then Some (g k) else d !! k.
Proof.
  revert d. induction fieldnames as [|k' ks IH]; intros d; cbn.
  - by rewrite bool_decide_eq_false_2 by apply not_elem_of_nil.
  - rewrite IH. destruct (decide (k ∈ ks)) as [Hin|Hnin].
    + rewrite !bool_decide_eq_true_2; [done|set_solver|done].
    + rewrite (bool_decide_eq_false_2 _ Hnin). destruct (decide (k' = k)) as [->|Hne].
      * rewrite lookup_insert_eq, bool_decide_eq_true_2; [done|set_solver].
      * rewrite lookup_insert_ne, bool_decide_eq_false_2; [done|set_solver|done].
Qed.

Lemma filter_all {A} (P : A → Prop) `{!∀ x, Decision (P x)} (l : list A) :
  Forall P l → filter P l = l.
Proof.
  induction 1 as [|x l Hx _ IH]; [done|].
  by rewrite filter_cons, decide_True, IH.
Qed.

Lemma csv_row_lookup it fieldnames ms k :
  k ∈ fieldnames → k ∉ ms →
  foldl (λ d '(k, v), <[k := v]> d) (∅ : gmap string string)
    (zip fieldnames (writerow fieldnames (item_row it fieldnames ms))) !! k
  = Some (item_cell it k).
Proof.
  intros Hk Hm. unfold writerow.
  rewrite (zip_dict_lookup (λ k, csv_cell (default (PStr "") (item_row it fieldnames ms !! k)))).
  rewrite (bool_decide_eq_true_2 _ Hk), item_row_lookup by done.
  by rewrite (bool_decide_eq_false_2 _ Hm).
Qed.

Lemma items_csv_read_cell it fieldnames ms k :
  k ∈ fieldnames → k ∉ ms →
  has_char CR k = false → has_char LF k = false →
  record_dict (universal_newlines <$> fieldnames)
    (universal_newlines <$> writerow fieldnames (item_row it fieldnames ms)) !! k
  = Some (universal_newlines (item_cell it k)).
Proof.
  intros Hk Hm Hcr Hlf. rewrite record_dict_read by done.
  unfold record_dict. by rewrite csv_row_lookup.
Qed.

(** X13: what a run writes, the next run reads back with universal
    newlines. When [write_output] has written an item with identifier [X]
    and a non-empty text [T] to the primary file, and no field of the
    header or of a row up to that of the item has more than 131072
    characters, [load_existing_text] on the resulting file system maps
    [str(X)] to [T], in both of which every '\r\n' and every other '\r' has
    become '\n'. (No member is named like the two columns, and no other
    written item that reads back under the same identifier carries
    another text.) *)
Theorem write_then_load_text self all_items persons_by_name fs fs' j it X T :
  write_output self all_items persons_by_name fs = Some fs' →
  "event_item_id" ∉ all_members self →
  "Agenda_item_fulltext" ∉ all_members self →
  written_items self all_items !! j = Some it →
  item_idx it "event_item_id" = Some X →
  X ≠ PNone → py_str X ≠ "" →
  item_idx it "Agenda_item_fulltext" = Some (PStr T) →
  T ≠ "" →
  forallb within_limit
    (take (S (S j))
       (items_csv (item_fieldnames ++ sorted_names (all_members self))
          (sorted_names (all_members self)) (written_items self all_items))) = true →
  (∀ it2, it2 ∈ written_items self all_items →
     universal_newlines (item_cell it2 "event_item_id") = universal_newlines (py_str X) →
     universal_newlines (item_cell it2 "Agenda_item_fulltext") = universal_newlines T
     ∨ item_cell it2 "Agenda_item_fulltext" = "") →
  load_existing_text self fs' !! universal_newlines (py_str X)
  = Some (universal_newlines T).
Proof.
  intros Hw Hm1 Hm2 Hj HX HXn HXe HT HTe Hlim Huniq.
  destruct (sorted_names_spec (all_members self)) as (_ & _ & Hin & _).
  rewrite (load_existing_text_fold _ _ _ (write_output_primary _ _ _ _ _ Hw)).
  revert Hlim.
  set (fieldnames := (item_fieldnames ++ sorted_names (all_members self))%list).
  set (ms := sorted_names (all_members self)).
  unfold items_csv. intros Hlim.
  assert ("event_item_id" ∈ fieldnames) as Hf1.
  { apply elem_of_app. left. by apply (bool_decide_unpack _). }
  assert ("Agenda_item_fulltext" ∈ fieldnames) as Hf2.
  { apply elem_of_app. left. by apply (bool_decide_unpack _). }
  assert ("event_item_id" ∉ ms) as Hn1 by (unfold ms; by rewrite Hin).
  assert ("Agenda_item_fulltext" ∉ ms) as Hn2 by (unfold ms; by rewrite Hin).
  assert (item_cell it "event_item_id" = py_str X) as Hkey.
  { unfold item_cell, item_get_str. unfold item_idx in HX. rewrite HX. cbn.
    by destruct X. }
  assert (item_cell it "Agenda_item_fulltext" = T) as Htext.
  { unfold item_cell, item_get_str. unfold item_idx in HT. by rewrite HT. }
  eapply (load_rows_found (universal_newlines (py_str X)) (universal_newlines T)
            (universal_newlines_nonempty _ HXe) (universal_newlines_nonempty _ HTe)).
  - intros row t Hrow Hk Ht Hne.
    apply dict_reader_elem in Hrow as (record & Hrec & ->).
    apply list_elem_of_fmap in Hrec as (it2 & -> & Hit2).
    rewrite items_csv_read_cell in Hk, Ht by done.
    injection Hk as Hk. injection Ht as Ht.
    destruct (Huniq it2 Hit2 Hk) as [H|H]; [congruence|].
    rewrite H in Ht. by subst t.
  - apply (dict_reader_row _ _ j (writerow fieldnames (item_row it fieldnames ms))).
    + by rewrite list_lookup_fmap, Hj.
    + intros Hnil. apply (f_equal length) in Hnil.
      rewrite writerow_length in Hnil. unfold fieldnames in Hnil.
      rewrite length_app in Hnil. cbn in Hnil. lia.
    + exact Hlim.
  - rewrite items_csv_read_cell by done. by rewrite Hkey.
  - rewrite items_csv_read_cell by done. by rewrite Htext.
Qed.

(** An item written with the line break '\r\n' in its text is loaded with
    '\n'. *)
Lemma write_then_load_text_witness :
  ∃ fs', write_output example_workflow [example_item_with_crlf] ∅ ∅ = Some fs'
    ∧ load_existing_text example_workflow fs' !! "7"
      = Some ("WHEREAS," ++ String LF "the council").
Proof.
  assert (is_Some (write_output example_workflow [example_item_with_crlf] ∅ ∅))
    as [fs' Hw].
  { rewrite write_output_eq; [by eexists|].
    repeat constructor; eexists; vm_compute; reflexivity. }
  exists fs'. split; [done|].
  assert (universal_newlines (py_str (PInt 7)) = "7") as <- by (vm_compute; reflexivity).
  assert (universal_newlines example_crlf_text = "WHEREAS," ++ String LF "the council")
    as <- by (vm_compute; reflexivity).
  apply (write_then_load_text example_workflow [example_item_with_crlf] ∅ ∅ fs'
           0%nat example_item_with_crlf (PInt 7) example_crlf_text Hw).
  - apply (bool_decide_unpack _). vm_compute. exact I.
  - apply (bool_decide_unpack _). vm_compute. exact I.
  - reflexivity.
  - vm_compute. reflexivity.
  - discriminate.
  - discriminate.
  - vm_compute. reflexivity.
  - discriminate.
  - vm_compute. reflexivity.
  - intros it2 Hit2 _. apply list_elem_of_singleton in Hit2 as ->. left.
    vm_compute. reflexivity.
Defined.

Lemma load_rows_entries rows (text_map : gmap string string) k t :
  foldl load_row text_map rows !! k = Some t →
  text_map !! k = Some t
  ∨ (k ≠ "" ∧ t ≠ ""
     ∧ ∃ row, row ∈ rows ∧ row !! "event_item_id" = Some k
              ∧ row !! "Agenda_item_fulltext" = Some t).
Proof.
  revert text_map. induction rows as [|row rows IH]; intros text_map Hk; [by left|].
  cbn in Hk. apply IH in Hk as [Hk|(Hkne & Htne & r & Hr & Hrk & Hrt)].
  - unfold load_row in Hk.
    destruct (row !! "event_item_id") as [k'|] eqn:Hk'; cbn in Hk; [|by left].
    destruct (String.eqb_spec k' "") as [->|Hk'ne]; cbn in Hk; [by left|].
    destruct (row !! "Agenda_item_fulltext") as [t'|] eqn:Ht'; cbn in Hk; [|by left].
    destruct (String.eqb_spec t' "") as [->|Ht'ne]; cbn in Hk; [by left|].
    destruct (decide (k' = k)) as [->|Hne].
    + rewrite lookup_insert_eq in Hk. injection Hk as ->.
      right. repeat split; try done. exists row. set_solver.
    + rewrite lookup_insert_ne in Hk by done. by left.
  - right. repeat split; try done. exists r. set_solver.
Qed.

(** X14: every entry [load_existing_text] returns comes from a row of the
    previous primary file, and has a non-empty identifier and a non-empty
    text; without such a file nothing is loaded. *)
Theorem load_existing_text_entries self fs k t :
  load_existing_text self fs !! k = Some t →
  k ≠ "" ∧ t ≠ ""
  ∧ ∃ f row, fs !! path_votes (self_output_paths self) = Some f
      ∧ row ∈ dict_reader f
      ∧ row !! "event_item_id" = Some k
      ∧ row !! "Agenda_item_fulltext" = Some t.
Proof.
  intros Hk. unfold load_existing_text in Hk.
  destruct (fs !! path_votes (self_output_paths self)) as [f|] eqn:Hf;
    [|by rewrite lookup_empty in Hk].
  apply (load_rows_entries (dict_reader f) ∅) in Hk
    as [Hk|(Hkne & Htne & row & Hrow & Hrk & Hrt)].
  - by rewrite lookup_empty in Hk.
  - repeat split; try done. by exists f, row.
Qed.

Lemma load_existing_text_entries_witness :
  "7" ≠ "" ∧ "WHEREAS, the council" ≠ ""
  ∧ ∃ f row, example_file_system !! path_votes (self_output_paths example_workflow)
             = Some f
      ∧ row ∈ dict_reader f
      ∧ row !! "event_item_id" = Some "7"
      ∧ row !! "Agenda_item_fulltext" = Some "WHEREAS, the council".
Proof.
  apply (load_existing_text_entries example_workflow example_file_system).
  vm_compute. reflexivity.
Defined.

(** X15: the text-preservation loop of [run] completes exactly when every
    item has an ['event_item_id'] entry (the lookup raises otherwise). *)
Theorem preserve_text_defined text_map all_items :
  is_Some (preserve_text text_map all_items)
  ↔ Forall (λ it, is_Some (item_idx it "event_item_id")) all_items.
Proof.
  unfold preserve_text. rewrite mapM_is_Some.
  apply Forall_proper; [|done]. intros it. cbn.
  destruct (item_idx it "event_item_id") as [eid|]; cbn.
  - split; [by eexists|]. intros _. by destruct (text_map !! py_str eid).
  - split; intros [? ?]; done.
Qed.

(** X16: the loop keeps the number and order of the items and writes only
    the full text: an item whose identifier is not in the loaded map is
    left as it is, and for every item all other entries, the attendance,
    the per-item votes and hence the assigned votes are unchanged. *)
Theorem preserve_text_frame text_map all_items items' i it :
  preserve_text text_map all_items = Some items' →
  all_items !! i = Some it →
  length items' = length all_items
  ∧ ∃ it' eid,
      items' !! i = Some it'
      ∧ item_idx it "event_item_id" = Some eid
      ∧ (text_map !! py_str eid = None → it' = it)
      ∧ (∀ k, k ≠ "Agenda_item_fulltext" → item_idx it' k = item_idx it k)
      ∧ attendance it' = attendance it
      ∧ item_votes it' = item_votes it
      ∧ ∀ members_list, _assign_votes it' members_list = _assign_votes it members_list.
Proof.
  intros Hp Hi. unfold preserve_text in Hp. apply mapM_Some in Hp.
  split; [symmetry; by eapply Forall2_length|].
  destruct (Forall2_lookup_l _ _ _ _ _ Hp Hi) as (it' & Hi' & Hit').
  destruct (item_idx it "event_item_id") as [eid|] eqn:Heid; [|done].
  cbn in Hit'. exists it', eid. split; [done|]. split; [done|].
  destruct (text_map !! py_str eid) as [text|]; injection Hit' as <-.
  - split; [done|]. split; [intros k Hk; by apply item_set_idx_ne|].
    split; [done|]. split; [done|].
    intros ms. apply assign_votes_depends; try done.
    unfold item_get. pose proof (item_set_idx_ne "Agenda_item_fulltext" "passed"
      (PStr text) it) as Hpa. unfold item_idx in Hpa. by rewrite Hpa.
  - done.
Qed.

Lemma preserve_text_frame_witness :
  ∃ items',
    preserve_text {["8" := "kept"]} example_items = Some items'
    ∧ length items' = length example_items
    ∧ items' !! 0%nat = Some example_item.
Proof.
  assert (is_Some (preserve_text {["8" := "kept"]} example_items)) as [items' Hp].
  { apply mapM_is_Some. repeat constructor; eexists; vm_compute; reflexivity. }
  destruct (preserve_text_frame _ _ _ 0%nat example_item Hp eq_refl)
    as (Hlen & it' & eid & Hi & Heid & Hsame & _).
  exists items'. split; [done|]. split; [done|].
  rewrite Hi. f_equal. apply Hsame.
  vm_compute in Heid. injection Heid as <-. vm_compute. reflexivity.
Defined.

(** ** The persons file *)

Lemma omap_all_Some {A B} (f : A → option B) (l : list A) :
  Forall (λ x, is_Some (f x)) l →
  length (omap f l) = length l
  ∧ ∀ i x, l !! i = Some x → omap f l !! i = f x.
Proof.
  induction 1 as [|x l [y Hy] _ [IHlen IH]]; [done|].
  cbn. rewrite Hy. cbn. split; [by rewrite IHlen|].
  intros [|i] x' Hx'; cbn in *; [by injection Hx' as <-|by apply IH].
Qed.

Lemma person_row_cells (p : gmap string pyval) :
  writerow person_fields
    (foldl (λ row k, <[k := default (PStr "") (p !! k)]> row) ∅ person_fields)
  = (λ k, csv_cell (default (PStr "") (p !! k))) <$> person_fields.
Proof.
  unfold writerow. apply list_fmap_ext. intros i k Hk.
  fold (assign_each (λ k, default (PStr "") (p !! k)) person_fields ∅).
  rewrite assign_each_lookup_elem; [done|]. by eapply list_elem_of_lookup_2.
Qed.

(** X17: the persons file has the header of the eight person columns and
    one row per person, in ascending order of the full name used as key;
    each cell is the person's entry of that column, the empty string when
    the entry is missing or null. *)
Theorem persons_csv_rows (persons_by_name : gmap string person) i name :
  sorted_names (dom persons_by_name) !! i = Some name →
  head (persons_csv persons_by_name) = Some person_fields
  ∧ length (data_rows (persons_csv persons_by_name)) = size persons_by_name
  ∧ StronglySorted String.le (sorted_names (dom persons_by_name))
  ∧ ∃ p, persons_by_name !! name = Some p
      ∧ data_rows (persons_csv persons_by_name) !! i
        = Some ((λ k, csv_cell (default (PStr "") (p !! k))) <$> person_fields).
Proof.
  intros Hi.
  destruct (sorted_names_spec (dom persons_by_name)) as (Hs & _ & Hin & Hlen).
  unfold persons_csv, data_rows. cbn [head tail].
  edestruct (omap_all_Some
    (λ name, p ← persons_by_name !! name;
             Some (writerow person_fields
               (foldl (λ row k, <[k := default (PStr "") (p !! k)]> row) ∅ person_fields)))
    (sorted_names (dom persons_by_name))) as [Hl Hrows].
  { apply Forall_forall. intros n Hn%Hin%elem_of_dom. destruct Hn as [p ->].
    by eexists. }
  split; [done|]. split; [by rewrite Hl, Hlen, size_dom|]. split; [done|].
  assert (name ∈ dom persons_by_name) as [p Hp]%elem_of_dom.
  { apply Hin. by eapply list_elem_of_lookup_2. }
  exists p. split; [done|]. rewrite (Hrows _ _ Hi), Hp. cbn [mbind option_bind].
  by rewrite person_row_cells.
Qed.

Lemma persons_csv_rows_witness :
  let persons_by_name : gmap string person :=
    {["Ann Lee" := {["PersonFullName" := PStr "Ann Lee"; "PersonId" := PInt 3]}]} in
  head (persons_csv persons_by_name) = Some person_fields
  ∧ length (data_rows (persons_csv persons_by_name)) = size persons_by_name
  ∧ StronglySorted String.le (sorted_names (dom persons_by_name))
  ∧ ∃ p, persons_by_name !! "Ann Lee" = Some p
      ∧ data_rows (persons_csv persons_by_name) !! 0%nat
        = Some ((λ k, csv_cell (default (PStr "") (p !! k))) <$> person_fields).
Proof.
  apply (persons_csv_rows
    {["Ann Lee" := {["PersonFullName" := PStr "Ann Lee"; "PersonId" := PInt 3]}]}
    0%nat "Ann Lee").
  vm_compute. reflexivity.
Defined.

(** ** Meeting & Agenda Collector *)

Lemma item_data_spec event_id event_date links att src title d :
  Collector.item_data event_id event_date links att src title = Some d →
  item_idx d "event_item_id" = src !! "EventItemId"
  ∧ item_idx d "passed" = Some (default PNone (src !! "EventItemPassedFlag"))
  ∧ item_idx d "title" = Some (PStr title)
  ∧ item_idx d "event_id" = Some event_id
  ∧ item_idx d "event_date" = Some event_date
  ∧ item_idx d "matter_id" = Some (default PNone (src !! "EventItemMatterId"))
  ∧ item_idx d "Agenda_item_fulltext" = Some (PStr "")
  ∧ attendance d = att
  ∧ item_votes d = None.
Proof.
  unfold Collector.item_data. intros Hd.
  destruct (src !! "EventItemId") as [id|] eqn:Hid;
    cbn [mbind option_bind] in Hd; [|discriminate Hd].
  apply (inj Some) in Hd. subst d. unfold item_idx. cbn [fields attendance item_votes].
  do 7 (apply conj; [
    repeat (rewrite list_to_map_cons;
            first [ rewrite lookup_insert_eq; reflexivity
                  | rewrite lookup_insert_ne by discriminate ])|]).
  apply conj; reflexivity.
Qed.

Lemma item_data_is_Some event_id event_date links att src title :
  is_Some (Collector.item_data event_id event_date links att src title)
  ↔ is_Some (src !! "EventItemId").
Proof.
  unfold Collector.item_data.
  destruct (src !! "EventItemId") as [id|]; cbn [mbind option_bind].
  - split; intros _; by eexists.
  - split; intros [? H]; discriminate H.
Qed.

(** The title of an API item when it is kept as an agenda item *)
Lemma second_pass_spec event_id event_date links att srcs items :
  Collector.second_pass event_id event_date links att srcs = Some items →
  Forall2 (λ src it,
      ∃ title, as_text (dict_get_or_empty src "EventItemTitle") = Some title
        ∧ Collector.is_header title = false
        ∧ Collector.item_data event_id event_date links att src title = Some it)
    (filter (λ src, agenda_source src) srcs) items.
Proof.
  revert items. induction srcs as [|src srcs IH]; intros items Hs.
  { cbn in Hs. apply (inj Some) in Hs. subst. constructor. }
  cbn [Collector.second_pass] in Hs. rewrite filter_cons.
  destruct (agenda_source src) eqn:Hag; unfold agenda_source in Hag;
    destruct (as_text (dict_get_or_empty src "EventItemTitle")) as [title|] eqn:Ht;
    cbn [mbind option_bind] in Hs; try discriminate Hs; try discriminate Hag;
    destruct (Collector.is_header title) eqn:Hh; try discriminate Hag.
  - rewrite decide_True by exact I.
    destruct (Collector.item_data _ _ _ _ src title) as [d|] eqn:Hd;
      cbn [mbind option_bind] in Hs; [|discriminate Hs].
    destruct (Collector.second_pass _ _ _ _ srcs) as [rest|];
      cbn [mbind option_bind] in Hs; [|discriminate Hs].
    apply (inj Some) in Hs. subst items. constructor; [|by apply IH].
    by exists title.
  - rewrite decide_False by (intros []). by apply IH.
Qed.

Lemma read_roll_calls_spec rcs ms att ms' att' :
  Collector.read_roll_calls rcs ms att = Some (ms', att') →
  ms ⊆ ms' ∧ (dom att ⊆ ms → dom att' ⊆ ms').
Proof.
  revert ms att. induction rcs as [|rc rcs IH]; intros ms att Hr.
  { cbn in Hr. by injection Hr as <- <-. }
  cbn [Collector.read_roll_calls] in Hr.
  destruct (Collector.RollCallPersonName rc) as [n|]; [|done].
  destruct (Collector.RollCallValueName rc) as [v|]; [|done].
  cbn [mbind option_bind] in Hr. apply IH in Hr as [Hsub Hdom].
  split; [set_solver|]. intros Ha. apply Hdom. rewrite dom_insert. set_solver.
Qed.

Lemma first_pass_spec a st event_id srcs st' :
  Collector.first_pass a st event_id srcs = Some st' →
  Collector.all_members st ⊆ Collector.all_members st'
  ∧ Collector.meeting_links st' = Collector.meeting_links st
  ∧ (attendance_registered st → attendance_registered st')
  ∧ (∀ e, e ≠ event_id →
       Collector.attendance_by_meeting st' !! e = Collector.attendance_by_meeting st !! e)
  ∧ vote_requests (Collector.requests st') = vote_requests (Collector.requests st).
Proof.
  unfold Collector.first_pass. intros Hf.
  destruct (Collector.find_roll_call srcs) as [[src|]|]; cbn [mbind option_bind] in Hf;
    [|injection Hf as <-; done|done].
  destruct (src !! "EventItemId") as [id|]; cbn [mbind option_bind] in Hf; [|done].
  destruct (Collector.read_roll_calls _ _ _) as [[ms att]|] eqn:Hr;
    cbn [mbind option_bind] in Hf; [|done].
  injection Hf as <-. cbn. apply read_roll_calls_spec in Hr as [Hsub Hdom].
  split; [done|]. split; [done|]. split; [|split].
  - intros Hreg e att0. cbn. destruct (decide (event_id = e)) as [->|Hne].
    + rewrite lookup_insert_eq. intros [= <-]. apply Hdom. set_solver.
    + rewrite lookup_insert_ne by done. intros He. etrans; [by eapply Hreg|done].
  - intros e Hne. by rewrite lookup_insert_ne.
  - unfold vote_requests. rewrite omap_app. cbn. by rewrite app_nil_r.
Qed.

(** What relates an API item to the agenda item built from it *)
Lemma process_meeting_spec a st meeting st' new :
  Collector.process_meeting a st meeting = Some (st', new) →
  ∃ event_id,
    meeting !! "EventId" = Some event_id
    ∧ Forall2 (λ src it,
        is_Some (item_idx it "event_item_id")
        ∧ item_idx it "event_item_id" = src !! "EventItemId"
        ∧ item_idx it "passed" = Some (default PNone (src !! "EventItemPassedFlag"))
        ∧ item_idx it "title" = Some (dict_get_or_empty src "EventItemTitle")
        ∧ item_idx it "event_id" = Some event_id
        ∧ item_idx it "Agenda_item_fulltext" = Some (PStr "")
        ∧ attendance it
          = default ∅ (Collector.attendance_by_meeting st' !! event_id)
        ∧ item_votes it = None)
      (filter (λ src, agenda_source src) (Collector.fetch_event_items a event_id)) new
    ∧ Collector.all_members st ⊆ Collector.all_members st'
    ∧ (attendance_registered st → attendance_registered st')
    ∧ vote_requests (Collector.requests st') = vote_requests (Collector.requests st).
Proof.
  unfold Collector.process_meeting. intros Hp.
  destruct (meeting !! "EventId") as [event_id|]; cbn [mbind option_bind] in Hp; [|done].
  destruct (meeting !! "EventDate" ≫= py_slice10) as [event_date|];
    cbn [mbind option_bind] in Hp; [|done].
  destruct (Collector.first_pass _ _ _ _) as [st1|] eqn:Hf;
    cbn [mbind option_bind] in Hp; [|done].
  destruct (Collector.second_pass _ _ _ _ _) as [items|] eqn:Hs;
    cbn [mbind option_bind] in Hp; [|done].
  injection Hp as <- <-.
  apply first_pass_spec in Hf as (Hsub & _ & Hreg & _ & Hvr). cbn in Hsub, Hreg, Hvr.
  exists event_id. split; [done|]. split; [|split; [done|split]].
  - apply second_pass_spec in Hs. eapply Forall2_impl; [exact Hs|].
    intros src it (title & Ht & _ & Hd).
    assert (is_Some (src !! "EventItemId")) as Hsome.
    { apply (item_data_is_Some event_id event_date (Collector.meeting_link_entry meeting)
               (default ∅ (Collector.attendance_by_meeting st1 !! event_id)) src title).
      by eexists. }
    apply item_data_spec in Hd.
    destruct Hd as (H1 & H2 & H3 & H4 & _ & _ & H7 & H8 & H9).
    apply conj; [by rewrite H1|].
    repeat (apply conj; [done|]). apply conj; [|done].
    rewrite H3. f_equal. unfold as_text in Ht.
    by destruct (dict_get_or_empty src "EventItemTitle"); simplify_eq.
  - intros Hst. apply Hreg. intros e att. cbn. apply Hst.
  - rewrite Hvr. unfold vote_requests. rewrite omap_app. cbn. by rewrite app_nil_r.
Qed.

Lemma process_meetings_spec a st meetings st' items :
  Collector.process_meetings a st meetings = Some (st', items) →
  Forall2 (λ src it,
      is_Some (item_idx it "event_item_id")
      ∧ item_idx it "event_item_id" = src !! "EventItemId"
      ∧ item_idx it "passed" = Some (default PNone (src !! "EventItemPassedFlag"))
      ∧ item_idx it "title" = Some (dict_get_or_empty src "EventItemTitle")
      ∧ item_idx it "Agenda_item_fulltext" = Some (PStr ""))
    (agenda_sources a meetings) items
  ∧ Collector.all_members st ⊆ Collector.all_members st'
  ∧ vote_requests (Collector.requests st') = vote_requests (Collector.requests st)
  ∧ (attendance_registered st →
     attendance_registered st'
     ∧ Forall (λ it, dom (attendance it) ⊆ Collector.all_members st') items).
Proof.
  revert st st' items. induction meetings as [|meeting meetings IH];
    intros st st' items Hp.
  { cbn in Hp. injection Hp as <- <-. repeat split; try done; constructor. }
  cbn [Collector.process_meetings] in Hp.
  destruct (Collector.process_meeting a st meeting) as [[st1 new]|] eqn:Hm;
    cbn [mbind option_bind] in Hp; [|done].
  destruct (Collector.process_meetings a st1 meetings) as [[st2 more]|] eqn:Hms;
    cbn [mbind option_bind] in Hp; [|done].
  injection Hp as <- <-.
  apply process_meeting_spec in Hm as (event_id & He & Hnew & Hsub1 & Hreg1 & Hvr1).
  apply IH in Hms as (Hmore & Hsub2 & Hvr2 & Hreg2).
  split; [|split; [set_solver|split; [congruence|]]].
  - unfold agenda_sources. cbn [flat_map].
    rewrite (lookup_total_correct _ _ _ He). apply Forall2_app; [|done].
    eapply Forall2_impl; [exact Hnew|]. intros src it H. naive_solver.
  - intros Hreg. specialize (Hreg1 Hreg). destruct (Hreg2 Hreg1) as [Hreg' Hatt].
    split; [done|]. apply Forall_app. split; [|done].
    apply Forall_forall. intros it Hit.
    apply (Forall2_Forall_r _ (λ it, attendance it
             = default ∅ (Collector.attendance_by_meeting st1 !! event_id))) in Hnew.
    2:{ apply Forall_forall. intros src _ it'. naive_solver. }
    rewrite Forall_forall in Hnew. rewrite (Hnew _ Hit).
    destruct (Collector.attendance_by_meeting st1 !! event_id) as [att|] eqn:Hatt1; cbn.
    + etrans; [by eapply Hreg1|done].
    + rewrite dom_empty. set_solver.
Qed.

Lemma read_votes_fold votes (ms : gset string) (iv : gmap string pyval) :
  let step := λ '(members, item_votes) v,
    let name := default "" (Collector.VotePersonName v) in
    let value := default (PStr "") (Collector.VoteValueName v) in
    if negb (String.eqb name "")
    then (members ∪ {[name]}, <[name := value]> item_votes)
    else (members, item_votes) in
  (foldl step (ms, iv) votes).2 = (foldl step (∅, iv) votes).2
  ∧ (foldl step (ms, iv) votes).1 = ms ∪ (foldl step (∅, iv) votes).1
  ∧ dom (foldl step (∅, iv) votes).2 = dom iv ∪ (foldl step (∅, iv) votes).1.
Proof.
  intros step. revert ms iv. induction votes as [|v votes IH]; intros ms iv.
  { cbn. set_solver. }
  cbn [foldl]. unfold step at 2 4 6 8 10 12.
  destruct (negb (String.eqb (default "" (Collector.VotePersonName v)) "")).
  - destruct (IH (ms ∪ {[default "" (Collector.VotePersonName v)]})
               (<[default "" (Collector.VotePersonName v)
                  := default (PStr "") (Collector.VoteValueName v)]> iv))
      as (H1 & H2 & H3).
    destruct (IH (∅ ∪ {[default "" (Collector.VotePersonName v)]})
               (<[default "" (Collector.VotePersonName v)
                  := default (PStr "") (Collector.VoteValueName v)]> iv))
      as (H1' & H2' & _).
    fold step in H1, H2, H3, H1', H2' |- *.
    rewrite H1, H2, H1', H2', H3, dom_insert_L. set_solver.
  - apply IH.
Qed.

Lemma read_votes_spec votes ms :
  Collector.read_votes votes ms = (ms ∪ dom (votes_dict votes), votes_dict votes).
Proof.
  unfold votes_dict, Collector.read_votes.
  destruct (read_votes_fold votes ms ∅) as (H2 & H1 & Hd). cbn zeta in *.
  rewrite dom_empty_L, (left_id_L ∅ (∪)) in Hd.
  apply injective_projections; cbn [fst snd]; [by rewrite H1, Hd|done].
Qed.

Lemma omap_cons_eq {A B} (f : A → option B) (x : A) (l : list A) :
  omap f (x :: l) = match f x with Some y => y :: omap f l | None => omap f l end.
Proof. reflexivity. Qed.

Lemma third_pass_spec a st all_items st' items' :
  Collector.third_pass a st all_items = Some (st', items') →
  Forall2 (λ it it',
      fields it' = fields it ∧ attendance it' = attendance it
      ∧ ∃ p id, item_idx it "passed" = Some p
          ∧ (is_not_none p = true → item_idx it "event_item_id" = Some id)
          ∧ item_votes it'
            = Some (if is_not_none p
                    then votes_dict (Collector.fetch_item_votes a id) else ∅))
    all_items items'
  ∧ Collector.all_members st ⊆ Collector.all_members st'
  ∧ Forall (λ it', ∀ iv, item_votes it' = Some iv → dom iv ⊆ Collector.all_members st')
      items'
  ∧ vote_requests (Collector.requests st')
    = (vote_requests (Collector.requests st)
       ++ omap (λ it, if bool_decide (has_outcome it)
                      then item_idx it "event_item_id" else None) all_items)%list.
Proof.
  revert st st' items'. induction all_items as [|it rest IH]; intros st st' items' Ht.
  { cbn in Ht. injection Ht as <- <-. cbn. rewrite app_nil_r.
    repeat split; try done; constructor. }
  cbn [Collector.third_pass] in Ht.
  destruct (item_idx it "passed") as [p|] eqn:Hp; cbn [mbind option_bind] in Ht; [|done].
  assert (has_outcome it ↔ is_not_none p = true) as Hout.
  { unfold has_outcome, item_get. unfold item_idx in Hp. rewrite Hp. cbn.
    destruct p; naive_solver. }
  destruct (is_not_none p) eqn:Hnn.
  - destruct (item_idx it "event_item_id") as [id|] eqn:Hid;
      cbn [mbind option_bind] in Ht; [|done].
    rewrite read_votes_spec in Ht.
    destruct (Collector.third_pass _ _ rest) as [[st2 rest']|] eqn:Hrest;
      cbn [mbind option_bind] in Ht; [|done].
    injection Ht as <- <-.
    apply IH in Hrest as (Hf2 & Hsub & Hdom & Hvr). cbn in Hsub, Hvr.
    split; [|split; [set_solver|split]].
    + constructor; [|done]. split; [done|]. split; [done|].
      exists p, id. rewrite Hnn. done.
    + constructor; [|done]. intros iv [= <-]. set_solver.
    + rewrite Hvr. unfold vote_requests. rewrite omap_app.
      rewrite (omap_cons_eq _ it), bool_decide_eq_true_2, Hid by (by apply Hout).
      rewrite <- app_assoc. done.
  - destruct (Collector.third_pass _ _ rest) as [[st2 rest']|] eqn:Hrest;
      cbn [mbind option_bind] in Ht; [|done].
    injection Ht as <- <-.
    apply IH in Hrest as (Hf2 & Hsub & Hdom & Hvr).
    split; [|split; [done|split]].
    + constructor; [|done]. split; [done|]. split; [done|].
      exists p, PNone. rewrite Hnn. done.
    + constructor; [|done]. intros iv [= <-]. rewrite dom_empty. set_solver.
    + rewrite Hvr, (omap_cons_eq _ it).
      rewrite bool_decide_eq_false_2; [done|]. rewrite Hout. done.
Qed.

Lemma collect_event_items_inv a st meetings st' items :
  Collector.collect_event_items a st meetings = Some (st', items) →
  ∃ st1 items1,
    Collector.process_meetings a st meetings = Some (st1, items1)
    ∧ Collector.third_pass a st1 items1 = Some (st', items).
Proof.
  unfold Collector.collect_event_items. intros Hc.
  destruct (Collector.process_meetings a st meetings) as [[st1 items1]|];
    cbn [mbind option_bind] in Hc; [|done].
  by exists st1, items1.
Qed.

(** The example: the roll-call item is kept as a row; the member without a
    recorded vote inherits the absence; the voice vote gives "Yes" to
    those present. *)
Example collect_event_items_example :
  match Collector.collect_event_items example_api Collector.init example_meetings with
  | Some (st, items) =>
      Some (Collector.requests st,
            (λ it, (item_idx it "event_item_id",
                    _assign_votes it ["A"; "B"; "C"]%list)) <$> items)
  | None => None
  end
  = Some ([Collector.GetEventItems (PInt 100); Collector.GetRollCalls (PInt 1);
           Collector.GetVotes (PInt 2); Collector.GetVotes (PInt 3)]%list,
          [ (Some (PInt 1), {["A" := PStr ""; "B" := PStr ""; "C" := PStr ""]});
            (Some (PInt 2), {["A" := PStr "Yes"; "B" := PStr "Absent"; "C" := PStr "No"]});
            (Some (PInt 3), {["A" := PStr "Yes"; "B" := PStr "Absent"; "C" := PStr "Yes"]})
          ]%list).
Proof. vm_compute. reflexivity. Qed.

Lemma is_Some_true {A} (o : option A) :
  match o with Some _ => true | None => false end = true → is_Some o.
Proof. destruct o; [by eexists|discriminate]. Qed.

Lemma example_collect_Some :
  is_Some (Collector.collect_event_items example_api Collector.init example_meetings).
Proof. apply is_Some_true. vm_compute. reflexivity. Qed.

(** X18: the collected items are, in order, the API items of the meetings
    whose title is a string that is neither blank nor a 'REGULAR MEETING
    NO.' header, one agenda item per such API item: it carries that item's
    identifier, passed flag ([None] when absent) and title, and an empty
    full text. No item is lost, none is invented, headers are skipped. *)
Theorem collect_event_items_items a st meetings st' items :
  Collector.collect_event_items a st meetings = Some (st', items) →
  Forall2 (λ src it,
      agenda_source src = true
      ∧ item_idx it "event_item_id" = src !! "EventItemId"
      ∧ item_idx it "passed" = Some (default PNone (src !! "EventItemPassedFlag"))
      ∧ item_idx it "title" = Some (dict_get_or_empty src "EventItemTitle")
      ∧ item_idx it "Agenda_item_fulltext" = Some (PStr ""))
    (agenda_sources a meetings) items.
Proof.
  intros (st1 & items1 & Hp & Ht)%collect_event_items_inv.
  apply process_meetings_spec in Hp as (Hsrc & _).
  apply third_pass_spec in Ht as (Hf & _).
  assert (Forall (λ src, agenda_source src = true) (agenda_sources a meetings)) as Hag.
  { unfold agenda_sources. apply Forall_flat_map, Forall_forall. intros m _.
    apply Forall_forall. intros src [Hs _]%list_elem_of_filter.
    by apply Is_true_true. }
  revert Hag. revert items Hf.
  induction Hsrc as [|src it1 srcs items1 (_ & H1 & H2 & H3 & H4) _ IH];
    intros items Hf Hag.
  { apply Forall2_nil_inv_l in Hf as ->. constructor. }
  apply Forall2_cons_inv_l in Hf as (it & items' & (Hfields & _) & Hf' & ->).
  apply Forall_cons in Hag as [Hsrc1 Hag].
  constructor; [|by apply IH].
  unfold item_idx in *. rewrite Hfields. done.
Qed.

Lemma collect_event_items_items_witness :
  ∃ st' items,
    Collector.collect_event_items example_api Collector.init example_meetings
    = Some (st', items)
    ∧ Forall2 (λ src it,
        agenda_source src = true
        ∧ item_idx it "event_item_id" = src !! "EventItemId"
        ∧ item_idx it "passed" = Some (default PNone (src !! "EventItemPassedFlag"))
        ∧ item_idx it "title" = Some (dict_get_or_empty src "EventItemTitle")
        ∧ item_idx it "Agenda_item_fulltext" = Some (PStr ""))
      (agenda_sources example_api example_meetings) items.
Proof.
  destruct example_collect_Some as [[st' items] Hc].
  exists st', items. split; [done|]. by apply (collect_event_items_items _ _ _ _ _ Hc).
Defined.

(** X19: the member registry only grows, and after a collection it covers
    every name that occurs in the attendance or in the per-item votes of a
    collected item: each of them gets a column in the output. *)
Theorem collect_event_items_registry a st meetings st' items :
  attendance_registered st →
  Collector.collect_event_items a st meetings = Some (st', items) →
  Collector.all_members st ⊆ Collector.all_members st'
  ∧ Forall (λ it,
      dom (attendance it) ⊆ Collector.all_members st'
      ∧ ∃ iv, item_votes it = Some iv ∧ dom iv ⊆ Collector.all_members st') items.
Proof.
  intros Hreg (st1 & items1 & Hp & Ht)%collect_event_items_inv.
  apply process_meetings_spec in Hp as (_ & Hsub1 & _ & Hatt).
  destruct (Hatt Hreg) as [_ Hatt1].
  apply third_pass_spec in Ht as (Hf & Hsub2 & Hdom & _).
  split; [set_solver|].
  apply Forall_forall. intros it' Hit'.
  apply list_elem_of_lookup in Hit' as [i Hi].
  destruct (Forall2_lookup_r _ _ _ _ _ Hf Hi) as (it & Hi1 & _ & Ha & p & id & _ & _ & Hiv).
  split.
  - rewrite Ha. rewrite Forall_forall in Hatt1.
    etrans; [apply Hatt1; by eapply list_elem_of_lookup_2|done].
  - eexists. split; [done|]. rewrite Forall_forall in Hdom.
    apply (Hdom it'); [by eapply list_elem_of_lookup_2|done].
Qed.

Lemma collect_event_items_registry_witness :
  ∃ st' items,
    Collector.collect_event_items example_api Collector.init example_meetings
    = Some (st', items)
    ∧ Collector.all_members Collector.init ⊆ Collector.all_members st'
    ∧ Forall (λ it,
        dom (attendance it) ⊆ Collector.all_members st'
        ∧ ∃ iv, item_votes it = Some iv ∧ dom iv ⊆ Collector.all_members st') items.
Proof.
  destruct example_collect_Some as [[st' items] Hc].
  exists st', items. split; [done|].
  apply (collect_event_items_registry example_api Collector.init example_meetings);
    [|done].
  intros e att H. vm_compute in H. discriminate H.
Defined.

(** X20: after a collection every item has a per-item vote mapping: the
    empty one when its passed flag is [None], and otherwise the mapping
    built from the votes returned for its identifier. The vote endpoint is
    queried once for each item with an outcome, in the order of the items,
    and never for an item without outcome. *)
Theorem collect_event_items_votes a st meetings st' items :
  Collector.collect_event_items a st meetings = Some (st', items) →
  Forall (λ it,
      ∃ p id, item_idx it "passed" = Some p
        ∧ (p ≠ PNone → item_idx it "event_item_id" = Some id)
        ∧ item_votes it
          = Some (if bool_decide (p ≠ PNone)
                  then votes_dict (Collector.fetch_item_votes a id) else ∅)) items
  ∧ vote_requests (Collector.requests st')
    = (vote_requests (Collector.requests st)
       ++ omap (λ it, if bool_decide (has_outcome it)
                      then item_idx it "event_item_id" else None) items)%list.
Proof.
  intros (st1 & items1 & Hp & Ht)%collect_event_items_inv.
  apply process_meetings_spec in Hp as (_ & _ & Hvr1 & _).
  apply third_pass_spec in Ht as (Hf & _ & _ & Hvr2).
  split.
  - apply Forall_forall. intros it' Hit'.
    apply list_elem_of_lookup in Hit' as [i Hi].
    destruct (Forall2_lookup_r _ _ _ _ _ Hf Hi)
      as (it & Hi1 & Hfields & _ & p & id & Hpa & Hid & Hiv).
    exists p, id. unfold item_idx in *. rewrite Hfields.
    split; [done|]. split.
    + intros Hne. apply Hid. by destruct p.
    + rewrite Hiv. by destruct p.
  - rewrite Hvr2, Hvr1. f_equal.
    clear -Hf. induction Hf as [|it it' l l' (Hfields & _) _ IH]; [done|].
    rewrite !omap_cons_eq, IH.
    assert (has_outcome it ↔ has_outcome it') as Hiff.
    { unfold has_outcome, item_get. by rewrite Hfields. }
    rewrite (bool_decide_ext _ _ Hiff). unfold item_idx. by rewrite Hfields.
Qed.

Lemma collect_event_items_votes_witness :
  ∃ st' items,
    Collector.collect_event_items example_api Collector.init example_meetings
    = Some (st', items)
    ∧ vote_requests (Collector.requests st')
      = (vote_requests (Collector.requests Collector.init)
         ++ omap (λ it, if bool_decide (has_outcome it)
                        then item_idx it "event_item_id" else None) items)%list.
Proof.
  destruct example_collect_Some as [[st' items] Hc].
  exists st', items. split; [done|].
  by apply (collect_event_items_votes _ _ _ _ _ Hc).
Defined.

Lemma process_meetings_bad_meeting a st meetings meeting :
  meeting ∈ meetings →
  (meeting !! "EventId" = None ∨ meeting !! "EventDate" ≫= as_text = None) →
  Collector.process_meetings a st meetings = None.
Proof.
  intros Hin Hbad. revert st. induction meetings as [|m ms IH]; intros st.
  { by apply elem_of_nil in Hin. }
  cbn [Collector.process_meetings].
  apply elem_of_cons in Hin as [<-|Hin].
  - assert (Collector.process_meeting a st meeting = None) as ->; [|done].
    unfold Collector.process_meeting.
    destruct Hbad as [-> | Hd]; [done|].
    destruct (meeting !! "EventId") as [e|]; [|done]. cbn [mbind option_bind].
    destruct (meeting !! "EventDate") as [[| |s]|]; try done.
  - destruct (Collector.process_meeting a st m) as [[st1 new]|]; [|done].
    cbn [mbind option_bind]. by rewrite IH.
Qed.

(** X21: a meeting without an ['EventId'] entry, or whose ['EventDate'] is
    missing or not a string, makes the whole collection raise, wherever it
    stands in the list of meetings. *)
Theorem collect_event_items_bad_meeting a st meetings meeting :
  meeting ∈ meetings →
  (meeting !! "EventId" = None ∨ meeting !! "EventDate" ≫= as_text = None) →
  Collector.collect_event_items a st meetings = None.
Proof.
  intros Hin Hbad. unfold Collector.collect_event_items.
  by rewrite (process_meetings_bad_meeting _ _ _ _ Hin Hbad).
Qed.

Lemma collect_event_items_bad_meeting_witness :
  Collector.collect_event_items example_api Collector.init
    (example_meetings ++ [ {["EventId" := PInt 101; "EventDate" := PNone]} ]) = None.
Proof.
  apply (collect_event_items_bad_meeting _ _ _
           {["EventId" := PInt 101; "EventDate" := PNone]}).
  - apply elem_of_app. right. apply list_elem_of_here.
  - right. vm_compute. reflexivity.
Defined.

Lemma collect_event_items_keys a st meetings st' items :
  Collector.collect_event_items a st meetings = Some (st', items) →
  Forall (λ it, is_Some (item_idx it "event_item_id")
                ∧ is_Some (item_idx it "passed")) items.
Proof.
  intros (st1 & items1 & Hp & Ht)%collect_event_items_inv.
  apply process_meetings_spec in Hp as (Hsrc & _).
  apply third_pass_spec in Ht as (Hf & _).
  apply Forall_forall. intros it' Hit'.
  apply list_elem_of_lookup in Hit' as [i Hi].
  destruct (Forall2_lookup_r _ _ _ _ _ Hf Hi) as (it & Hi1 & Hfields & _).
  destruct (Forall2_lookup_r _ _ _ _ _ Hsrc Hi1) as (src & _ & Hid & _ & Hpa & _).
  unfold item_idx in *. rewrite Hfields. split; [done|by eexists].
Qed.

Lemma preserve_text_passed text_map all_items items' :
  preserve_text text_map all_items = Some items' →
  Forall2 (λ it it', item_idx it' "passed" = item_idx it "passed") all_items items'.
Proof.
  unfold preserve_text. intros H. apply mapM_Some in H.
  eapply Forall2_impl; [exact H|]. intros it it' Hit. cbn in Hit.
  destruct (item_idx it "event_item_id") as [eid|]; [|done]. cbn in Hit.
  destruct (text_map !! py_str eid); injection Hit as <-; [|done].
  by apply item_set_idx_ne.
Qed.

(** X22: the items the collector produces are fit for the later phases: a
    run with [skip_text] set whose collection phase is the collector above
    and does not raise completes. Enrichment and text preservation keep
    the ['event_item_id'] and ['passed'] entries they and [write_output]
    read, so no lookup raises. *)
Theorem run_completes_after_collection a env self fs st' items :
  skip_text self = true →
  Collector.collect_event_items a Collector.init (fetch_meetings env)
    = Some (st', items) →
  collect_event_items env (fetch_meetings env) = (Collector.all_members st', items) →
  is_Some (run env self fs).
Proof.
  intros Hskip Hc Horacle. unfold run, run_items.
  destruct (fetch_meetings env) as [|m ms] eqn:Hm; [by eexists|].
  rewrite Horacle. rewrite enrich_matter_data_unfold. cbn zeta.
  cbn [skip_text set_matter_cache set_all_members]. rewrite Hskip. cbn [negb].
  apply collect_event_items_keys in Hc.
  set (cache := foldl _ _ _).
  assert (Forall (λ it, is_Some (item_idx it "event_item_id")
                        ∧ is_Some (item_idx it "passed")) (populate_item cache <$> items))
    as Hkeys.
  { apply Forall_fmap. eapply Forall_impl; [exact Hc|]. intros it [H1 H2]. cbn.
    rewrite !populate_item_other; [done|by apply (bool_decide_unpack _)..]. }
  assert (Forall (λ it, is_Some (item_idx it "event_item_id"))
            (populate_item cache <$> items)) as Hid.
  { eapply Forall_impl; [exact Hkeys|]. by intros it [? ?]. }
  assert (Forall (λ it, is_Some (item_idx it "passed"))
            (populate_item cache <$> items)) as Hpa.
  { eapply Forall_impl; [exact Hkeys|]. by intros it [? ?]. }
  match goal with |- context [load_existing_text ?s fs] =>
    set (text_map := load_existing_text s fs) end.
  case_bool_decide as Htm.
  - destruct (preserve_text_spec text_map _ Hid) as (items' & Hpr & _).
    rewrite Hpr. cbn [mbind option_bind].
    apply preserve_text_passed in Hpr.
    rewrite write_output_eq; [by eexists|].
    apply Forall_forall. intros it' Hit'.
    apply list_elem_of_lookup in Hit' as [i Hi].
    destruct (Forall2_lookup_r _ _ _ _ _ Hpr Hi) as (it & Hi1 & ->).
    rewrite Forall_forall in Hpa. apply Hpa. by eapply list_elem_of_lookup_2.
  - cbn [mbind option_bind]. rewrite write_output_eq; [by eexists|done].
Qed.

Lemma run_completes_after_collection_witness :
  is_Some (run example_collecting_environment example_workflow example_file_system).
Proof.
  destruct example_collect_Some as [[st' items] Hc].
  apply (run_completes_after_collection example_api example_collecting_environment
           example_workflow example_file_system st' items).
  - reflexivity.
  - exact Hc.
  - cbn [fetch_meetings collect_event_items example_collecting_environment].
    unfold collected. rewrite Hc. reflexivity.
Defined.

Lemma read_roll_calls_attendance rcs ms att ms' att' ms2 :
  Collector.read_roll_calls rcs ms att = Some (ms', att') →
  snd <$> Collector.read_roll_calls rcs ms2 att = Some att'.
Proof.
  revert ms att ms2. induction rcs as [|rc rcs IH]; intros ms att ms2 Hr.
  { cbn in Hr. by injection Hr as <- <-. }
  cbn [Collector.read_roll_calls] in *.
  destruct (Collector.RollCallPersonName rc) as [n|]; [|done].
  destruct (Collector.RollCallValueName rc) as [v|]; [|done].
  cbn [mbind option_bind] in *. by eapply IH.
Qed.

Lemma second_pass_attendance event_id event_date links att srcs items :
  Collector.second_pass event_id event_date links att srcs = Some items →
  Forall (λ it, attendance it = att) items.
Proof.
  intros Hs%second_pass_spec. apply Forall_forall. intros it Hit.
  apply list_elem_of_lookup in Hit as [i Hi].
  destruct (Forall2_lookup_r _ _ _ _ _ Hs Hi) as (src & _ & title & _ & _ & Hd).
  apply item_data_spec in Hd. tauto.
Qed.

(** X23: all agenda items of one meeting carry the same attendance
    mapping, whether they stand before or after the roll call in the
    agenda. It is read from the roll calls of the first API item whose
    title, in upper case, contains 'ROLL CALL' (later such items are not
    queried); when the meeting has no such item it is what was stored for
    the meeting identifier before, the empty mapping if nothing was. *)
Theorem process_meeting_attendance a st meeting st' new event_id :
  Collector.process_meeting a st meeting = Some (st', new) →
  meeting !! "EventId" = Some event_id →
  ∃ att, Forall (λ it, attendance it = att) new
    ∧ match Collector.find_roll_call (Collector.fetch_event_items a event_id) with
      | Some (Some src) =>
          ∃ id, src !! "EventItemId" = Some id
            ∧ roll_call_dict (Collector.fetch_roll_calls a id) = Some att
      | Some None =>
          att = default ∅ (Collector.attendance_by_meeting st !! event_id)
      | None => False
      end.
Proof.
  unfold Collector.process_meeting. intros Hp He. rewrite He in Hp.
  cbn [mbind option_bind] in Hp.
  destruct (meeting !! "EventDate" ≫= py_slice10) as [event_date|];
    cbn [mbind option_bind] in Hp; [|done].
  destruct (Collector.first_pass _ _ _ _) as [st1|] eqn:Hf;
    cbn [mbind option_bind] in Hp; [|done].
  destruct (Collector.second_pass _ _ _ _ _) as [items|] eqn:Hs;
    cbn [mbind option_bind] in Hp; [|done].
  injection Hp as <- <-.
  eexists. split; [by eapply second_pass_attendance|].
  unfold Collector.first_pass in Hf.
  destruct (Collector.find_roll_call _) as [[src|]|]; cbn [mbind option_bind] in Hf;
    [|by injection Hf as <-|done].
  destruct (src !! "EventItemId") as [id|]; cbn [mbind option_bind] in Hf; [|done].
  destruct (Collector.read_roll_calls _ _ _) as [[ms att]|] eqn:Hr;
    cbn [mbind option_bind] in Hf; [|done].
  injection Hf as <-. cbn. rewrite lookup_insert_eq. cbn.
  exists id. split; [done|]. unfold roll_call_dict.
  by eapply read_roll_calls_attendance.
Qed.

Lemma process_meeting_attendance_witness :
  ∃ st' new,
    Collector.process_meeting example_api Collector.init
      {["EventId" := PInt 100; "EventDate" := PStr "2023-01-09T00:00:00"]}
    = Some (st', new)
    ∧ new ≠ []
    ∧ Forall (λ it, attendance it
                    = {["A" := PStr "Present"; "B" := PStr "Absent";
                        "C" := PStr "Present"]}) new.
Proof.
  set (meeting := ({["EventId" := PInt 100; "EventDate" := PStr "2023-01-09T00:00:00"]}
                   : gmap string pyval)).
  assert (match Collector.process_meeting example_api Collector.init meeting with
          | Some (_, _ :: _) => true
          | _ => false
          end = true) as Hne by (vm_compute; reflexivity).
  destruct (Collector.process_meeting example_api Collector.init meeting)
    as [[st' new]|] eqn:Hp; [|discriminate Hne].
  exists st', new. split; [reflexivity|].
  split; [by destruct new|].
  destruct (process_meeting_attendance _ _ _ _ _ (PInt 100) Hp) as (att & Hall & Hatt).
  { vm_compute. reflexivity. }
  assert (Collector.find_roll_call
            (Collector.fetch_event_items example_api (PInt 100))
          = Some (Some {["EventItemId" := PInt 1; "EventItemTitle" := PStr "Roll Call"]}))
    as Hfind by (vm_compute; reflexivity).
  rewrite Hfind in Hatt. destruct Hatt as (id & Hid & Hrc).
  assert (({["EventItemId" := PInt 1; "EventItemTitle" := PStr "Roll Call"]}
           : gmap string pyval) !! "EventItemId" = Some (PInt 1))
    as Hid1 by (vm_compute; reflexivity).
  rewrite Hid1 in Hid. apply (inj Some) in Hid. subst id.
  assert (roll_call_dict (Collector.fetch_roll_calls example_api (PInt 1))
          = Some {["A" := PStr "Present"; "B" := PStr "Absent"; "C" := PStr "Present"]})
    as Hrc1 by (vm_compute; reflexivity).
  rewrite Hrc1 in Hrc. apply (inj Some) in Hrc. subst att. exact Hall.
Defined.

(** ** Persons *)

(** X24: [fetch_persons] keys the persons by full name: a name that is
    missing, null or empty gives no entry, and of several persons with the
    same name the one listed last is kept. *)
Theorem fetch_persons_lookup persons_raw name :
  Persons.fetch_persons persons_raw !! name
  = if truthy name
    then last (filter (λ p, person_name p = name) persons_raw)
    else None.
Proof.
  unfold Persons.fetch_persons.
  induction persons_raw as [|p raw IH] using rev_ind.
  { cbn. rewrite lookup_empty. by destruct (truthy name). }
  rewrite foldl_app, filter_app. cbn [foldl]. fold (person_name p).
  rewrite filter_cons, filter_nil.
  destruct (decide (person_name p = name)) as [Heq|Hne].
  - rewrite last_snoc. rewrite Heq. destruct (truthy name) eqn:Ht.
    + by rewrite lookup_insert_eq.
    + by rewrite IH.
  - rewrite app_nil_r.
    destruct (truthy (person_name p)); [|done].
    by rewrite lookup_insert_ne.
Qed.

(** ** Full text scraper *)

Lemma prefix_refl p : String.prefix p p = true.
Proof.
  induction p as [|a p IH]; [done|]. cbn. by destruct (ascii_dec a a).
Qed.

Lemma prefix_app p s x : String.prefix p s = true → String.prefix p (s ++ x) = true.
Proof.
  revert s. induction p as [|a p IH]; intros s H; [by destruct (s ++ x)|].
  destruct s as [|b s]; [cbn in H; done|]. rewrite string_app_cons. cbn in *.
  destruct (ascii_dec a b); [by apply IH|done].
Qed.

Lemma contains_prefix p s : String.prefix p s = true → contains p s = true.
Proof. intros H. destruct s; cbn [contains]; by rewrite H. Qed.

Lemma contains_cons p c s : contains p s = true → contains p (String c s) = true.
Proof. intros H. cbn [contains]. rewrite H. apply orb_true_r. Qed.

Lemma contains_app_l p s x : contains p s = true → contains p (s ++ x) = true.
Proof.
  induction s as [|c s IH]; intros H.
  - cbn [contains] in H. rewrite orb_false_r in H. apply contains_prefix.
    by apply (prefix_app p "" x).
  - cbn [contains] in H. apply orb_true_iff in H as [H|H].
    + apply contains_prefix. by apply prefix_app.
    + rewrite string_app_cons. apply contains_cons. by apply IH.
Qed.

Lemma contains_app_r p s : contains p (s ++ p) = true.
Proof.
  induction s as [|c s IH].
  - rewrite string_app_empty. apply contains_prefix, prefix_refl.
  - rewrite string_app_cons. by apply contains_cons.
Qed.

Lemma replace_contains old new s :
  old ≠ "" → contains old s = true → contains new (replace old new s) = true.
Proof.
  intros Hold. unfold replace. induction s as [|c s IH]; intros H.
  - cbn [contains] in H. rewrite orb_false_r in H. by destruct old.
  - cbn [replace_from]. cbn [contains] in H.
    destruct (String.prefix old (String c s)).
    + apply contains_app_l, contains_prefix, prefix_refl.
    + apply contains_cons. by apply IH.
Qed.

(** X25: the address [extract_full_text] navigates to always asks for the
    full text; amending is idempotent; an address that already asks for it
    is used as it is, and any other one is made to select the text tab,
    whether or not it carried options before. *)
Theorem full_text_url_amended legislation_url :
  contains "FullText=1" (full_text_url legislation_url) = true
  ∧ full_text_url (full_text_url legislation_url) = full_text_url legislation_url
  ∧ if contains "FullText=1" legislation_url
    then full_text_url legislation_url = legislation_url
    else contains "Options=ID|Text|" (full_text_url legislation_url) = true.
Proof.
  assert (contains "FullText=1" (full_text_url legislation_url) = true) as Hft.
  { unfold full_text_url.
    destruct (contains "FullText=1" legislation_url) eqn:Hc; cbn [negb]; [done|].
    change "&FullText=1" with ("&" ++ "FullText=1").
    rewrite <- string_app_assoc. apply contains_app_r. }
  split; [done|]. split.
  - unfold full_text_url at 1. by rewrite Hft.
  - unfold full_text_url.
    destruct (contains "FullText=1" legislation_url) eqn:Hc; cbn [negb]; [done|].
    apply contains_app_l.
    destruct (contains "Options=" legislation_url) eqn:Ho.
    + by apply replace_contains.
    + rewrite <- string_app_assoc. apply contains_app_r.
Qed.

Example full_text_url_examples :
  full_text_url "https://x/LegislationDetail.aspx?ID=1&GUID=2"
  = "https://x/LegislationDetail.aspx?ID=1&GUID=2&Options=ID|Text|&FullText=1"
  ∧ full_text_url "https://x/LegislationDetail.aspx?ID=1&Options=&Search="
    = "https://x/LegislationDetail.aspx?ID=1&Options=ID|Text|&Search=&FullText=1"
  ∧ full_text_url "https://x/LegislationDetail.aspx"
    = "https://x/LegislationDetail.aspx?Options=ID|Text|&FullText=1".
Proof. repeat split; vm_compute; reflexivity. Qed.

Example strip_examples :
  strip "  WHEREAS, the council  " = "WHEREAS, the council"
  ∧ strip (String "009" (String "010" "")) = ""
  ∧ strip "a b" = "a b".
Proof. repeat split; vm_compute; reflexivity. Qed.

(** ** The voted-items file of the single-quarter script *)

Lemma q1_voted_row_eq it fieldnames members_list :
  q1_voted_row it fieldnames members_list = q1_row it fieldnames members_list.
Proof.
  unfold q1_voted_row, q1_row.
  destruct (item_idx it "passed") as [p|]; [|done]. cbn [mbind option_bind].
  destruct (py_eq_one p); [done|]. by destruct (py_eq_zero p).
Qed.

Lemma q1_row_is_Some it fieldnames members_list :
  is_Some (q1_row it fieldnames members_list) → is_Some (item_idx it "passed").
Proof.
  unfold q1_row. destruct (item_idx it "passed") as [p|]; [by eexists|].
  intros [? H]. discriminate H.
Qed.

Lemma mapM_filter_sublist {A B} (f : A → option B) (P : A → Prop)
    `{!∀ x, Decision (P x)} l rows :
  mapM f l = Some rows →
  ∃ rows', mapM f (filter P l) = Some rows' ∧ rows' `sublist_of` rows.
Proof.
  revert rows. induction l as [|x l IH]; intros rows Hm.
  { cbn in Hm. injection Hm as <-. by exists []. }
  cbn [mapM] in Hm. destruct (f x) as [y|] eqn:Hy; cbn [mbind option_bind] in Hm; [|done].
  destruct (mapM f l) as [ys|]; cbn [mbind option_bind] in Hm; [|done].
  injection Hm as <-. destruct (IH ys eq_refl) as (rows' & Hr & Hsub).
  rewrite filter_cons. destruct (decide (P x)).
  - exists (y :: rows'). cbn [mapM]. rewrite Hy, Hr. split; [done|].
    by apply sublist_skip.
  - exists rows'. split; [done|]. by apply sublist_cons.
Qed.

(** X26: in the single-quarter script the voted-items file is the
    all-items file without the rows of the items whose passed flag is
    [None]: the second loop writes, for the items it keeps, the rows the
    first loop wrote, in the same order. *)
Theorem q1_voted_rows_sublist all_items fieldnames members_list rows :
  q1_rows all_items fieldnames members_list = Some rows →
  ∃ voted,
    q1_voted_rows all_items fieldnames members_list = Some voted
    ∧ q1_rows (filter has_outcome all_items) fieldnames members_list = Some voted
    ∧ voted `sublist_of` rows.
Proof.
  unfold q1_rows, q1_voted_rows. intros H.
  assert (Forall (λ i, is_Some (item_idx i "passed")) all_items) as Hp.
  { assert (is_Some (mapM (λ it, q1_row it fieldnames members_list) all_items)) as Hs
      by (by eexists).
    apply mapM_is_Some in Hs. eapply Forall_impl; [exact Hs|].
    intros it. apply q1_row_is_Some. }
  rewrite (voted_only_filter _ Hp). cbn [mbind option_bind].
  destruct (mapM_filter_sublist _ has_outcome _ _ H) as (voted & Hv & Hsub).
  exists voted. split; [|done].
  rewrite <- Hv. clear. induction (filter has_outcome all_items) as [|x l IH]; [done|].
  cbn [mapM]. by rewrite q1_voted_row_eq, IH.
Qed.

Lemma q1_voted_rows_sublist_witness :
  ∃ rows voted,
    q1_rows example_items item_fieldnames ["A"; "B"]%list = Some rows
    ∧ q1_voted_rows example_items item_fieldnames ["A"; "B"]%list = Some voted
    ∧ voted `sublist_of` rows.
Proof.
  assert (is_Some (q1_rows example_items item_fieldnames ["A"; "B"]%list)) as [rows Hr].
  { apply is_Some_true. vm_compute. reflexivity. }
  destruct (q1_voted_rows_sublist _ _ _ _ Hr) as (voted & Hv & _ & Hsub).
  by exists rows, voted.
Defined.

(** ** The scraping loop *)

Lemma scrape_item_spec page file_to_url_all it it' :
  Scraper.scrape_item page file_to_url_all it = Some it' →
  it' = it
  ∨ ∃ legislation_url full_text,
      Scraper.extract_full_text page legislation_url = Some full_text
      ∧ full_text ≠ ""
      ∧ it' = item_set "Agenda_item_fulltext" (PStr full_text) it.
Proof.
  unfold Scraper.scrape_item. intros H.
  destruct (item_idx it "matter_file") as [mf|]; cbn [mbind option_bind] in H; [|done].
  destruct (Scraper.url_of file_to_url_all mf) as [url|]; [|left; congruence].
  destruct (String.eqb url ""); [left; congruence|].
  destruct (Scraper.extract_full_text page url) as [text|] eqn:He; [|left; congruence].
  destruct (String.eqb text "") eqn:Ht; cbn [negb] in H; [left; congruence|].
  right. exists url, text. apply String.eqb_neq in Ht. split; [done|]. split; [done|].
  congruence.
Qed.

(** X27: scraping keeps the number and order of the items and writes
    nothing but the full text, and that only with a non-empty text the
    legislation page gave: an item without (truthy) matter file is left as
    it is, a text already there is never blanked, and every other entry,
    the attendance, the per-item votes and hence the assigned votes of
    every item are unchanged. *)
Theorem scrape_full_text_frame page meeting_links all_items items' :
  Scraper.scrape_full_text page meeting_links all_items = Some items' →
  Forall2 (λ it it',
      (Scraper.has_matter_file it ≠ Some true → it' = it)
      ∧ (it' = it
         ∨ ∃ legislation_url full_text,
             Scraper.extract_full_text page legislation_url = Some full_text
             ∧ full_text ≠ ""
             ∧ it' = item_set "Agenda_item_fulltext" (PStr full_text) it)
      ∧ (∀ k, k ≠ "Agenda_item_fulltext" → item_idx it' k = item_idx it k)
      ∧ attendance it' = attendance it
      ∧ item_votes it' = item_votes it
      ∧ ∀ members_list, _assign_votes it' members_list = _assign_votes it members_list)
    all_items items'.
Proof.
  unfold Scraper.scrape_full_text. intros H.
  destruct (Scraper.items_with_matter all_items) as [with_matter|];
    cbn [mbind option_bind] in H; [|done].
  destruct (Scraper.meeting_urls _ _ _ _ _) as [urls|];
    cbn [mbind option_bind] in H; [|done].
  apply mapM_Some in H. eapply Forall2_impl; [exact H|].
  intros it it' Hit. cbn in Hit.
  assert (it' = it
          ∨ ∃ legislation_url full_text,
              Scraper.extract_full_text page legislation_url = Some full_text
              ∧ full_text ≠ ""
              ∧ it' = item_set "Agenda_item_fulltext" (PStr full_text) it) as Hcases.
  { case_bool_decide; [by eapply scrape_item_spec|left; congruence]. }
  split; [|split; [exact Hcases|]].
  { intros Hno. case_bool_decide; [done|congruence]. }
  destruct Hcases as [->|(url & text & _ & _ & ->)]; [done|].
  split; [intros k Hk; by apply item_set_idx_ne|].
  split; [done|]. split; [done|].
  intros ms. apply assign_votes_depends; try done.
  unfold item_get.
  pose proof (item_set_idx_ne "Agenda_item_fulltext" "passed" (PStr text) it) as Hpa.
  unfold item_idx in Hpa. by rewrite Hpa.
Qed.

Example scrape_full_text_example :
  fmap (M := list) (λ it, item_idx it "Agenda_item_fulltext")
    <$> Scraper.scrape_full_text example_browser example_meeting_links
          example_scrape_items
  = Some [ Some (PStr "WHEREAS, the council"); Some (PStr "old"); Some (PStr "") ]%list.
Proof. vm_compute. reflexivity. Qed.

Lemma scrape_full_text_frame_witness :
  ∃ items',
    Scraper.scrape_full_text example_browser example_meeting_links example_scrape_items
    = Some items'
    ∧ Forall2 (λ it it', ∀ members_list,
                 _assign_votes it' members_list = _assign_votes it members_list)
        example_scrape_items items'.
Proof.
  assert (is_Some (Scraper.scrape_full_text example_browser example_meeting_links
                     example_scrape_items)) as [items' Hs].
  { apply is_Some_true. vm_compute. reflexivity. }
  exists items'. split; [done|].
  eapply Forall2_impl; [exact (scrape_full_text_frame _ _ _ _ Hs)|].
  intros it it' H. apply H.
Defined.

Lemma items_with_matter_Some all_items r :
  Scraper.items_with_matter all_items = Some r →
  Forall (λ it, is_Some (item_idx it "matter_file")) all_items
  ∧ r = filter (λ it, Scraper.has_matter_file it = Some true) all_items.
Proof.
  revert r. induction all_items as [|it rest IH]; intros r H.
  { cbn in H. injection H as <-. split; [constructor|done]. }
  cbn [Scraper.items_with_matter] in H. rewrite filter_cons.
  unfold Scraper.has_matter_file in *.
  destruct (item_idx it "matter_file") as [mf|] eqn:Hmf; [|done].
  cbn [fmap option_fmap option_map mbind option_bind] in H.
  destruct (Scraper.items_with_matter rest) as [rest'|];
    cbn [mbind option_bind] in H; [|done].
  injection H as <-. destruct (IH rest' eq_refl) as [Hall ->].
  split; [constructor; [by eexists|done]|].
  cbn [fmap option_fmap option_map].
  destruct (truthy mf).
  - by rewrite decide_True.
  - rewrite decide_False; [done|]. intros [=].
Qed.

Lemma items_with_matter_is_Some all_items :
  Forall (λ it, is_Some (item_idx it "matter_file")) all_items →
  is_Some (Scraper.items_with_matter all_items).
Proof.
  induction 1 as [|it rest [mf Hmf] _ [r IH]]; [by eexists|].
  cbn [Scraper.items_with_matter]. unfold Scraper.has_matter_file.
  rewrite Hmf, IH. by eexists.
Qed.

Lemma meeting_urls_Some page meeting_links urls processed l r :
  Scraper.meeting_urls page meeting_links urls processed l = Some r →
  (∀ e, e ∈ processed → has_insite_url meeting_links e) →
  Forall (λ it, ∃ e, item_idx it "event_id" = Some e
                  ∧ has_insite_url meeting_links e) l.
Proof.
  revert urls processed. induction l as [|it rest IH]; intros urls processed H Hproc.
  { constructor. }
  cbn [Scraper.meeting_urls] in H.
  destruct (item_idx it "event_id") as [e|] eqn:He; cbn [mbind option_bind] in H; [|done].
  destruct (decide (e ∈ processed)) as [Hin|Hnin].
  - constructor; [exists e; split; [done|by apply Hproc]|]. by eapply IH.
  - destruct (meeting_links !! e) as [links|] eqn:Hl;
      cbn [mbind option_bind] in H; [|done].
    destruct (links !! "insite_url") as [u|] eqn:Hu;
      cbn [mbind option_bind] in H; [|done].
    assert (has_insite_url meeting_links e) as Hgood.
    { exists links. split; [done|]. by eexists. }
    constructor; [by exists e|].
    eapply IH; [exact H|]. intros e' [Hin| ->%elem_of_singleton]%elem_of_union; [|done].
    by apply Hproc.
Qed.

Lemma meeting_urls_is_Some page meeting_links urls processed l :
  Forall (λ it, ∃ e, item_idx it "event_id" = Some e
                  ∧ has_insite_url meeting_links e) l →
  is_Some (Scraper.meeting_urls page meeting_links urls processed l).
Proof.
  intros H. revert urls processed.
  induction H as [|it rest (e & He & links & Hl & u & Hu) _ IH]; intros urls processed.
  { by eexists. }
  cbn [Scraper.meeting_urls]. rewrite He. cbn [mbind option_bind].
  destruct (decide (e ∈ processed)); [apply IH|].
  rewrite Hl. cbn [mbind option_bind]. rewrite Hu. cbn [mbind option_bind]. apply IH.
Qed.

Lemma scrape_full_text_is_Some page meeting_links all_items :
  Forall (scrapable meeting_links) all_items →
  is_Some (Scraper.scrape_full_text page meeting_links all_items).
Proof.
  intros Hall. unfold Scraper.scrape_full_text.
  assert (Forall (λ it, is_Some (item_idx it "matter_file")) all_items) as Hmf.
  { eapply Forall_impl; [exact Hall|]. intros it (mf & Hmf & _). by eexists. }
  destruct (items_with_matter_is_Some _ Hmf) as [r Hr]. rewrite Hr.
  cbn [mbind option_bind]. apply items_with_matter_Some in Hr as [_ ->].
  edestruct (meeting_urls_is_Some page meeting_links ∅ ∅) as [urls Hurls];
    [|rewrite Hurls].
  { apply Forall_forall. intros it [Hflag Hin]%list_elem_of_filter.
    rewrite Forall_forall in Hall. destruct (Hall it Hin) as (mf & Hmf' & Hev).
    apply Hev. unfold Scraper.has_matter_file in Hflag. rewrite Hmf' in Hflag.
    by injection Hflag. }
  cbn [mbind option_bind]. apply mapM_is_Some.
  eapply Forall_impl; [exact Hmf|]. intros it [mf Hmf']. cbn.
  case_bool_decide; [|by eexists].
  unfold Scraper.scrape_item. rewrite Hmf'. cbn [mbind option_bind].
  destruct (Scraper.url_of urls mf) as [url|]; [|by eexists].
  destruct (String.eqb url ""); [by eexists|].
  destruct (Scraper.extract_full_text page url) as [text|]; [|by eexists].
  destruct (negb (String.eqb text "")); by eexists.
Qed.

(** X28: given a browser page, [scrape_full_text] completes exactly when
    every item has a ['matter_file'] entry and every item with a truthy
    matter file has an ['event_id'] whose meeting has an ['insite_url']
    entry in [meeting_links]; whatever the page does then is caught. *)
Theorem scrape_full_text_defined page meeting_links all_items :
  is_Some (Scraper.scrape_full_text page meeting_links all_items)
  ↔ Forall (scrapable meeting_links) all_items.
Proof.
  split; [|apply scrape_full_text_is_Some].
  intros [items' H]. unfold Scraper.scrape_full_text in H.
  destruct (Scraper.items_with_matter all_items) as [with_matter|] eqn:Hw;
    cbn [mbind option_bind] in H; [|done].
  destruct (Scraper.meeting_urls _ _ _ _ _) as [urls|] eqn:Hu;
    cbn [mbind option_bind] in H; [|done].
  apply items_with_matter_Some in Hw as [Hmf ->].
  apply meeting_urls_Some in Hu; [|set_solver].
  apply Forall_forall. intros it Hin.
  rewrite Forall_forall in Hmf. destruct (Hmf it Hin) as [mf Hmf'].
  exists mf. split; [done|]. intros Ht.
  rewrite Forall_forall in Hu. apply Hu. apply list_elem_of_filter. split; [|done].
  unfold Scraper.has_matter_file. rewrite Hmf'. cbn. by rewrite Ht.
Qed.

Lemma item_data_matter_file event_id event_date links att src title d :
  Collector.item_data event_id event_date links att src title = Some d →
  item_idx d "matter_file"
  = Some (default (PStr "") (src !! "EventItemMatterFile")).
Proof.
  unfold Collector.item_data. intros Hd.
  destruct (src !! "EventItemId") as [id|] eqn:Hid;
    cbn [mbind option_bind] in Hd; [|discriminate Hd].
  apply (inj Some) in Hd. subst d. unfold item_idx. cbn [fields].
  repeat (rewrite list_to_map_cons;
          first [ rewrite lookup_insert_eq; reflexivity
                | rewrite lookup_insert_ne by discriminate ]).
Qed.

Lemma meeting_link_entry_insite_url meeting :
  Collector.meeting_link_entry meeting !! "insite_url"
  = Some (dict_get_or_empty meeting "EventInSiteURL").
Proof.
  unfold Collector.meeting_link_entry.
  rewrite 3 lookup_insert_ne by discriminate. by rewrite lookup_insert_eq.
Qed.

Lemma process_meeting_links a st meeting st' new :
  Collector.process_meeting a st meeting = Some (st', new) →
  ∃ event_id,
    Collector.meeting_links st'
    = <[event_id := Collector.meeting_link_entry meeting]> (Collector.meeting_links st)
    ∧ Forall (λ it, item_idx it "event_id" = Some event_id
                    ∧ is_Some (item_idx it "matter_file")) new.
Proof.
  unfold Collector.process_meeting. intros Hp.
  destruct (meeting !! "EventId") as [event_id|]; cbn [mbind option_bind] in Hp; [|done].
  destruct (meeting !! "EventDate" ≫= py_slice10) as [event_date|];
    cbn [mbind option_bind] in Hp; [|done].
  destruct (Collector.first_pass _ _ _ _) as [st1|] eqn:Hf;
    cbn [mbind option_bind] in Hp; [|done].
  destruct (Collector.second_pass _ _ _ _ _) as [items|] eqn:Hs;
    cbn [mbind option_bind] in Hp; [|done].
  injection Hp as <- <-.
  apply first_pass_spec in Hf as (_ & Hlinks & _). cbn in Hlinks.
  exists event_id. split; [done|].
  apply second_pass_spec in Hs. apply Forall_forall. intros it Hit.
  apply list_elem_of_lookup in Hit as [i Hi].
  destruct (Forall2_lookup_r _ _ _ _ _ Hs Hi) as (src & _ & title & _ & _ & Hd).
  split.
  - apply item_data_spec in Hd. tauto.
  - apply item_data_matter_file in Hd. rewrite Hd. by eexists.
Qed.

Lemma process_meetings_links a st meetings st' items :
  Collector.process_meetings a st meetings = Some (st', items) →
  links_readable st →
  links_readable st'
  ∧ dom (Collector.meeting_links st) ⊆ dom (Collector.meeting_links st')
  ∧ Forall (λ it, is_Some (item_idx it "matter_file")
                  ∧ ∃ e, item_idx it "event_id" = Some e
                      ∧ e ∈ dom (Collector.meeting_links st')) items.
Proof.
  revert st st' items. induction meetings as [|meeting meetings IH];
    intros st st' items Hp Hok.
  { cbn in Hp. injection Hp as <- <-. split; [done|]. split; [done|constructor]. }
  cbn [Collector.process_meetings] in Hp.
  destruct (Collector.process_meeting a st meeting) as [[st1 new]|] eqn:Hm;
    cbn [mbind option_bind] in Hp; [|done].
  destruct (Collector.process_meetings a st1 meetings) as [[st2 more]|] eqn:Hms;
    cbn [mbind option_bind] in Hp; [|done].
  injection Hp as <- <-.
  apply process_meeting_links in Hm as (event_id & Hl1 & Hnew).
  assert (links_readable st1) as Hok1.
  { intros e l. rewrite Hl1. destruct (decide (event_id = e)) as [->|Hne].
    - rewrite lookup_insert_eq. intros [= <-].
      rewrite meeting_link_entry_insite_url. by eexists.
    - rewrite lookup_insert_ne by done. apply Hok. }
  destruct (IH _ _ _ Hms Hok1) as (Hok2 & Hdom & Hmore).
  assert (dom (Collector.meeting_links st) ⊆ dom (Collector.meeting_links st1)) as Hdom1.
  { rewrite Hl1, dom_insert. set_solver. }
  split; [done|]. split; [set_solver|].
  apply Forall_app. split; [|done].
  eapply Forall_impl; [exact Hnew|]. intros it [He Hmf]. split; [done|].
  exists event_id. split; [done|]. apply Hdom. rewrite Hl1, dom_insert. set_solver.
Qed.

Lemma third_pass_links a st all_items st' items' :
  Collector.third_pass a st all_items = Some (st', items') →
  Collector.meeting_links st' = Collector.meeting_links st.
Proof.
  revert st st' items'. induction all_items as [|it rest IH]; intros st st' items' Ht.
  { cbn in Ht. by injection Ht as <- <-. }
  cbn [Collector.third_pass] in Ht.
  destruct (item_idx it "passed") as [p|]; cbn [mbind option_bind] in Ht; [|done].
  destruct (is_not_none p).
  - destruct (item_idx it "event_item_id") as [id|];
      cbn [mbind option_bind] in Ht; [|done].
    destruct (Collector.read_votes _ _) as [ms iv].
    destruct (Collector.third_pass a _ rest) as [[st2 rest']|] eqn:Hr;
      cbn [mbind option_bind] in Ht; [|done].
    injection Ht as <- <-. by rewrite (IH _ _ _ Hr).
  - destruct (Collector.third_pass a _ rest) as [[st2 rest']|] eqn:Hr;
      cbn [mbind option_bind] in Ht; [|done].
    injection Ht as <- <-. by rewrite (IH _ _ _ Hr).
Qed.

(** X29: the three phases fit: the items of a fresh collection, after
    enrichment, have every entry the scraper subscripts, and the workflow
    has a link entry for each of their meetings. So once the collection
    has not raised, [scrape_full_text] does not raise either, whatever the
    pages return. *)
Theorem scrape_full_text_after_collection a page api self meetings st' items :
  Collector.collect_event_items a Collector.init meetings = Some (st', items) →
  is_Some (Scraper.scrape_full_text page (Collector.meeting_links st')
             (enriched_items api self items)).
Proof.
  intros (st1 & items1 & Hp & Ht)%collect_event_items_inv.
  apply process_meetings_links in Hp as (Hok & _ & Hitems).
  2:{ intros e l H. cbn in H. by rewrite lookup_empty in H. }
  pose proof (third_pass_links _ _ _ _ _ Ht) as Hlinks.
  apply third_pass_spec in Ht as (Hf & _).
  apply scrape_full_text_is_Some.
  unfold enriched_items. rewrite enrich_matter_data_unfold. cbn [fst snd].
  apply Forall_fmap, Forall_forall. intros it' Hit'.
  apply list_elem_of_lookup in Hit' as [i Hi].
  destruct (Forall2_lookup_r _ _ _ _ _ Hf Hi) as (it & Hi1 & Hfields & _).
  rewrite Forall_forall in Hitems.
  destruct (Hitems it) as ([mf Hmf] & e & He & Hdom);
    [by eapply list_elem_of_lookup_2|].
  unfold scrapable. cbn.
  rewrite !populate_item_other by (by apply (bool_decide_unpack _)).
  unfold item_idx in *. rewrite Hfields.
  exists mf. split; [done|]. intros _. exists e. split; [done|].
  rewrite Hlinks. apply elem_of_dom in Hdom as [l Hl].
  exists l. split; [done|]. by eapply Hok.
Qed.

Lemma scrape_full_text_after_collection_witness :
  ∃ st' items,
    Collector.collect_event_items example_api Collector.init example_meetings
    = Some (st', items)
    ∧ is_Some (Scraper.scrape_full_text example_browser (Collector.meeting_links st')
                 (enriched_items (matters example_environment) example_workflow items)).
Proof.
  destruct example_collect_Some as [[st' items] Hc].
  exists st', items. split; [done|].
  exact (scrape_full_text_after_collection example_api example_browser
           (matters example_environment) example_workflow example_meetings
           st' items Hc).
Defined.
